(** * MillELO: the match engine of a nine-men's-morris server

    A shallow embedding of the core of [src/main.py]: the board rules
    ([NineMensMorris]), the game clock ([LichessStyleTimer]), the arena
    pairing round ([lichess_style_pairing]), the tournament scoring
    ([update_tournament_scores]), the ELO update ([update_ratings]) and
    the move handler ([on_make_move]).

    Conventions of the embedding:
    - a Python [int] is a [Z]; a Python [dict] keyed by strings is a
      [gmap string _] unless its iteration order matters, in which case
      it is an association list in insertion order;
    - a Python [list] is a [list]; indexing follows Python (negative
      indices count from the end, anything else out of range raises);
    - an exception is a value [Raise e] of the result type [res];
    - the floats of the rating engine are IEEE binary64 ([PrimFloat]);
      the floats of the clock (seconds) are exact rationals ([Q]). *)

From Stdlib Require Import ZArith QArith Qminmax Qround Lia Sorted Uint63 PrimFloat FloatOps SpecFloat.
From stdpp Require Import base gmap list strings.

Open Scope Z_scope.

(** ** Python results and exceptions *)

Inductive py_exn : Type :=
  | IndexError
  | KeyError
  | ValueError
  | TypeError
  | OverflowError
  | ZeroDivisionError.

Inductive res (A : Type) : Type :=
  | Ok (a : A)
  | Raise (e : py_exn).

Arguments Ok {A} a.
Arguments Raise {A} e.

#[global] Instance res_ret : MRet res := fun A a => Ok a.

#[global] Instance res_bind : MBind res := fun A B k m =>
  match m with
  | Ok a => k a
  | Raise e => Raise e
  end.

(** The two colours; [other] is the expression
    ['black' if c == 'white' else 'white']. *)
Inductive color : Type := white | black.

#[global] Instance color_eq_dec : EqDecision color.
Proof. solve_decision. Defined.

Definition other (c : color) : color :=
  match c with white => black | black => white end.

(** The [winner] argument of the rating and scoring functions. *)
Inductive outcome : Type := WhiteWins | BlackWins | DrawGame.

(** ** Rating engine: [calculate_k_factor] and [update_ratings] *)

Module Rating.

(** [round(x)] on a float: the nearest integer, ties to the even one;
    [round(nan)] raises [ValueError], [round(inf)] [OverflowError]. *)
Definition round_half_even (m e : Z) : Z :=
  if 0 <=? e then m * 2 ^ e
  else
    let d := 2 ^ (- e) in
    let q := m / d in
    let r := m mod d in
    if 2 * r <? d then q
    else if d <? 2 * r then q + 1
    else if Z.even q then q else q + 1.

Definition py_round (x : float) : res Z :=
  match Prim2SF x with
  | S754_zero _ => Ok 0
  | S754_infinity _ => Raise OverflowError
  | S754_nan => Raise ValueError
  | S754_finite s m e =>
      let v := round_half_even (Z.pos m) e in
      Ok (if s then - v else v)
  end.

(** [float(n)] for an integer below 2^63 in magnitude. *)
Definition float_of_int (n : Z) : float :=
  if n <? 0 then PrimFloat.opp (PrimFloat.of_uint63 (Uint63.of_Z (- n)))
  else PrimFloat.of_uint63 (Uint63.of_Z n).

Definition calculate_k_factor (rating games_played : Z) : Z :=
  if rating <? 1500 then 32
  else if rating <? 2000 then 24
  else 16.

Inductive game_type : Type := ranked | friendly.

(** The part of a user record that [update_ratings] reads and writes,
    for the rating type of the game; the rating history, the titles and
    the list of best wins are left out. *)
Record player : Type := mkPlayer {
  rating : Z;
  games_played : Z;
  wins : Z;
  losses : Z;
  draws : Z
}.

Definition count_game (p : player) (won lost : bool) : player :=
  {| rating := rating p;
     games_played := games_played p + 1;
     wins := if won then wins p + 1 else wins p;
     losses := if lost then losses p + 1 else losses p;
     draws := if won || lost then draws p else draws p + 1 |}.

Definition set_rating (p : player) (r : Z) : player :=
  {| rating := r; games_played := games_played p; wins := wins p;
     losses := losses p; draws := draws p |}.

Record rated : Type := mkRated {
  white_player : player;
  black_player : player;
  white_rating_change : Z;
  black_rating_change : Z
}.

Section WithPow.

(** [float_pow x y] is Python's [x ** y] on floats (the platform's
    [pow], raising [OverflowError] when the result overflows). *)
Variable float_pow : float -> float -> res float.

Definition float_div (x y : float) : res float :=
  if PrimFloat.eqb y 0 then Raise ZeroDivisionError else Ok (x / y)%float.

(** [1 / (1 + 10**((black_rating - white_rating) / 400))] *)
Definition expected_score (white_rating black_rating : Z) : res float :=
  x ← float_div (float_of_int (black_rating - white_rating)) 400;
  p ← float_pow 10 x;
  float_div 1 (1 + p)%float.

Definition scores (winner : outcome) : float * float :=
  match winner with
  | WhiteWins => (1, 0)%float
  | BlackWins => (0, 1)%float
  | DrawGame => (0.5, 0.5)%float
  end.

(** "Ensure minimum rating change for decisive games (except draws)". *)
Definition min_change (winner : outcome) (score : float) (change : Z) : Z :=
  match winner with
  | DrawGame => change
  | _ =>
      if Z.abs change <? 1
      then (if PrimFloat.ltb 0.5 score then 1 else -1)
      else change
  end.

(** The two rating changes after rounding and the minimum-change rule,
    before the 400-gap rule. *)
Definition base_changes (white_rating black_rating white_games black_games : Z)
  (winner : outcome) : res (Z * Z) :=
  let white_k := calculate_k_factor white_rating white_games in
  let black_k := calculate_k_factor black_rating black_games in
  expected_white ← expected_score white_rating black_rating;
  let expected_black := (1 - expected_white)%float in
  let '(white_score, black_score) := scores winner in
  wc ← py_round (float_of_int white_k * (white_score - expected_white))%float;
  bc ← py_round (float_of_int black_k * (black_score - expected_black))%float;
  Ok (min_change winner white_score wc, min_change winner black_score bc).

(** "400 ELO gap protection: if winner has 400+ more ELO, they get 0". *)
Definition gap_protection (white_rating black_rating : Z) (winner : outcome)
  (changes : Z * Z) : Z * Z :=
  let elo_gap := Z.abs (white_rating - black_rating) in
  if (400 <=? elo_gap) then
    match winner with
    | WhiteWins =>
        if black_rating <? white_rating then (0, snd changes) else changes
    | BlackWins =>
        if white_rating <? black_rating then (fst changes, 0) else changes
    | DrawGame => changes
    end
  else changes.

Definition update_ratings (gt : game_type) (wp bp : player) (winner : outcome)
  : res rated :=
  let white_rating := rating wp in
  let black_rating := rating bp in
  let won_w := match winner with WhiteWins => true | _ => false end in
  let won_b := match winner with BlackWins => true | _ => false end in
  match gt with
  | friendly =>
      Ok {| white_player := count_game wp won_w won_b;
            black_player := count_game bp won_b won_w;
            white_rating_change := 0;
            black_rating_change := 0 |}
  | ranked =>
      base ← base_changes white_rating black_rating
               (games_played wp) (games_played bp) winner;
      let '(wc, bc) := gap_protection white_rating black_rating winner base in
      let white_new_rating := Z.max 50 (white_rating + wc) in
      let black_new_rating := Z.max 50 (black_rating + bc) in
      Ok {| white_player := count_game (set_rating wp white_new_rating) won_w won_b;
            black_player := count_game (set_rating bp black_new_rating) won_b won_w;
            white_rating_change := wc;
            black_rating_change := bc |}
  end.

End WithPow.

Definition change_of (c : color) (r : rated) : Z :=
  match c with
  | white => white_rating_change r
  | black => black_rating_change r
  end.

Definition pair_of (c : color) (changes : Z * Z) : Z :=
  match c with white => changes.1 | black => changes.2 end.

Definition rating_of (c : color) (wp bp : player) : Z :=
  match c with white => rating wp | black => rating bp end.

Definition won_by (c : color) : outcome :=
  match c with white => WhiteWins | black => BlackWins end.

(** [10 ** y] at the exponents 0, -2.25 and 2.25 as CPython computes
    them, for running the engine on concrete games. *)
Definition sample_pow (x y : float) : res float :=
  if negb (PrimFloat.eqb x 10) then Raise OverflowError
  else if PrimFloat.eqb y 0 then Ok 1%float
  else if PrimFloat.eqb y (-2.25) then Ok 0x1.7089380241edfp-8%float
  else if PrimFloat.eqb y 2.25 then Ok 0x1.63a7e7e21d783p+7%float
  else Raise OverflowError.

End Rating.


(** ** Clock: [LichessStyleTimer]

    Times are seconds.  [now] is the value [time.time()] returns during
    the call; the three readings of the constructor are one instant. *)

Module Clock.

Inductive timer_state : Type := TIMER_RUNNING | TIMER_PAUSED | TIMER_EXPIRED.

#[global] Instance timer_state_eq_dec : EqDecision timer_state.
Proof. solve_decision. Defined.

Record timer : Type := mkTimer {
  white_time : Q;
  black_time : Q;
  increment : Z;
  active_player : color;
  state : timer_state;
  last_update : Q;
  last_sync : Q;
  move_count : Z;
  game_start_time : Q
}.

(** [__init__(game_id, white_time, black_time, increment)] *)
Definition new_timer (white_time black_time : Q) (increment : Z) (now : Q)
  : timer :=
  {| white_time := white_time; black_time := black_time;
     increment := increment; active_player := white;
     state := TIMER_RUNNING; last_update := now; last_sync := now;
     move_count := 0; game_start_time := now |}.

Definition time_of (c : color) (t : timer) : Q :=
  match c with white => white_time t | black => black_time t end.

Definition set_time (c : color) (v : Q) (t : timer) : timer :=
  match c with
  | white =>
      {| white_time := v; black_time := black_time t;
         increment := increment t; active_player := active_player t;
         state := state t; last_update := last_update t;
         last_sync := last_sync t; move_count := move_count t;
         game_start_time := game_start_time t |}
  | black =>
      {| white_time := white_time t; black_time := v;
         increment := increment t; active_player := active_player t;
         state := state t; last_update := last_update t;
         last_sync := last_sync t; move_count := move_count t;
         game_start_time := game_start_time t |}
  end.

Definition set_last_update (now : Q) (t : timer) : timer :=
  {| white_time := white_time t; black_time := black_time t;
     increment := increment t; active_player := active_player t;
     state := state t; last_update := now;
     last_sync := last_sync t; move_count := move_count t;
     game_start_time := game_start_time t |}.

Definition set_state (s : timer_state) (t : timer) : timer :=
  {| white_time := white_time t; black_time := black_time t;
     increment := increment t; active_player := active_player t;
     state := s; last_update := last_update t;
     last_sync := last_sync t; move_count := move_count t;
     game_start_time := game_start_time t |}.

(** "Deduct time from active player":
    [self.x_time = max(0, self.x_time - elapsed)]. *)
Definition deduct (elapsed : Q) (t : timer) : timer :=
  let c := active_player t in
  set_time c (Qmax 0 (time_of c t - elapsed)) t.

Record times : Type := mkTimes {
  t_white : Q;
  t_black : Q;
  server_time : Q
}.

Definition remaining (c : color) (r : times) : Q :=
  match c with white => t_white r | black => t_black r end.

Definition get_current_times (now : Q) (t : timer) : times * timer :=
  let t1 :=
    match state t with
    | TIMER_RUNNING => deduct (now - last_update t) t
    | _ => t
    end in
  let t2 := set_last_update now t1 in
  ({| t_white := Qmax 0 (white_time t2);
      t_black := Qmax 0 (black_time t2);
      server_time := now |}, t2).

(** [switch_player(new_player)]: the returned boolean is
    [increment_applied]. *)
Definition switch_player (now : Q) (new_player : color) (t : timer)
  : bool * timer :=
  match state t with
  | TIMER_RUNNING =>
      let t1 := deduct (now - last_update t) t in
      let increment_applied := (0 <? increment t) && (0 <=? move_count t) in
      let t2 :=
        if increment_applied
        then set_time (active_player t1)
               (time_of (active_player t1) t1 + inject_Z (increment t1)) t1
        else t1 in
      (increment_applied,
       {| white_time := white_time t2; black_time := black_time t2;
          increment := increment t2; active_player := new_player;
          state := state t2; last_update := now;
          last_sync := last_sync t2; move_count := move_count t2 + 1;
          game_start_time := game_start_time t2 |})
  | _ => (false, t)
  end.

Definition pause (now : Q) (t : timer) : timer :=
  match state t with
  | TIMER_RUNNING => set_state TIMER_PAUSED (snd (get_current_times now t))
  | _ => t
  end.

Definition resume (now : Q) (t : timer) : timer :=
  match state t with
  | TIMER_PAUSED => set_last_update now (set_state TIMER_RUNNING t)
  | _ => t
  end.

Definition is_expired (now : Q) (t : timer) : bool * timer :=
  let '(r, t') := get_current_times now t in
  (Qle_bool (remaining (active_player t') r) 0, t').

Definition set_last_sync (now : Q) (t : timer) : timer :=
  {| white_time := white_time t; black_time := black_time t;
     increment := increment t; active_player := active_player t;
     state := state t; last_update := last_update t;
     last_sync := now; move_count := move_count t;
     game_start_time := game_start_time t |}.

(** The clocks the program can hold: created by [new_timer], then
    changed by the methods and by the assignments made from outside the
    class: to [state] and [last_update] by the timer functions and the
    move handler, to [last_sync] by the timer thread, and to the time of
    one side, which the berserk handler halves. *)
Inductive reachable : timer -> Prop :=
  | reach_new w b i now : reachable (new_timer w b i now)
  | reach_switch now c t : reachable t -> reachable (snd (switch_player now c t))
  | reach_read now t : reachable t -> reachable (snd (get_current_times now t))
  | reach_pause now t : reachable t -> reachable (pause now t)
  | reach_resume now t : reachable t -> reachable (resume now t)
  | reach_state s t : reachable t -> reachable (set_state s t)
  | reach_last_update now t : reachable t -> reachable (set_last_update now t)
  | reach_last_sync now t : reachable t -> reachable (set_last_sync now t)
  | reach_berserk c t :
      reachable t -> reachable (set_time c (time_of c t / 2)%Q t).

End Clock.

(** ** Board engine: [NineMensMorris] *)

Module Board.

Abbreviation cell := (option color).

(** [self.phase]: 1 placing, 2 moving, 3 flying. *)
Inductive phase_t : Type := placing | moving | flying.

#[global] Instance phase_eq_dec : EqDecision phase_t.
Proof. solve_decision. Defined.

(** An entry of [self.moves]; the key [timers] is added later by the
    move handler. *)
Record move_entry : Type := mkMove {
  mv_from : option Z;
  mv_to : option Z;
  mv_remove : option Z;
  mv_player : color;
  mv_mill : bool;
  mv_timers : option (Q * Q)
}.

Record game : Type := mkGame {
  board : list cell;
  phase : phase_t;
  current_player : color;
  white_pieces : Z;
  black_pieces : Z;
  total_pieces_placed : Z;
  moves : list move_entry
}.

Definition new_game : game :=
  {| board := replicate 24 None; phase := placing; current_player := white;
     white_pieces := 9; black_pieces := 9; total_pieces_placed := 0;
     moves := [] |}.

Definition mills : list (list Z) :=
  [ [0; 1; 2]; [3; 4; 5]; [6; 7; 8]; [9; 10; 11]; [12; 13; 14];
    [15; 16; 17]; [18; 19; 20]; [21; 22; 23];
    [0; 9; 21]; [3; 10; 18]; [6; 11; 15]; [1; 4; 7]; [16; 19; 22];
    [8; 12; 17]; [5; 13; 20]; [2; 14; 23] ].

(** [self.adjacents], a dict with keys 0..23. *)
Definition adjacents (p : Z) : option (list Z) :=
  match p with
  | 0 => Some [1; 9] | 1 => Some [0; 2; 4] | 2 => Some [1; 14]
  | 3 => Some [4; 10] | 4 => Some [1; 3; 5; 7] | 5 => Some [4; 13]
  | 6 => Some [7; 11] | 7 => Some [4; 6; 8] | 8 => Some [7; 12]
  | 9 => Some [0; 10; 21] | 10 => Some [3; 9; 11; 18]
  | 11 => Some [6; 10; 15] | 12 => Some [8; 13; 17]
  | 13 => Some [5; 12; 14; 20] | 14 => Some [2; 13; 23]
  | 15 => Some [11; 16] | 16 => Some [15; 17; 19] | 17 => Some [12; 16]
  | 18 => Some [10; 19] | 19 => Some [16; 18; 20; 22]
  | 20 => Some [13; 19] | 21 => Some [9; 22] | 22 => Some [19; 21; 23]
  | 23 => Some [14; 22]
  | _ => None
  end.

(** Python list indexing: [l[i]] and [l[i] = v]. *)
Definition py_index {A : Type} (l : list A) (i : Z) : res nat :=
  let n := Z.of_nat (length l) in
  if (0 <=? i) && (i <? n) then Ok (Z.to_nat i)
  else if (- n <=? i) && (i <? 0) then Ok (Z.to_nat (n + i))
  else Raise IndexError.

Definition getitem {A : Type} (l : list A) (i : Z) : res A :=
  k ← py_index l i;
  match l !! k with
  | Some a => Ok a
  | None => Raise IndexError
  end.

Definition setitem {A : Type} (l : list A) (i : Z) (v : A) : res (list A) :=
  k ← py_index l i;
  Ok (<[k := v]> l).

(** [all(self.board[pos] == player for pos in mill)] *)
Fixpoint all_owned (b : list cell) (player : color) (mill : list Z)
  : res bool :=
  match mill with
  | [] => Ok true
  | pos :: rest =>
      c ← getitem b pos;
      if bool_decide (c = Some player) then all_owned b player rest
      else Ok false
  end.

Fixpoint mill_among (b : list cell) (player : color) (position : Z)
  (ms : list (list Z)) : res bool :=
  match ms with
  | [] => Ok false
  | mill :: rest =>
      if bool_decide (position ∈ mill) then
        a ← all_owned b player mill;
        if a : bool then Ok true else mill_among b player position rest
      else mill_among b player position rest
  end.

Definition is_mill (g : game) (position : Z) : res bool :=
  player ← getitem (board g) position;
  match player with
  | None => Ok false
  | Some p => mill_among (board g) p position mills
  end.

Definition can_remove (g : game) (position : Z) : res bool :=
  c ← getitem (board g) position;
  match c with
  | None => Ok false
  | Some p =>
      if bool_decide (p = current_player g) then Ok false
      else m ← is_mill g position; Ok (negb m)
  end.

(** [sum(1 for piece in self.board if piece == c)] *)
Definition count_pieces (c : color) (b : list cell) : Z :=
  Z.of_nat (length (filter (λ x, x = Some c) b)).

(** [[i for i, piece in enumerate(self.board) if piece == c]],
    counting from [i]. *)
Fixpoint positions_of (c : color) (b : list cell) (i : Z) : list Z :=
  match b with
  | [] => []
  | x :: rest =>
      if bool_decide (x = Some c) then i :: positions_of c rest (i + 1)
      else positions_of c rest (i + 1)
  end.

(** [any(self.can_remove(pos) for pos in ps)] *)
Fixpoint any_removable (g : game) (ps : list Z) : res bool :=
  match ps with
  | [] => Ok false
  | pos :: rest =>
      r ← can_remove g pos;
      if r : bool then Ok true else any_removable g rest
  end.

(** *** The mutating method [make_move]

    A method is a function from the object before the call to its result
    (or the exception raised) and the object after the call. *)

Definition M (A : Type) : Type := game -> res A * game.

#[global] Instance M_ret : MRet M := fun A a g => (Ok a, g).

#[global] Instance M_bind : MBind M := fun A B k m g =>
  match m g with
  | (Ok a, g') => k a g'
  | (Raise e, g') => (Raise e, g')
  end.

Definition gets {A : Type} (f : game -> A) : M A := fun g => (Ok (f g), g).

Definition modify (f : game -> game) : M unit := fun g => (Ok tt, f g).

Definition lift {A : Type} (f : game -> res A) : M A := fun g => (f g, g).

Definition with_board (b : list cell) (g : game) : game :=
  {| board := b; phase := phase g; current_player := current_player g;
     white_pieces := white_pieces g; black_pieces := black_pieces g;
     total_pieces_placed := total_pieces_placed g; moves := moves g |}.

Definition with_phase (p : phase_t) (g : game) : game :=
  {| board := board g; phase := p; current_player := current_player g;
     white_pieces := white_pieces g; black_pieces := black_pieces g;
     total_pieces_placed := total_pieces_placed g; moves := moves g |}.

Definition with_player (c : color) (g : game) : game :=
  {| board := board g; phase := phase g; current_player := c;
     white_pieces := white_pieces g; black_pieces := black_pieces g;
     total_pieces_placed := total_pieces_placed g; moves := moves g |}.

Definition log_move (m : move_entry) (g : game) : game :=
  {| board := board g; phase := phase g; current_player := current_player g;
     white_pieces := white_pieces g; black_pieces := black_pieces g;
     total_pieces_placed := total_pieces_placed g; moves := moves g ++ [m] |}.

(** The placing-phase bookkeeping: one piece leaves the mover's hand and
    [total_pieces_placed] grows by one. *)
Definition take_from_hand (g : game) : game :=
  {| board := board g; phase := phase g; current_player := current_player g;
     white_pieces :=
       match current_player g with
       | white => white_pieces g - 1 | black => white_pieces g end;
     black_pieces :=
       match current_player g with
       | white => black_pieces g | black => black_pieces g - 1 end;
     total_pieces_placed := total_pieces_placed g + 1; moves := moves g |}.

(** [self.board[i]] *)
Definition board_get (i : Z) : M cell := lift (λ g, getitem (board g) i).

(** [self.board[i] = v] *)
Definition board_set (i : Z) (v : cell) : M unit := fun g =>
  match setitem (board g) i v with
  | Ok b => (Ok tt, with_board b g)
  | Raise e => (Raise e, g)
  end.

(** Indexing with the [from_pos] of the request, which may be [None]. *)
Definition board_get_opt (i : option Z) : M cell :=
  match i with
  | Some i => board_get i
  | None => lift (λ _, Raise TypeError)
  end.

Definition adjacents_get (i : Z) : M (list Z) :=
  lift (λ _, match adjacents i with Some l => Ok l | None => Raise KeyError end).

(** The body shared by the moving and the flying phase, up to the
    computation of [mill_formed]; [None] is the early [return False]. *)
Definition relocate (from_pos : option Z) (to_pos : Z) : M (option bool) :=
  me ← gets current_player;
  src ← board_get_opt from_pos;
  if bool_decide (src ≠ Some me) then mret None else
  dst ← board_get to_pos;
  if bool_decide (dst ≠ None) then mret None else
  current_player_pieces ← gets (λ g, count_pieces me (board g));
  allowed ←
    (if current_player_pieces =? 3 then mret true
     else
       adj ← adjacents_get (default 0 from_pos);
       mret (bool_decide (to_pos ∈ adj)));
  if negb allowed then mret None else
  _ ← board_set (default 0 from_pos) None;
  _ ← board_set to_pos (Some me);
  mill_formed ← lift (λ g, is_mill g to_pos);
  mret (Some mill_formed).

(** The phase-specific first part of [make_move]. *)
Definition move_piece (from_pos : option Z) (to_pos : Z) : M (option bool) :=
  ph ← gets phase;
  match ph with
  | placing =>
      dst ← board_get to_pos;
      if bool_decide (dst ≠ None) then mret None else
      me ← gets current_player;
      _ ← board_set to_pos (Some me);
      _ ← modify take_from_hand;
      mill_formed ← lift (λ g, is_mill g to_pos);
      total ← gets total_pieces_placed;
      _ ← (if 18 <=? total then modify (with_phase moving) else mret tt);
      mret (Some mill_formed)
  | moving =>
      r ← relocate from_pos to_pos;
      match r with
      | None => mret None
      | Some mill_formed =>
          white_count ← gets (λ g, count_pieces white (board g));
          black_count ← gets (λ g, count_pieces black (board g));
          _ ← (if (white_count =? 3) || (black_count =? 3)
               then modify (with_phase flying) else mret tt);
          mret (Some mill_formed)
      end
  | flying => relocate from_pos to_pos
  end.

(** "Handle piece removal after mill": the result is [piece_removed]. *)
Definition capture (mill_formed : bool) (remove_pos : option Z) : M bool :=
  match mill_formed, remove_pos with
  | true, Some r =>
      ok ← lift (λ g, can_remove g r);
      if ok : bool then _ ← board_set r None; mret true else mret false
  | _, _ => mret false
  end.

(** "Check if any pieces can be removed when mill is formed". *)
Definition can_remove_any (mill_formed : bool) : M bool :=
  if mill_formed then
    lift (λ g,
      any_removable g (positions_of (other (current_player g)) (board g) 0))
  else mret false.

(** The value [make_move] returns: [False], or the dict with the keys
    [success], [mill_formed] and [waiting_for_removal]. *)
Inductive move_result : Type :=
  | ReturnFalse
  | ReturnDict (success mill_formed waiting_for_removal : bool).

(** The second part of [make_move], from "Handle piece removal after
    mill" to the [return]. *)
Definition conclude_move (from_pos : option Z) (to_pos : Z)
  (remove_pos : option Z) (mill_formed : bool) : M move_result :=
  piece_removed ← capture mill_formed remove_pos;
  removable ← can_remove_any mill_formed;
  me ← gets current_player;
  _ ← modify (log_move
         {| mv_from := from_pos; mv_to := Some to_pos;
            mv_remove := if piece_removed : bool then remove_pos else None;
            mv_player := me; mv_mill := mill_formed;
            mv_timers := None |});
  _ ← (if negb mill_formed || (mill_formed && piece_removed)
          || (mill_formed && negb removable)
       then modify (with_player (other me)) else mret tt);
  mret (ReturnDict true mill_formed
          (mill_formed && bool_decide (remove_pos = None) && removable)).

Definition make_move (from_pos : option Z) (to_pos : Z) (remove_pos : option Z)
  : M move_result :=
  r ← move_piece from_pos to_pos;
  match r with
  | None => mret ReturnFalse
  | Some mill_formed => conclude_move from_pos to_pos remove_pos mill_formed
  end.

(** [get_winner]; [None] is "no result yet". *)
Definition entry_is_loud (m : move_entry) : bool :=
  mv_mill m ||
  match mv_remove m with
  | Some r => negb (r =? 0)
  | None => false
  end.

Definition last_n {A : Type} (n : nat) (l : list A) : list A :=
  drop (length l - n)%nat l.

Definition get_winner (g : game) : option outcome :=
  let white_count := count_pieces white (board g) in
  let black_count := count_pieces black (board g) in
  if bool_decide (phase g ≠ placing) && (white_count <=? 2) then Some BlackWins
  else if bool_decide (phase g ≠ placing) && (black_count <=? 2) then Some WhiteWins
  else if (50 <=? length (moves g))%nat
          && negb (existsb entry_is_loud (last_n 50 (moves g)))
       then Some DrawGame
  else None.

(** *** The capture rule as the specification words it

    "A candidate removal position is legal iff it holds an opponent piece
    AND is not part of an intact opponent mill, unless the opponent's
    entire remaining piece set is inside mills (then any opposing piece
    becomes removable)." *)





(** The boards the program can hold have 24 points. *)
Definition wf (g : game) : Prop := length (board g) = 24%nat.

(** A board from a list of occupied points. *)
Fixpoint put_all (ps : list (nat * color)) (b : list cell) : list cell :=
  match ps with
  | [] => b
  | (i, c) :: rest => put_all rest (<[i := Some c]> b)
  end.

(** A step of a method that leaves [current_player] as it is. *)
Definition keeps_player {A : Type} (m : M A) : Prop :=
  forall g r g', m g = (r, g') -> current_player g' = current_player g.

(** A Python index into a 24-point board. *)
Definition py_valid (i : Z) : Prop := -24 <= i < 24.

(** The object after the mover's piece was placed at [to_pos] in the
    placing phase, before any capture. *)
Definition placed (to_pos : Z) (g : game) : game :=
  let g1 :=
    take_from_hand
      (with_board (<[Z.to_nat to_pos := Some (current_player g)]> (board g)) g) in
  if 18 <=? total_pieces_placed g1 then with_phase moving g1 else g1.

(** White has just closed the mill 3-4-5 with its fourth piece and is to
    capture; black's three pieces form the mill 0-1-2. *)
Definition all_black_in_mill : game :=
  {| board := put_all [(0, black); (1, black); (2, black); (6, white);
                       (3, white); (4, white); (5, white)]%nat
                (replicate 24 None);
     phase := placing; current_player := white;
     white_pieces := 5; black_pieces := 6; total_pieces_placed := 7;
     moves := [] |}.

(** White to place, with 0 and 1 already white; black holds the mill
    3-4-5 and the single piece 6. *)
Definition white_about_to_mill : game :=
  {| board := put_all [(0, white); (1, white); (3, black); (4, black);
                       (5, black); (6, black); (9, white)]%nat
                (replicate 24 None);
     phase := placing; current_player := white;
     white_pieces := 5; black_pieces := 5; total_pieces_placed := 8;
     moves := [] |}.

(** Seventeen pieces placed, black to place the eighteenth. *)
Definition last_placement : game :=
  {| board := put_all [(0, white); (1, black); (2, white); (3, black);
                       (4, white); (5, black); (6, white); (7, black);
                       (8, white); (9, black); (10, white); (11, black);
                       (12, black); (13, white); (14, black); (15, white);
                       (16, white)]%nat
                (replicate 24 None);
     phase := placing; current_player := black;
     white_pieces := 0; black_pieces := 1; total_pieces_placed := 17;
     moves := [] |}.

End Board.

(** ** Match session: the handler [on_make_move]

    The handler works on the registries [games] and [game_timers].  What
    it sends or hands to other components (socket events, the rating and
    tournament updates) is recorded as a trace; the lobby's featured-game
    broadcast is left out.  [now] is the wall time of the call, read by
    every [time.time()] in it.  The key [moves] of a session is the list
    [game.moves] itself, so the record has no field of its own for it. *)

Module Session.

Inductive status_t : Type := waiting_first_move | playing | finished | canceled.

#[global] Instance status_eq_dec : EqDecision status_t.
Proof. solve_decision. Defined.

Record game_data : Type := mkGameData {
  gd_white : string;
  gd_black : string;
  status : status_t;
  game : Board.game;
  waiting_for_removal : option bool;
  white_first_move_made : bool;
  black_first_move_made : bool;
  waiting_for_first_move : option color;
  first_move_deadline : option Q;
  timer_started : bool;
  winner : option outcome;
  end_reason : option string;
  end_time : option Q;
  positions : list (list Board.cell);
  timers : Z * Z;
  tournament_id : option string;
  tournament_points_disabled : bool;
  berserk : bool * bool
}.

Record world : Type := mkWorld {
  games : gmap string game_data;
  game_timers : gmap string Clock.timer
}.

(** The payload of a [make_move] message. *)
Record request : Type := mkRequest {
  room_id : string;
  from_pos : option Z;
  to_pos : option Z;
  remove_pos : option Z
}.

Inductive event : Type :=
  | Emit (name : string)
  | UpdateRatings (room : string) (w : outcome)
  | UpdateTournamentScores (room : string) (w : outcome)
  | RequeueTournamentPlayers (room : string)
  | BroadcastTournamentFeaturedGame (tournament : string).

Record reply : Type := mkReply {
  after : world;
  trace : list event;
  raised : option py_exn
}.

(** [int(x)] on a float: truncation towards zero. *)
Definition py_int (x : Q) : Z := Z.quot (Qnum x) (Z.pos (Qden x)).

Definition set_game (g : Board.game) (gd : game_data) : game_data :=
  {| gd_white := gd_white gd; gd_black := gd_black gd; status := status gd;
     game := g; waiting_for_removal := waiting_for_removal gd;
     white_first_move_made := white_first_move_made gd;
     black_first_move_made := black_first_move_made gd;
     waiting_for_first_move := waiting_for_first_move gd;
     first_move_deadline := first_move_deadline gd;
     timer_started := timer_started gd; winner := winner gd;
     end_reason := end_reason gd; end_time := end_time gd;
     positions := positions gd; timers := timers gd;
     tournament_id := tournament_id gd;
     tournament_points_disabled := tournament_points_disabled gd;
     berserk := berserk gd |}.

Definition set_waiting (v : option bool) (gd : game_data) : game_data :=
  {| gd_white := gd_white gd; gd_black := gd_black gd; status := status gd;
     game := game gd; waiting_for_removal := v;
     white_first_move_made := white_first_move_made gd;
     black_first_move_made := black_first_move_made gd;
     waiting_for_first_move := waiting_for_first_move gd;
     first_move_deadline := first_move_deadline gd;
     timer_started := timer_started gd; winner := winner gd;
     end_reason := end_reason gd; end_time := end_time gd;
     positions := positions gd; timers := timers gd;
     tournament_id := tournament_id gd;
     tournament_points_disabled := tournament_points_disabled gd;
     berserk := berserk gd |}.

Definition set_timers (v : Z * Z) (gd : game_data) : game_data :=
  {| gd_white := gd_white gd; gd_black := gd_black gd; status := status gd;
     game := game gd; waiting_for_removal := waiting_for_removal gd;
     white_first_move_made := white_first_move_made gd;
     black_first_move_made := black_first_move_made gd;
     waiting_for_first_move := waiting_for_first_move gd;
     first_move_deadline := first_move_deadline gd;
     timer_started := timer_started gd; winner := winner gd;
     end_reason := end_reason gd; end_time := end_time gd;
     positions := positions gd; timers := v;
     tournament_id := tournament_id gd;
     tournament_points_disabled := tournament_points_disabled gd;
     berserk := berserk gd |}.

Definition push_position (b : list Board.cell) (gd : game_data) : game_data :=
  {| gd_white := gd_white gd; gd_black := gd_black gd; status := status gd;
     game := game gd; waiting_for_removal := waiting_for_removal gd;
     white_first_move_made := white_first_move_made gd;
     black_first_move_made := black_first_move_made gd;
     waiting_for_first_move := waiting_for_first_move gd;
     first_move_deadline := first_move_deadline gd;
     timer_started := timer_started gd; winner := winner gd;
     end_reason := end_reason gd; end_time := end_time gd;
     positions := positions gd ++ [b]; timers := timers gd;
     tournament_id := tournament_id gd;
     tournament_points_disabled := tournament_points_disabled gd;
     berserk := berserk gd |}.

(** White's first move of a game that waits for the first moves. *)
Definition white_moved_first (now : Q) (gd : game_data) : game_data :=
  {| gd_white := gd_white gd; gd_black := gd_black gd; status := status gd;
     game := game gd; waiting_for_removal := waiting_for_removal gd;
     white_first_move_made := true;
     black_first_move_made := black_first_move_made gd;
     waiting_for_first_move := Some black;
     first_move_deadline := Some (now + 20)%Q;
     timer_started := timer_started gd; winner := winner gd;
     end_reason := end_reason gd; end_time := end_time gd;
     positions := positions gd; timers := timers gd;
     tournament_id := tournament_id gd;
     tournament_points_disabled := tournament_points_disabled gd;
     berserk := berserk gd |}.

(** Black's first move of such a game: the game starts. *)
Definition black_moved_first (gd : game_data) : game_data :=
  {| gd_white := gd_white gd; gd_black := gd_black gd; status := playing;
     game := game gd; waiting_for_removal := waiting_for_removal gd;
     white_first_move_made := white_first_move_made gd;
     black_first_move_made := true;
     waiting_for_first_move := None;
     first_move_deadline := first_move_deadline gd;
     timer_started := true; winner := winner gd;
     end_reason := end_reason gd; end_time := end_time gd;
     positions := positions gd; timers := timers gd;
     tournament_id := tournament_id gd;
     tournament_points_disabled := tournament_points_disabled gd;
     berserk := berserk gd |}.

(** The first move of a game that does not wait for first moves. *)
Definition start_playing (gd : game_data) : game_data :=
  {| gd_white := gd_white gd; gd_black := gd_black gd; status := playing;
     game := game gd; waiting_for_removal := waiting_for_removal gd;
     white_first_move_made := white_first_move_made gd;
     black_first_move_made := black_first_move_made gd;
     waiting_for_first_move := waiting_for_first_move gd;
     first_move_deadline := first_move_deadline gd;
     timer_started := true; winner := winner gd;
     end_reason := end_reason gd; end_time := end_time gd;
     positions := positions gd; timers := timers gd;
     tournament_id := tournament_id gd;
     tournament_points_disabled := tournament_points_disabled gd;
     berserk := berserk gd |}.

(** "Immediately set game as finished". *)
Definition set_finished (now : Q) (w : outcome) (gd : game_data) : game_data :=
  {| gd_white := gd_white gd; gd_black := gd_black gd; status := finished;
     game := game gd; waiting_for_removal := waiting_for_removal gd;
     white_first_move_made := white_first_move_made gd;
     black_first_move_made := black_first_move_made gd;
     waiting_for_first_move := waiting_for_first_move gd;
     first_move_deadline := first_move_deadline gd;
     timer_started := timer_started gd; winner := Some w;
     end_reason := Some "normal"%string; end_time := Some now;
     positions := positions gd; timers := timers gd;
     tournament_id := tournament_id gd;
     tournament_points_disabled := tournament_points_disabled gd;
     berserk := berserk gd |}.

Definition timer_map : Type := gmap string Clock.timer.

(** [game_timers[room].resume(); game_timers[room].state = TIMER_RUNNING] *)
Definition resume_timer (now : Q) (room : string) (ts : timer_map) : timer_map :=
  match ts !! room with
  | Some t =>
      <[room := Clock.set_state Clock.TIMER_RUNNING (Clock.resume now t)]> ts
  | None => ts
  end.

Definition switch_player_timer (now : Q) (room : string) (new_player : color)
  (gd : game_data) (ts : timer_map) : game_data * timer_map * list event :=
  match ts !! room with
  | None => (gd, ts, [])
  | Some t =>
      let '(_, t1) := Clock.get_current_times now t in
      let '(_, t2) := Clock.switch_player now new_player t1 in
      let '(cur, t3) := Clock.get_current_times now t2 in
      (set_timers (py_int (Clock.t_white cur), py_int (Clock.t_black cur)) gd,
       <[room := t3]> ts,
       [Emit "timer_update"; Emit "timer_sync"])
  end.

Definition stop_game_timer (room : string) (ts : timer_map) : timer_map :=
  delete room ts.

(** The end of a game detected by [get_winner]. *)
Definition finish_game (now : Q) (room : string) (w : outcome)
  (gd : game_data) (ts : timer_map) : game_data * timer_map * list event :=
  (set_finished now w gd, stop_game_timer room ts,
   [UpdateRatings room w; Emit "game_over";
    UpdateTournamentScores room w; RequeueTournamentPlayers room]).

(** "Handle first move timer". *)
Definition first_move_step (now : Q) (room : string) (player_color : color)
  (gd : game_data) (ts : timer_map) : game_data * timer_map * list event :=
  match status gd with
  | waiting_first_move =>
      match player_color with
      | white =>
          if negb (white_first_move_made gd)
          then (white_moved_first now gd, ts, [Emit "first_move_countdown_start"])
          else (gd, ts, [])
      | black =>
          if negb (black_first_move_made gd)
          then (black_moved_first gd, resume_timer now room ts,
                [Emit "first_move_countdown_complete"])
          else (gd, ts, [])
      end
  | _ =>
      if negb (timer_started gd)
      then (start_playing gd, resume_timer now room ts, [])
      else (gd, ts, [])
  end.

Definition tournament_broadcast (gd : game_data) : list event :=
  match tournament_id gd with
  | Some t => if bool_decide (t = ""%string) then [] else [BroadcastTournamentFeaturedGame t]
  | None => []
  end.

Definition write_back (room : string) (gd : game_data) (ts : timer_map)
  (w : world) : world :=
  {| games := <[room := gd]> (games w); game_timers := ts |}.

(** "Check for game over": [winner = game.get_winner(); if winner: ...]. *)
Definition check_game_over (now : Q) (room : string) (gd : game_data)
  (ts : timer_map) : game_data * timer_map * list event :=
  match Board.get_winner (game gd) with
  | Some w => finish_game now room w gd ts
  | None => (gd, ts, [])
  end.

(** The branch "Player is removing a piece after mill formation". *)
Definition remove_after_mill (now : Q) (room : string) (player_color : color)
  (r : Z) (gd : game_data) (ts : timer_map) (tr : list event) (w : world)
  : reply :=
  match Board.can_remove (game gd) r with
  | Raise e => {| after := write_back room gd ts w; trace := tr; raised := Some e |}
  | Ok false => {| after := write_back room gd ts w; trace := tr; raised := None |}
  | Ok true =>
      match Board.setitem (Board.board (game gd)) r None with
      | Raise e =>
          {| after := write_back room gd ts w; trace := tr; raised := Some e |}
      | Ok b =>
          let g1 := Board.with_board b (game gd) in
          let g2 := Board.with_player (other (Board.current_player g1)) g1 in
          let gd1 := set_game g2 (set_waiting (Some false) gd) in
          let '(gd2, ts2, tr2) :=
            switch_player_timer now room (Board.current_player g2) gd1 ts in
          let g3 :=
            Board.log_move
              {| Board.mv_from := None; Board.mv_to := None;
                 Board.mv_remove := Some r; Board.mv_player := player_color;
                 Board.mv_mill := false; Board.mv_timers := None |}
              (game gd2) in
          let gd3 := set_game g3 gd2 in
          let '(gd4, ts4, tr4) := check_game_over now room gd3 ts2 in
          {| after := write_back room gd4 ts4 w;
             trace := tr ++ tr2 ++ [Emit "move_made"] ++ tournament_broadcast gd3
                      ++ tr4;
             raised := None |}
      end
  end.

(** "Add move timestamp and timer info to moves": the last entry of the
    move log receives the clock snapshot. *)
Definition stamp_last (snapshot : Q * Q) (g : Board.game) : Board.game :=
  match reverse (Board.moves g) with
  | [] => g
  | m :: earlier =>
      {| Board.board := Board.board g; Board.phase := Board.phase g;
         Board.current_player := Board.current_player g;
         Board.white_pieces := Board.white_pieces g;
         Board.black_pieces := Board.black_pieces g;
         Board.total_pieces_placed := Board.total_pieces_placed g;
         Board.moves :=
           reverse earlier ++
           [ {| Board.mv_from := Board.mv_from m; Board.mv_to := Board.mv_to m;
                Board.mv_remove := Board.mv_remove m;
                Board.mv_player := Board.mv_player m;
                Board.mv_mill := Board.mv_mill m;
                Board.mv_timers := Some snapshot |} ] |}
  end.

(** What [get_featured_game] reads besides the two registries: the
    order in which the dict [games] yields its rooms, and for the game of
    a room the sum of the ratings of its two players as [users] holds
    them. *)
Record lobby_view : Type := mkView {
  room_order : list string;
  combined_elo : string -> Z
}.

(** One round of the loop of [get_featured_game].  The accumulator holds
    the room of [best_game], [best_combined_elo] and the clocks: the
    clock of a game that becomes the best one so far is read with
    [get_current_times], which updates it.  Of the two statuses the loop
    skips, the program gives only [finished] to a game. *)
Definition featured_step (now : Q) (view : lobby_view)
  (gs : gmap string game_data) (acc : option string * Z * timer_map)
  (game_id : string) : option string * Z * timer_map :=
  let '(best_game, best_combined_elo, ts) := acc in
  match gs !! game_id with
  | None => acc
  | Some game =>
      if bool_decide (status game = finished) then acc
      else
        match ts !! game_id with
        | None => acc
        | Some timer =>
            if bool_decide (gd_white game = ""%string)
               || bool_decide (gd_black game = ""%string)
            then acc
            else if best_combined_elo <? combined_elo view game_id
            then
              let '(_, timer1) := Clock.get_current_times now timer in
              (Some game_id, combined_elo view game_id,
               <[game_id := timer1]> ts)
            else acc
        end
  end.

(** The result is the room of the featured game, if there is one, and
    the clocks after the scan. *)
Definition get_featured_game (now : Q) (view : lobby_view)
  (gs : gmap string game_data) (ts : timer_map) : option string * timer_map :=
  let '(best_game, _, ts1) :=
    foldl (featured_step now view gs) (None, 0, ts) (room_order view) in
  (best_game, ts1).

(** The branch "Normal move handling". *)
Definition normal_move (view : lobby_view) (now : Q) (room : string)
  (player_color : color) (data : request) (gd : game_data) (ts : timer_map)
  (tr : list event) (w : world) : reply :=
  match to_pos data with
  | None => {| after := write_back room gd ts w; trace := tr; raised := Some KeyError |}
  | Some dst =>
      match Board.make_move (from_pos data) dst (remove_pos data) (game gd) with
      | (Raise e, g1) =>
          {| after := write_back room (set_game g1 gd) ts w; trace := tr;
             raised := Some e |}
      | (Ok Board.ReturnFalse, g1)
      | (Ok (Board.ReturnDict false _ _), g1) =>
          {| after := write_back room (set_game g1 gd) ts w; trace := tr;
             raised := None |}
      | (Ok (Board.ReturnDict true mill_formed waiting), g1) =>
          let gd1 := push_position (Board.board g1) (set_game g1 gd) in
          let '(gd2, ts2) :=
            match ts !! room with
            | Some t =>
                let '(cur, t1) := Clock.get_current_times now t in
                (set_game
                   (stamp_last (Clock.t_white cur, Clock.t_black cur) (game gd1))
                   gd1,
                 <[room := t1]> ts)
            | None => (gd1, ts)
            end in
          let '(gd3, ts3, tr3) :=
            if mill_formed && waiting then
              (set_game (Board.with_player player_color (game gd2))
                 (set_waiting (Some true) gd2), ts2, [])
            else
              switch_player_timer now room (Board.current_player (game gd2))
                (set_waiting None gd2) ts2 in
          let '(featured, ts_f) :=
            get_featured_game now view (<[room := gd3]> (games w)) ts3 in
          let tr_f :=
            if bool_decide (featured = Some room)
            then [Emit "featured_game_update"] else [] in
          let '(gd4, ts4, tr4) := check_game_over now room gd3 ts_f in
          {| after := write_back room gd4 ts4 w;
             trace := tr ++ tr3 ++ [Emit "move_made"] ++ tr_f
                      ++ tournament_broadcast gd3 ++ tr4;
             raised := None |}
      end
  end.

(** [username] is [session.get('username')]. *)
Definition on_make_move (view : lobby_view) (now : Q)
  (username : option string) (data : request) (w : world) : reply :=
  let room := room_id data in
  let silent := {| after := w; trace := []; raised := None |} in
  match games w !! room with
  | None => silent
  | Some gd =>
      if negb (bool_decide (username = Some (gd_white gd))
               || bool_decide (username = Some (gd_black gd)))
      then silent
      else if bool_decide (status gd = canceled) || bool_decide (status gd = finished)
      then {| after := w; trace := [Emit "game_canceled"]; raised := None |}
      else
        let player_color :=
          if bool_decide (username = Some (gd_white gd)) then white else black in
        let waiting := bool_decide (waiting_for_removal gd = Some true) in
        if bool_decide (Board.current_player (game gd) ≠ player_color)
           && negb waiting
        then silent
        else
          let '(gd1, ts1, tr1) :=
            first_move_step now room player_color gd (game_timers w) in
          match waiting, remove_pos data with
          | true, Some r => remove_after_mill now room player_color r gd1 ts1 tr1 w
          | _, _ => normal_move view now room player_color data gd1 ts1 tr1 w
          end
  end.

(** A game between ann (white) and ben (black) with three pieces placed,
    black to place, and the registries holding it under "room1". *)
Definition sample_game (s : status_t) : game_data :=
  {| gd_white := "ann"; gd_black := "ben"; status := s;
     game :=
       {| Board.board :=
            Board.put_all [(0, white); (3, black); (9, white)]%nat
              (replicate 24 None);
          Board.phase := Board.placing; Board.current_player := black;
          Board.white_pieces := 7; Board.black_pieces := 8;
          Board.total_pieces_placed := 3; Board.moves := [] |};
     waiting_for_removal := None;
     white_first_move_made := true; black_first_move_made := true;
     waiting_for_first_move := None; first_move_deadline := None;
     timer_started := true;
     winner := match s with finished => Some WhiteWins | _ => None end;
     end_reason := None; end_time := None; positions := []; timers := (180, 180);
     tournament_id := None; tournament_points_disabled := false;
     berserk := (false, false) |}.

Definition sample_world (s : status_t) : world :=
  {| games := {["room1"%string := sample_game s]};
     game_timers := ∅ |}.

Definition sample_request : request :=
  {| room_id := "room1"; from_pos := None; to_pos := Some 4; remove_pos := None |}.

(** The lobby sees the rooms in the order room1, room2; the players of
    room2 are rated higher. *)
Definition sample_view : lobby_view :=
  {| room_order := ["room1"; "room2"]%string;
     combined_elo := λ r, if bool_decide (r = "room2"%string) then 3100 else 3000 |}.

End Session.

(** ** Tournaments: roster, pairing round and scoring *)

Module Tournament.

Inductive t_status : Type := scheduled | active | finished.

#[global] Instance t_status_eq_dec : EqDecision t_status.
Proof. solve_decision. Defined.

Inductive series_type : Type := series_win | series_loss | series_draw.

(** An entry of a participant's [series] list. *)
Record series_entry : Type := mkSeries {
  se_points : Z;
  se_type : series_type;
  se_streak : bool;
  se_berserk : bool
}.

(** An entry of a participant's [wins], [losses] or [draws] list; a loss
    has no [points] and no [streak]. *)
Record result_entry : Type := mkResult {
  re_opponent : string;
  re_opponent_rating : Z;
  re_berserk : bool;
  re_points : option Z;
  re_streak : option Z;
  re_color : color
}.

(** A value of [tournament['players']]; [series] may be missing. *)
Record participant : Type := mkParticipant {
  score : Z;
  games_played : Z;
  rating : Z;
  wins : list result_entry;
  losses : list result_entry;
  draws : list result_entry;
  series : option (list series_entry)
}.

(** [players] is the dict [tournament['players']] in insertion order;
    the key [streaks] may be missing. *)
Record tournament : Type := mkTournament {
  status : t_status;
  players : list (string * participant);
  streaks : option (gmap string Z)
}.

(** [d.get(k)] and the in-place update of [d[k]] on an ordered dict. *)
Fixpoint dict_get {V : Type} (k : string) (d : list (string * V)) : option V :=
  match d with
  | [] => None
  | (k', v) :: rest => if bool_decide (k' = k) then Some v else dict_get k rest
  end.

Fixpoint dict_alter {V : Type} (f : V -> V) (k : string) (d : list (string * V))
  : list (string * V) :=
  match d with
  | [] => []
  | (k', v) :: rest =>
      if bool_decide (k' = k) then (k', f v) :: rest
      else (k', v) :: dict_alter f k rest
  end.

Definition dict_has {V : Type} (k : string) (d : list (string * V)) : bool :=
  bool_decide (is_Some (dict_get k d)).

End Tournament.

(** ** Pairing engine: [lichess_style_pairing] *)

Module Pairing.

Import Tournament.

(** The module-level registries the pairing round reads. *)
Record registry : Type := mkRegistry {
  tournaments : gmap string tournament;
  paused_users : gset string;
  players_in_game_menu : gset string;
  games : gmap string Session.game_data;
  tournament_recent_opponents : gmap string (gmap string string)
}.

Definition get_last_opponent (st : registry) (tournament_id username : string)
  : option string :=
  match tournament_recent_opponents st !! tournament_id with
  | None => None
  | Some m => m !! username
  end.

Definition set_last_opponent (tournament_id player1 player2 : string)
  (st : registry) : registry :=
  let m := default ∅ (tournament_recent_opponents st !! tournament_id) in
  {| tournaments := tournaments st;
     paused_users := paused_users st;
     players_in_game_menu := players_in_game_menu st;
     games := games st;
     tournament_recent_opponents :=
       <[tournament_id := <[player2 := player1]> (<[player1 := player2]> m)]>
         (tournament_recent_opponents st) |}.

Definition is_player_in_game (st : registry) (username : string) : bool :=
  existsb
    (λ kv : string * Session.game_data,
       (bool_decide (username = Session.gd_white kv.2)
        || bool_decide (username = Session.gd_black kv.2))
       && bool_decide (Session.status kv.2 ≠ Session.finished))
    (map_to_list (games st)).

(** An element of [available_players]. *)
Record entry : Type := mkEntry {
  username : string;
  e_score : Z;
  e_rating : Z
}.

Definition is_available (st : registry) (player_name : string) : bool :=
  bool_decide (player_name ∉ paused_users st)
  && bool_decide (player_name ∉ players_in_game_menu st)
  && negb (is_player_in_game st player_name).

Fixpoint available_players (st : registry) (ps : list (string * participant))
  : list entry :=
  match ps with
  | [] => []
  | (player_name, player_data) :: rest =>
      if is_available st player_name
      then {| username := player_name; e_score := score player_data;
              e_rating := rating player_data |} :: available_players st rest
      else available_players st rest
  end.

(** The order of the sort keys [(score, rating)]: tuples compare
    lexicographically. *)
Definition key_lt (a b : entry) : bool :=
  (e_score a <? e_score b)
  || ((e_score a =? e_score b) && (e_rating a <? e_rating b)).

(** [a] does not sort after [b]: the key of [a] is at least that of [b]. *)
Definition key_ge (a b : entry) : Prop := key_lt a b = false.

(** [list.sort(key=..., reverse=True)]: descending and stable, elements
    with equal keys keep their order. *)
Fixpoint insert_desc (x : entry) (l : list entry) : list entry :=
  match l with
  | [] => [x]
  | y :: rest => if key_lt x y then y :: insert_desc x rest else x :: l
  end.

Fixpoint sort_desc (l : list entry) : list entry :=
  match l with
  | [] => []
  | x :: rest => insert_desc x (sort_desc rest)
  end.

(** The inner loop [for j in range(i + 1, len(available_players))]: the
    result is [best_opponent]. *)
Fixpoint find_opponent (st : registry) (tournament_id : string)
  (paired : gset string) (player : entry) (last_opponent : option string)
  (candidates : list entry) : option entry :=
  match candidates with
  | [] => None
  | candidate :: rest =>
      if bool_decide (username candidate ∈ paired)
      then find_opponent st tournament_id paired player last_opponent rest
      else if bool_decide (Some (username candidate) = last_opponent)
      then find_opponent st tournament_id paired player last_opponent rest
      else if bool_decide (Some (username player)
                           = get_last_opponent st tournament_id (username candidate))
      then find_opponent st tournament_id paired player last_opponent rest
      else Some candidate
  end.

(** The outer loop [for i, player in enumerate(available_players)]. *)
Fixpoint pair_players (st : registry) (tournament_id : string)
  (paired : gset string) (players : list entry) : list (string * string) :=
  match players with
  | [] => []
  | player :: rest =>
      if bool_decide (username player ∈ paired)
      then pair_players st tournament_id paired rest
      else
        let last_opponent := get_last_opponent st tournament_id (username player) in
        match find_opponent st tournament_id paired player last_opponent rest with
        | Some best_opponent =>
            (username player, username best_opponent)
            :: pair_players st tournament_id
                 ({[username best_opponent]} ∪ ({[username player]} ∪ paired)) rest
        | None => pair_players st tournament_id paired rest
        end
  end.

Definition lichess_style_pairing (st : registry) (tournament_id : string)
  : list (string * string) :=
  match tournaments st !! tournament_id with
  | None => []
  | Some t =>
      if bool_decide (status t ≠ active) then []
      else
        pair_players st tournament_id ∅
          (sort_desc (available_players st (players t)))
  end.

(** *** The round as the specification words it

    "Walk the sorted list; for each unpaired player, scan forward for the
    first unpaired candidate that is not their recorded last opponent
    and for whom they are not recorded as that candidate's last
    opponent."  "If no eligible opponent exists for a player in this
    pass, that player is left unpaired." *)

Definition may_meet (st : registry) (tournament_id : string) (a b : string)
  : Prop :=
  get_last_opponent st tournament_id a ≠ Some b
  ∧ get_last_opponent st tournament_id b ≠ Some a.

#[global] Instance may_meet_dec st tid a b : Decision (may_meet st tid a b).
Proof. unfold may_meet. apply _. Defined.

Fixpoint spec_round (st : registry) (tournament_id : string)
  (paired : gset string) (walk : list entry) : list (string * string) :=
  match walk with
  | [] => []
  | player :: later =>
      if bool_decide (username player ∈ paired)
      then spec_round st tournament_id paired later
      else
        match
          list_find
            (λ c, (username c ∉ paired)
                  ∧ may_meet st tournament_id (username player) (username c))
            later
        with
        | Some (_, c) =>
            (username player, username c)
            :: spec_round st tournament_id
                 ({[username c]} ∪ ({[username player]} ∪ paired)) later
        | None => spec_round st tournament_id paired later
        end
  end.

(** The four participants of the example: scores 10, 10, 8 and 8, no
    recorded last opponents, nobody paused or in a game. *)
Definition fresh (s : Z) : participant :=
  {| score := s; games_played := 0; rating := 100; wins := []; losses := [];
     draws := []; series := Some [] |}.

Definition arena : tournament :=
  {| status := active;
     players := [("player3", fresh 8); ("player1", fresh 10);
                 ("player4", fresh 8); ("player2", fresh 10)]%string;
     streaks := None |}.

Definition example_registry : registry :=
  {| tournaments := {["arena"%string := arena]};
     paused_users := ∅;
     players_in_game_menu := ∅;
     games := ∅;
     tournament_recent_opponents := ∅ |}.

End Pairing.

(** ** Tournament scoring: [update_tournament_scores] *)

Module Scoring.

Import Tournament.

Definition add_game (p : participant) : participant :=
  {| score := score p; games_played := games_played p + 1; rating := rating p;
     wins := wins p; losses := losses p; draws := draws p; series := series p |}.

(** "Ensure series tracking exists". *)
Definition ensure_series (p : participant) : participant :=
  {| score := score p; games_played := games_played p; rating := rating p;
     wins := wins p; losses := losses p; draws := draws p;
     series := Some (default [] (series p)) |}.

Definition push_series (e : series_entry) (s : option (list series_entry))
  : option (list series_entry) :=
  Some (default [] s ++ [e]).

Definition add_win (points : Z) (e : result_entry) (s : series_entry)
  (p : participant) : participant :=
  {| score := score p + points; games_played := games_played p;
     rating := rating p; wins := wins p ++ [e]; losses := losses p;
     draws := draws p; series := push_series s (series p) |}.

Definition add_loss (e : result_entry) (s : series_entry) (p : participant)
  : participant :=
  {| score := score p; games_played := games_played p; rating := rating p;
     wins := wins p; losses := losses p ++ [e]; draws := draws p;
     series := push_series s (series p) |}.

Definition add_draw (points : Z) (e : result_entry) (s : series_entry)
  (p : participant) : participant :=
  {| score := score p + points; games_played := games_played p;
     rating := rating p; wins := wins p; losses := losses p;
     draws := draws p ++ [e]; series := push_series s (series p) |}.

(** The tournament during the update: the roster and the streak table. *)
Definition tstate : Type := list (string * participant) * gmap string Z.

(** "Calculate points: base 2, +1 for berserk, +2 for streak". *)
Definition win_points (berserk has_streak : bool) : Z :=
  if berserk && has_streak then 5
  else if has_streak then 4
  else if berserk then 3
  else 2.

(** The winner's branch: [me] won against [opp] with the colour [c]. *)
Definition record_win (me opp : string) (c : color) (my_streak : Z)
  (my_berserk : bool) (opp_rating : Z) (ts : tstate) : tstate :=
  let '(ps, st) := ts in
  if dict_has me ps then
    let st1 := <[me := my_streak + 1]> st in
    let new_streak := default 0 (st1 !! me) in
    let has_streak := 3 <=? new_streak in
    let points := win_points my_berserk has_streak in
    (dict_alter
       (add_win points
          {| re_opponent := opp; re_opponent_rating := opp_rating;
             re_berserk := my_berserk; re_points := Some points;
             re_streak := Some new_streak; re_color := c |}
          {| se_points := points; se_type := series_win;
             se_streak := has_streak; se_berserk := my_berserk |})
       me ps,
     st1)
  else ts.

(** The loser's branch: "reset streak". *)
Definition record_loss (me opp : string) (c : color) (my_berserk : bool)
  (opp_rating : Z) (ts : tstate) : tstate :=
  let '(ps, st) := ts in
  if dict_has me ps then
    (dict_alter
       (add_loss
          {| re_opponent := opp; re_opponent_rating := opp_rating;
             re_berserk := my_berserk; re_points := None;
             re_streak := None; re_color := c |}
          {| se_points := 0; se_type := series_loss;
             se_streak := false; se_berserk := my_berserk |})
       me ps,
     <[me := 0]> st)
  else ts.

(** One side of a draw: points by the streak before the game, then the
    streak is reset. *)
Definition record_draw (me opp : string) (c : color) (my_streak : Z)
  (my_berserk : bool) (opp_rating : Z) (ts : tstate) : tstate :=
  let '(ps, st) := ts in
  if dict_has me ps then
    let has_streak := 3 <=? my_streak in
    let points := if has_streak then 2 else 1 in
    (dict_alter
       (add_draw points
          {| re_opponent := opp; re_opponent_rating := opp_rating;
             re_berserk := my_berserk; re_points := Some points;
             re_streak := Some my_streak; re_color := c |}
          {| se_points := points; se_type := series_draw;
             se_streak := has_streak; se_berserk := my_berserk |})
       me ps,
     <[me := 0]> st)
  else ts.

(** [if name not in tournament['streaks']: tournament['streaks'][name] = 0] *)
Definition ensure_streak (name : string) (st : gmap string Z) : gmap string Z :=
  match st !! name with
  | Some _ => st
  | None => <[name := 0]> st
  end.

(** The bookkeeping before the result is looked at: the streak entries
    and the [series] lists exist, [games_played] is counted. *)
Definition prepare (white_player black_player : string) (t : tournament)
  : tstate :=
  let st0 :=
    ensure_streak black_player
      (ensure_streak white_player (default ∅ (streaks t))) in
  let ps0 :=
    dict_alter add_game black_player
      (dict_alter add_game white_player (players t)) in
  (dict_alter ensure_series black_player
     (dict_alter ensure_series white_player ps0),
   st0).

(** The three branches on [winner]. *)
Definition settle (game_data : Session.game_data) (winner : outcome)
  (white_rating_at_game black_rating_at_game : Z) (ts : tstate) : tstate :=
  let white_player := Session.gd_white game_data in
  let black_player := Session.gd_black game_data in
  let white_streak := default 0 (ts.2 !! white_player) in
  let black_streak := default 0 (ts.2 !! black_player) in
  let white_berserk := (Session.berserk game_data).1 in
  let black_berserk := (Session.berserk game_data).2 in
  match winner with
  | WhiteWins =>
      record_loss black_player white_player black black_berserk
        white_rating_at_game
        (record_win white_player black_player white white_streak
           white_berserk black_rating_at_game ts)
  | BlackWins =>
      record_loss white_player black_player white white_berserk
        black_rating_at_game
        (record_win black_player white_player black black_streak
           black_berserk white_rating_at_game ts)
  | DrawGame =>
      record_draw black_player white_player black black_streak
        black_berserk white_rating_at_game
        (record_draw white_player black_player white white_streak
           white_berserk black_rating_at_game ts)
  end.

(** [white_rating_at_game] and [black_rating_at_game] are the ratings the
    function reads from [users]. *)
Definition update_tournament_scores (game_data : Session.game_data)
  (winner : outcome) (white_rating_at_game black_rating_at_game : Z)
  (tournaments : gmap string tournament) : gmap string tournament :=
  match Session.tournament_id game_data with
  | None => tournaments
  | Some tournament_id =>
      if bool_decide (tournament_id = ""%string) then tournaments else
      match tournaments !! tournament_id with
      | None => tournaments
      | Some t =>
          if Session.tournament_points_disabled game_data then tournaments else
          let '(ps, st) :=
            settle game_data winner white_rating_at_game black_rating_at_game
              (prepare (Session.gd_white game_data)
                 (Session.gd_black game_data) t) in
          <[tournament_id :=
              {| status := status t; players := ps; streaks := Some st |}]>
            tournaments
      end
  end.

(** A participant's score and streak in the table of tournaments. *)
Definition score_of (tournaments : gmap string tournament)
  (tournament_id name : string) : option Z :=
  t ← tournaments !! tournament_id;
  p ← dict_get name (players t);
  Some (score p).

Definition streak_of (tournaments : gmap string tournament)
  (tournament_id name : string) : Z :=
  default 0 (t ← tournaments !! tournament_id; st ← streaks t; st !! name).

(** The same two readings during the update. *)
Definition ts_score (ts : tstate) (name : string) : option Z :=
  score <$> dict_get name ts.1.

Definition ts_streak (ts : tstate) (name : string) : Z :=
  default 0 (ts.2 !! name).

(** The player and the berserk flag of a colour in a game. *)
Definition side_name (game_data : Session.game_data) (c : color) : string :=
  match c with
  | white => Session.gd_white game_data
  | black => Session.gd_black game_data
  end.

Definition side_berserk (game_data : Session.game_data) (c : color) : bool :=
  match c with
  | white => (Session.berserk game_data).1
  | black => (Session.berserk game_data).2
  end.

Definition won_by (c : color) : outcome :=
  match c with white => WhiteWins | black => BlackWins end.

(** A tournament game between alice (white) and bob (black); alice has
    won her last three games and plays berserk. *)
Definition streak_game : Session.game_data :=
  {| Session.gd_white := "alice"; Session.gd_black := "bob";
     Session.status := Session.finished; Session.game := Board.new_game;
     Session.waiting_for_removal := None;
     Session.white_first_move_made := true;
     Session.black_first_move_made := true;
     Session.waiting_for_first_move := None;
     Session.first_move_deadline := None;
     Session.timer_started := true; Session.winner := Some WhiteWins;
     Session.end_reason := Some "normal"%string; Session.end_time := None;
     Session.positions := []; Session.timers := (31, 40);
     Session.tournament_id := Some "hourly"%string;
     Session.tournament_points_disabled := false;
     Session.berserk := (true, false) |}.

Definition seat (s : Z) : participant :=
  {| score := s; games_played := 3; rating := 100; wins := []; losses := [];
     draws := []; series := Some [] |}.

Definition streak_tournaments : gmap string tournament :=
  {["hourly"%string :=
      {| status := active;
         players := [("alice", seat 8); ("bob", seat 4)]%string;
         streaks := Some {["alice"%string := 3; "bob"%string := 1]} |}]}.

End Scoring.

(** ** Reasoning about method runs *)

Module BoardLogic.

Import Board.

(** The run of the method [m] on the object [g] ends in a result and an
    object that satisfy [Q]. *)
Definition ensures {A : Type} (m : M A) (g : game)
  (Q : res A -> game -> Prop) : Prop :=
  Q (m g).1 (m g).2.

(** What a run hands to the rest of the method: on a value the rest runs,
    an exception ends the method. *)
Definition and_then {A B : Type} (k : A -> M B) (Q : res B -> game -> Prop)
  : res A -> game -> Prop :=
  fun r g =>
    match r with
    | Ok a => ensures (k a) g Q
    | Raise e => Q (Raise e) g
    end.

(** What the rules ask of a relocation of the mover's piece from
    [from_pos] to [to_pos]: the piece is the mover's, the target is
    free, and the target is a neighbour unless the mover has exactly
    three pieces on the board. *)
Definition legal_relocation (g : game) (from_pos : option Z) (to_pos : Z)
  : Prop :=
  exists i,
    from_pos = Some i
    /\ getitem (board g) i = Ok (Some (current_player g))
    /\ getitem (board g) to_pos = Ok None
    /\ (count_pieces (current_player g) (board g) = 3
        \/ exists adj, adjacents i = Some adj /\ to_pos ∈ adj).


(** What a carried-out first part of [make_move] has done to the board:
    the mover's piece stands on [to_pos], and after the placing phase
    the point it came from is empty. *)
Definition piece_put (g : game) (from_pos : option Z) (to_pos : Z)
  (g1 : game) : Prop :=
  getitem (board g1) to_pos = Ok (Some (current_player g))
  /\ (phase g <> placing ->
      exists i, from_pos = Some i /\ getitem (board g1) i = Ok None).

(** The number [self.phase] holds. *)
Definition phase_number (p : phase_t) : Z :=
  match p with placing => 1 | moving => 2 | flying => 3 end.

(** How the counters of [g'] relate to those of an earlier state [g] of
    the same game: the phase has not gone back, no hand has grown, what
    left a hand was counted as placed, and the hands are only touched
    in the placing phase. *)
Definition advances (g g' : game) : Prop :=
  phase_number (phase g) <= phase_number (phase g')
  /\ white_pieces g' <= white_pieces g
  /\ black_pieces g' <= black_pieces g
  /\ white_pieces g' + black_pieces g' + total_pieces_placed g'
     = white_pieces g + black_pieces g + total_pieces_placed g
  /\ (phase g <> placing ->
      white_pieces g' = white_pieces g /\ black_pieces g' = black_pieces g
      /\ total_pieces_placed g' = total_pieces_placed g).

(** Three white pieces against four black ones in the flying phase,
    white to move. *)
Definition white_flies : game :=
  {| board := put_all [(0, white); (4, white); (23, white); (1, black);
                       (9, black); (12, black); (20, black)]%nat
                (replicate 24 None);
     phase := flying; current_player := white;
     white_pieces := 0; black_pieces := 0; total_pieces_placed := 18;
     moves := [] |}.

(** Four pieces each in the moving phase, black to move. *)
Definition four_each : game :=
  {| board := put_all [(0, white); (4, white); (23, white); (16, white);
                       (1, black); (9, black); (12, black); (20, black)]%nat
                (replicate 24 None);
     phase := moving; current_player := black;
     white_pieces := 0; black_pieces := 0; total_pieces_placed := 18;
     moves := [] |}.

End BoardLogic.

(** ** Sanity of a clock *)

Module ClockLogic.

Import Clock.

(** No side owes time and the increment is not negative. *)
Definition sound (t : timer) : Prop :=
  (0 <= white_time t)%Q /\ (0 <= black_time t)%Q /\ 0 <= increment t.

End ClockLogic.

(** ** Reading the result of a rating update *)

Module RatingLogic.

Import Rating.

(** The three counters of a player as a triple, and the triple a game
    adds to them from the point of view of one colour. *)
Definition tally (p : player) : Z * Z * Z := (wins p, losses p, draws p).

Definition tally_of (winner : outcome) (c : color) : Z * Z * Z :=
  match winner, c with
  | WhiteWins, white | BlackWins, black => (1, 0, 0)
  | WhiteWins, black | BlackWins, white => (0, 1, 0)
  | DrawGame, _ => (0, 0, 1)
  end.

Definition add3 (a b : Z * Z * Z) : Z * Z * Z :=
  (a.1.1 + b.1.1, a.1.2 + b.1.2, a.2 + b.2).

(** The 400-gap rule applies: a decisive game won by the side rated
    higher by at least 400. *)
Definition farming (white_rating black_rating : Z) (winner : outcome) : Prop :=
  400 <= Z.abs (white_rating - black_rating)
  /\ match winner with
     | WhiteWins => black_rating < white_rating
     | BlackWins => white_rating < black_rating
     | DrawGame => False
     end.

(** A [pow] that always overflows. *)
Definition failing_pow (x y : PrimFloat.float) : res PrimFloat.float :=
  Raise OverflowError.

End RatingLogic.

(** ** Reading the result of a pairing round *)

Module PairingLogic.

Import Tournament Pairing.

(** The players of a list of pairings, in order. *)
Definition paired_names (pairings : list (string * string)) : list string :=
  pairings ≫= (λ ab, [ab.1; ab.2]).

(** Five participants; ann and ben have just played each other, eve is
    paused. *)
Definition club : tournament :=
  {| status := active;
     players := [("ann", fresh 10); ("ben", fresh 10); ("cat", fresh 8);
                 ("dan", fresh 8); ("eve", fresh 12)]%string;
     streaks := None |}.

(** Two participants who have just played each other. *)
Definition duo_registry : registry :=
  set_last_opponent "duo" "ann" "ben"
    {| tournaments :=
         {["duo"%string :=
             {| status := active;
                players := [("ann", fresh 10); ("ben", fresh 9)]%string;
                streaks := None |}]};
       paused_users := ∅;
       players_in_game_menu := ∅;
       games := ∅;
       tournament_recent_opponents := ∅ |}.

Definition club_registry : registry :=
  set_last_opponent "club" "ann" "ben"
    {| tournaments := {["club"%string := club]};
       paused_users := {["eve"%string]};
       players_in_game_menu := ∅;
       games := ∅;
       tournament_recent_opponents := ∅ |}.

End PairingLogic.

(** ** Reading the table of tournaments *)

Module ScoringLogic.

Import Tournament Scoring.

(** [tournaments[tournament_id]['players'][name]], when both keys exist. *)
Definition row_of (tournaments : gmap string tournament)
  (tournament_id name : string) : option participant :=
  t ← tournaments !! tournament_id; dict_get name (players t).

(** The names of a tournament's participants, in the order of the dict. *)
Definition roster (tournaments : gmap string tournament)
  (tournament_id : string) : option (list string) :=
  (λ t, (players t).*1) <$> tournaments !! tournament_id.

(** What a game that ended with [winner] is for the player of [c]. *)
Definition result_for (c : color) (winner : outcome) : series_type :=
  match winner, c with
  | DrawGame, _ => series_draw
  | WhiteWins, white | BlackWins, black => series_win
  | WhiteWins, black | BlackWins, white => series_loss
  end.

(** The list of a participant that holds the results of one type. *)
Definition results_of (ty : series_type) (p : participant) : list result_entry :=
  match ty with
  | series_win => wins p
  | series_loss => losses p
  | series_draw => draws p
  end.

(** What a step of the update keeps for a name: the row, the streak and
    the names of the roster. *)
Definition same_for (n : string) (ts ts' : tstate) : Prop :=
  dict_get n ts'.1 = dict_get n ts.1
  /\ ts_streak ts' n = ts_streak ts n
  /\ ts'.1.*1 = ts.1.*1.

(** A tournament in which carol and dave watch the game of
    [streak_game]; a second tournament runs beside it. *)
Definition crowded_tournaments : gmap string tournament :=
  {["hourly"%string :=
      {| status := active;
         players := [("carol", seat 6); ("alice", seat 8); ("bob", seat 4);
                     ("dave", seat 2)]%string;
         streaks := Some {["alice"%string := 3; "carol"%string := 2]} |};
    "daily"%string :=
      {| status := active;
         players := [("alice", seat 1); ("bob", seat 1)]%string;
         streaks := None |}]}.

End ScoringLogic.

(** ** Reading a session *)

Module SessionLogic.

Import Session.

(** Who plays the game and for which tournament. *)
Definition seats (gd : game_data)
  : string * string * option string * (bool * bool) * bool :=
  (gd_white gd, gd_black gd, tournament_id gd, berserk gd,
   tournament_points_disabled gd).

(** A clock of the registry [ts'] is the one of [ts], or the one of
    [ts] after it was read at [now]. *)
Definition at_most_read (now : Q) (ts ts' : timer_map) (r : string) : Prop :=
  ts' !! r = ts !! r
  \/ exists t, ts !! r = Some t
               /\ ts' !! r = Some (Clock.get_current_times now t).2.

(** The calls and the notice that end a game on the board. *)
Definition closing_calls (room : string) (w : outcome) : list event :=
  [UpdateRatings room w; Emit "game_over";
   UpdateTournamentScores room w; RequeueTournamentPlayers room].

(** What a part of the handler keeps of the session and of the clocks:
    the seats and the clocks of the other rooms. *)
Definition keeps (room : string) (gd : game_data) (ts : timer_map)
  (out : game_data * timer_map * list event) : Prop :=
  seats out.1.1 = seats gd
  /\ forall r, r <> room -> out.1.2 !! r = ts !! r.

(** What holds of a session that a handler has finished. *)
Definition closed_by (now : Q) (room : string) (gd' : game_data)
  (ts' : timer_map) (tr : list event) : Prop :=
  exists wnr : outcome,
    winner gd' = Some wnr
    /\ Board.get_winner (game gd') = Some wnr
    /\ end_reason gd' = Some "normal"%string
    /\ end_time gd' = Some now
    /\ ts' !! room = None
    /\ closing_calls room wnr `suffix_of` tr.

(** ann (white) can close the mill 0-1-2 from 14 and take one of ben's
    last three pieces; the clock of the room runs. *)
Definition closing_game : game_data :=
  {| gd_white := "ann"; gd_black := "ben"; status := playing;
     game :=
       {| Board.board :=
            Board.put_all [(0, white); (1, white); (14, white); (22, white);
                           (5, black); (10, black); (19, black)]%nat
              (replicate 24 None);
          Board.phase := Board.flying; Board.current_player := white;
          Board.white_pieces := 0; Board.black_pieces := 0;
          Board.total_pieces_placed := 18; Board.moves := [] |};
     waiting_for_removal := None;
     white_first_move_made := true; black_first_move_made := true;
     waiting_for_first_move := None; first_move_deadline := None;
     timer_started := true; winner := None;
     end_reason := None; end_time := None; positions := []; timers := (90, 80);
     tournament_id := None; tournament_points_disabled := false;
     berserk := (false, false) |}.

Definition closing_world : world :=
  {| games := {["room1"%string := closing_game;
                "room2"%string := sample_game playing]};
     game_timers := {["room1"%string := Clock.new_timer 90 80 2 0;
                      "room2"%string := Clock.new_timer 180 180 0 0]} |}.

Definition closing_request : request :=
  {| room_id := "room1"; from_pos := Some 14; to_pos := Some 2;
     remove_pos := Some 5 |}.

End SessionLogic.

(** ** Matching one player: [match_tournament_players] *)

Module Matching.

Import Tournament Pairing.

(** "Find available opponents (not paused, not in game, not in game
    menu)": the participants other than the player, in the order of the
    dict. *)
Fixpoint available_opponents (st : registry) (name : string)
  (ps : list (string * participant)) : list entry :=
  match ps with
  | [] => []
  | (player_name, player_data) :: rest =>
      if bool_decide (player_name ≠ name) && is_available st player_name
      then {| username := player_name; e_score := score player_data;
              e_rating := rating player_data |}
           :: available_opponents st name rest
      else available_opponents st name rest
  end.

(** The sort key [abs(x['score'] - current_score)]. *)
Definition distance (current_score : Z) (x : entry) : Z :=
  Z.abs (e_score x - current_score).

(** [list.sort(key=...)]: ascending and stable. *)
Fixpoint insert_near (current_score : Z) (x : entry) (l : list entry)
  : list entry :=
  match l with
  | [] => [x]
  | y :: rest =>
      if distance current_score y <? distance current_score x
      then y :: insert_near current_score x rest
      else x :: l
  end.

Fixpoint sort_near (current_score : Z) (l : list entry) : list entry :=
  match l with
  | [] => []
  | x :: rest => insert_near current_score x (sort_near current_score rest)
  end.

(** [x] does not sort after [y]. *)
Definition nearer (current_score : Z) (x y : entry) : Prop :=
  distance current_score x <= distance current_score y.

(** The loop "Find best opponent (closest score, NOT the last
    opponent)"; the result is [best_opponent]. *)
Fixpoint best_opponent (st : registry) (tournament_id name : string)
  (last_opponent : option string) (opponents : list entry) : option string :=
  match opponents with
  | [] => None
  | opponent :: rest =>
      if bool_decide (Some (username opponent) = last_opponent)
      then best_opponent st tournament_id name last_opponent rest
      else if bool_decide
                (get_last_opponent st tournament_id (username opponent)
                 = Some name)
      then best_opponent st tournament_id name last_opponent rest
      else Some (username opponent)
  end.

(** The result is the pair of players [create_tournament_game] is called
    with, [None] when the function returns without the call. *)
Definition match_tournament_players (st : registry)
  (tournament_id name : string) : option (string * string) :=
  match tournaments st !! tournament_id with
  | None => None
  | Some t =>
      if bool_decide (status t ≠ active) then None
      else if negb (is_available st name) then None
      else
        match available_opponents st name (players t) with
        | [] => None
        | opponents =>
            let current_score :=
              default 0 (score <$> dict_get name (players t)) in
            let sorted := sort_near current_score opponents in
            let last_opponent := get_last_opponent st tournament_id name in
            match best_opponent st tournament_id name last_opponent sorted with
            | Some best =>
                if bool_decide (best = ""%string) then None
                else Some (name, best)
            | None => None
            end
        end
  end.

End Matching.

(** ** After a tournament game: [requeue_tournament_players] *)

Module Lobby.

Import Tournament Pairing.

(** The registries of the pairing round together with the ones of the
    automatic pause and the time a player entered the after-game menu. *)
Record lobby : Type := mkLobby {
  reg : registry;
  pending_auto_pause : gset string;
  auto_paused_users : gset string;
  game_menu_timestamps : gmap string Q
}.

Definition with_paused (v : gset string) (st : registry) : registry :=
  {| tournaments := tournaments st; paused_users := v;
     players_in_game_menu := players_in_game_menu st; games := games st;
     tournament_recent_opponents := tournament_recent_opponents st |}.

Definition with_menu (v : gset string) (st : registry) : registry :=
  {| tournaments := tournaments st; paused_users := paused_users st;
     players_in_game_menu := v; games := games st;
     tournament_recent_opponents := tournament_recent_opponents st |}.

(** One round of the loop "Check for pending auto-pause". *)
Definition auto_pause (player : string) (acc : lobby * list Session.event)
  : lobby * list Session.event :=
  let '(lb, tr) := acc in
  if negb (bool_decide (player = ""%string))
     && bool_decide (player ∈ pending_auto_pause lb)
  then
    let pending := pending_auto_pause lb ∖ {[player]} in
    if bool_decide (player ∉ paused_users (reg lb))
    then
      ({| reg := with_paused ({[player]} ∪ paused_users (reg lb)) (reg lb);
          pending_auto_pause := pending;
          auto_paused_users := {[player]} ∪ auto_paused_users lb;
          game_menu_timestamps := game_menu_timestamps lb |},
       tr ++ [Session.Emit "pause_status"; Session.Emit "user_pause_status"])
    else
      ({| reg := reg lb; pending_auto_pause := pending;
          auto_paused_users := auto_paused_users lb;
          game_menu_timestamps := game_menu_timestamps lb |}, tr)
  else acc.

(** "Add both players to game menu": one of the two [if]s; [now] is the
    reading of the clock. *)
Definition to_game_menu (now : Q) (player : string) (t : tournament)
  (lb : lobby) : lobby :=
  if negb (bool_decide (player = ""%string)) && dict_has player (players t)
  then
    {| reg := with_menu ({[player]} ∪ players_in_game_menu (reg lb)) (reg lb);
       pending_auto_pause := pending_auto_pause lb;
       auto_paused_users := auto_paused_users lb;
       game_menu_timestamps := <[player := now]> (game_menu_timestamps lb) |}
  else lb.

(** [now_white] and [now_black] are the two readings of [time.time()]. *)
Definition requeue_tournament_players (now_white now_black : Q)
  (game_data : Session.game_data) (lb : lobby) : lobby * list Session.event :=
  match Session.tournament_id game_data with
  | None => (lb, [])
  | Some tournament_id =>
      if bool_decide (tournament_id = ""%string) then (lb, []) else
      match tournaments (reg lb) !! tournament_id with
      | None => (lb, [])
      | Some t =>
          if bool_decide (status t ≠ active) then (lb, []) else
          let white_player := Session.gd_white game_data in
          let black_player := Session.gd_black game_data in
          let '(lb1, tr1) :=
            auto_pause black_player (auto_pause white_player (lb, [])) in
          let lb2 := to_game_menu now_white white_player t lb1 in
          let lb3 := to_game_menu now_black black_player t lb2 in
          (lb3, tr1 ++ [Session.BroadcastTournamentFeaturedGame tournament_id])
      end
  end.

(** The game of [streak_game] has ended in the tournament "hourly";
    alice left the tournament page while it was played. *)
Definition after_game_lobby : lobby :=
  {| reg :=
       {| tournaments := ScoringLogic.crowded_tournaments;
          paused_users := ∅; players_in_game_menu := ∅;
          games := {["room9"%string := Scoring.streak_game]};
          tournament_recent_opponents := ∅ |};
     pending_auto_pause := {["alice"%string]};
     auto_paused_users := ∅;
     game_menu_timestamps := ∅ |}.

End Lobby.

(** ** Ending a game: [on_resign] and [on_accept_draw] *)

Module Endings.

Import Session.

(** The three assignments [status], [winner] and [end_reason]. *)
Definition set_ended (w : outcome) (reason : string) (gd : game_data)
  : game_data :=
  {| gd_white := gd_white gd; gd_black := gd_black gd; status := finished;
     game := game gd; waiting_for_removal := waiting_for_removal gd;
     white_first_move_made := white_first_move_made gd;
     black_first_move_made := black_first_move_made gd;
     waiting_for_first_move := waiting_for_first_move gd;
     first_move_deadline := first_move_deadline gd;
     timer_started := timer_started gd; winner := Some w;
     end_reason := Some reason; end_time := end_time gd;
     positions := positions gd; timers := timers gd;
     tournament_id := tournament_id gd;
     tournament_points_disabled := tournament_points_disabled gd;
     berserk := berserk gd |}.

(** What both handlers do once the game is to end: the session is
    closed, the clock stopped, the ratings and the tournament table
    updated and the players requeued. *)
Definition end_game (room : string) (w : outcome) (reason : string)
  (gd : game_data) (wd : world) : reply :=
  {| after :=
       {| games := <[room := set_ended w reason gd]> (games wd);
          game_timers := stop_game_timer room (game_timers wd) |};
     trace := [UpdateRatings room w; Emit "game_over";
               UpdateTournamentScores room w; RequeueTournamentPlayers room];
     raised := None |}.

Definition is_player (username : option string) (gd : game_data) : bool :=
  bool_decide (username = Some (gd_white gd))
  || bool_decide (username = Some (gd_black gd)).

(** [room] is [data.get('room_id')]. *)
Definition on_accept_draw (username : option string) (room : option string)
  (wd : world) : reply :=
  let silent := {| after := wd; trace := []; raised := None |} in
  match room with
  | None => silent
  | Some room =>
      match games wd !! room with
      | None => silent
      | Some gd =>
          if negb (is_player username gd) then silent
          else end_game room DrawGame "agreement" gd wd
      end
  end.

Definition on_resign (username : option string) (room : option string)
  (wd : world) : reply :=
  let silent := {| after := wd; trace := []; raised := None |} in
  match room with
  | None => silent
  | Some room =>
      match games wd !! room with
      | None => silent
      | Some gd =>
          if negb (is_player username gd) then silent
          else if bool_decide (status gd = finished)
                  || bool_decide (is_Some (winner gd))
          then silent
          else
            let w :=
              if bool_decide (username = Some (gd_white gd))
              then BlackWins else WhiteWins in
            end_game room w "resignation" gd wd
      end
  end.

End Endings.

(** * Properties *)

(** ** Rating engine *)

Module RatingFacts.

Import Rating.

Lemma k_factor_low_tier rating games :
  rating < 1500 -> calculate_k_factor rating games = 32.
Proof.
  intros H. unfold calculate_k_factor.
  destruct (Z.ltb_spec rating 1500); [reflexivity | lia].
Qed.

Lemma expected_score_equal_100 float_pow :
  float_pow 10%float 0%float = Ok 1%float ->
  expected_score float_pow 100 100 = Ok 0.5%float.
Proof.
  intros Hpow. unfold expected_score.
  change (float_div (float_of_int (100 - 100)) 400) with (Ok 0%float : res float).
  cbn [mbind res_bind]. rewrite Hpow. reflexivity.
Qed.

(** C5. Two players rated 100, white wins a rated game: K is 32 (the
    tier below 1500), the expected score is 0.5, white's new rating is
    floor(100 + K * (1 - 0.5)) = 116 and black's is max(50, 100 - 16) = 84. *)
Theorem elo_both_at_100_white_wins float_pow (wp bp : player) :
  rating wp = 100 -> rating bp = 100 ->
  float_pow 10%float 0%float = Ok 1%float ->
  calculate_k_factor (rating wp) (games_played wp) = 32
  /\ calculate_k_factor (rating bp) (games_played bp) = 32
  /\ expected_score float_pow (rating wp) (rating bp) = Ok 0.5%float
  /\ exists r,
       update_ratings float_pow ranked wp bp WhiteWins = Ok r
       /\ white_rating_change r = 16
       /\ black_rating_change r = -16
       /\ rating (white_player r) = Qfloor (100 + 32 * (1 - (1 # 2)))%Q
       /\ rating (black_player r) = Z.max 50 (100 - 16)
       /\ rating (white_player r) = 116
       /\ rating (black_player r) = 84.
Proof.
  intros Hw Hb Hpow. rewrite Hw, Hb.
  repeat split; try (apply k_factor_low_tier; lia).
  - by apply expected_score_equal_100.
  - unfold update_ratings, base_changes. rewrite Hw, Hb.
    rewrite (expected_score_equal_100 _ Hpow).
    eexists. split; [vm_compute; reflexivity |].
    repeat split.
Qed.

Lemma elo_both_at_100_white_wins_witness :
  exists r,
    update_ratings sample_pow ranked (mkPlayer 100 7 3 4 0) (mkPlayer 100 0 0 0 0)
      WhiteWins = Ok r
    /\ rating (white_player r) = 116 /\ rating (black_player r) = 84.
Proof.
  destruct (elo_both_at_100_white_wins sample_pow
              (mkPlayer 100 7 3 4 0) (mkPlayer 100 0 0 0 0))
    as (_ & _ & _ & r & Hr & _ & _ & _ & _ & Hw & Hb);
    [reflexivity | reflexivity | reflexivity |].
  exists r. repeat split; assumption.
Defined.

Lemma min_change_decisive (c : color) (score : float) (change : Z) :
  1 <= Z.abs (min_change (won_by c) score change).
Proof.
  unfold min_change.
  destruct c; cbn;
    (destruct (Z.ltb_spec (Z.abs change) 1); [destruct (0.5 <? score)%float; cbn; lia | lia]).
Qed.

Lemma base_changes_decisive float_pow (wr br wg bg : Z) (c : color)
  (base : Z * Z) :
  base_changes float_pow wr br wg bg (won_by c) = Ok base ->
  1 <= Z.abs base.1 /\ 1 <= Z.abs base.2.
Proof.
  unfold base_changes. intros H.
  destruct (expected_score float_pow wr br) as [e|]; cbn in H; [|discriminate].
  destruct (scores (won_by c)) as [ws bs].
  repeat match type of H with
         | context [py_round ?x] => destruct (py_round x); cbn in H
         end; try discriminate.
  injection H as <-. cbn. split; apply min_change_decisive.
Qed.

Lemma gap_protection_winner (wr br : Z) (c : color) (base : Z * Z) :
  400 <= Z.abs (wr - br) ->
  match c with white => br < wr | black => wr < br end ->
  gap_protection wr br (won_by c) base =
    match c with white => (0, base.2) | black => (base.1, 0) end.
Proof.
  intros Hgap Hhigh. unfold gap_protection.
  destruct (Z.leb_spec 400 (Z.abs (wr - br))); [|lia].
  destruct c; cbn.
  - destruct (Z.ltb_spec br wr); [reflexivity | lia].
  - destruct (Z.ltb_spec wr br); [reflexivity | lia].
Qed.

(** C6. Anti-farming: in a rated decisive game with a rating gap of at
    least 400 won by the higher-rated side [c], the winner's change is
    exactly 0 although the minimum-change rule had made it at least 1 in
    magnitude, and the loser's change is the one computed without the
    rule. *)
Theorem anti_farming_zeroes_winner float_pow (wp bp : player) (c : color)
  (base : Z * Z) :
  400 <= Z.abs (rating wp - rating bp) ->
  rating_of (other c) wp bp < rating_of c wp bp ->
  base_changes float_pow (rating wp) (rating bp)
    (games_played wp) (games_played bp) (won_by c) = Ok base ->
  1 <= Z.abs (pair_of c base)
  /\ exists r,
       update_ratings float_pow ranked wp bp (won_by c) = Ok r
       /\ change_of c r = 0
       /\ change_of (other c) r = pair_of (other c) base
       /\ rating_of c (white_player r) (black_player r)
          = Z.max 50 (rating_of c wp bp)
       /\ rating_of (other c) (white_player r) (black_player r)
          = Z.max 50 (rating_of (other c) wp bp + pair_of (other c) base).
Proof.
  intros Hgap Hhigh Hbase.
  destruct (base_changes_decisive _ _ _ _ _ _ _ Hbase) as [H1 H2].
  split; [destruct c; assumption |].
  unfold update_ratings. rewrite Hbase. cbn [mbind res_bind].
  rewrite (gap_protection_winner _ _ c base Hgap);
    [| destruct c; exact Hhigh].
  destruct base as [wc bc].
  destruct c; cbn; eexists; (split; [reflexivity |]); cbn;
    rewrite ?Z.add_0_r; repeat split.
Qed.

Lemma anti_farming_zeroes_winner_witness :
  exists r,
    update_ratings sample_pow ranked (mkPlayer 1000 40 20 15 5)
      (mkPlayer 100 3 0 3 0) WhiteWins = Ok r
    /\ white_rating_change r = 0 /\ black_rating_change r = -1.
Proof.
  destruct (anti_farming_zeroes_winner sample_pow (mkPlayer 1000 40 20 15 5)
              (mkPlayer 100 3 0 3 0) white (1, -1))
    as (_ & r & Hr & Hw & Hb & _); [cbn; lia | cbn; lia | reflexivity |].
  exists r. repeat split; assumption.
Defined.

End RatingFacts.

(** ** Clock *)

Module ClockFacts.

Import Clock.

Lemma move_count_deduct e t : move_count (deduct e t) = move_count t.
Proof. unfold deduct. by destruct (active_player t). Qed.

Lemma move_count_read now t :
  move_count (snd (get_current_times now t)) = move_count t.
Proof.
  unfold get_current_times. cbn.
  destruct (state t); cbn; [apply move_count_deduct | done | done].
Qed.

Lemma move_count_switch now c t :
  move_count t <= move_count (snd (switch_player now c t)).
Proof.
  unfold switch_player. destruct (state t); cbn; try lia.
  destruct (_ && _); cbn.
  - destruct (active_player (deduct _ t)); cbn; rewrite move_count_deduct; lia.
  - rewrite move_count_deduct; lia.
Qed.

(** The guard [self.move_count >= 0] holds for every clock the program
    can hold. *)
Lemma reachable_move_count t : reachable t -> 0 <= move_count t.
Proof.
  induction 1 as [w b i now|now c t _ IH|now t _ IH|now t _ IH|now t _ IH
                  |s t _ IH|now t _ IH|now t _ IH|c t _ IH].
  - cbn. lia.
  - pose proof (move_count_switch now c t). lia.
  - by rewrite move_count_read.
  - unfold pause. destruct (state t) eqn:E; [|done|done].
    unfold get_current_times. rewrite E. cbn -[deduct].
    by rewrite move_count_deduct.
  - unfold resume. by destruct (state t).
  - exact IH.
  - exact IH.
  - exact IH.
  - by destruct c.
Qed.

Lemma active_deduct e t : active_player (deduct e t) = active_player t.
Proof. unfold deduct. by destruct (active_player t) eqn:E. Qed.

Lemma time_of_set_same c v t : time_of c (set_time c v t) = v.
Proof. by destruct c. Qed.

Lemma time_of_set_other c v t : time_of (other c) (set_time c v t) = time_of (other c) t.
Proof. by destruct c. Qed.

(** C2, as the claim states it: an increment is credited only after at
    least one processed switch.  It fails on the first switch of a fresh
    3+2 clock, one second after its creation. *)
Lemma first_switch_credits_increment :
  ~ (forall now new_player t,
        reachable t ->
        fst (switch_player now new_player t) = true ->
        0 < increment t /\ 1 <= move_count t).
Proof.
  intros H.
  destruct (H 1%Q black (new_timer 180 180 2 0)) as [_ Hcount].
  - constructor.
  - reflexivity.
  - cbn in Hcount. lia.
Qed.

(** C2, amended. For every clock, [switch_player] credits the increment
    exactly when the clock is running, the increment is positive and
    [move_count] is not negative.  [move_count] is 0 on a new clock and
    is never negative on a clock the program can hold, so the increment
    is credited on the first switch of a game too.  It is credited to
    the side that was active (the side that just moved), after the
    elapsed time has been deducted from it, and the other side's time is
    untouched.  A clock that is not running is left as it is. *)
Theorem increment_credited_from_first_switch now new_player t :
  let mover := active_player t in
  let deducted := Qmax 0 (time_of mover t - (now - last_update t)) in
  let t' := snd (switch_player now new_player t) in
  (fst (switch_player now new_player t) = true
     <-> state t = TIMER_RUNNING /\ 0 < increment t /\ 0 <= move_count t)
  /\ (forall w b i created,
        fst (switch_player now new_player (new_timer w b i created)) = true
        <-> 0 < i)
  /\ (reachable t -> 0 <= move_count t)
  /\ (state t = TIMER_RUNNING -> 0 < increment t -> 0 <= move_count t ->
        time_of mover t' = (deducted + inject_Z (increment t))%Q)
  /\ (state t = TIMER_RUNNING -> increment t <= 0 \/ move_count t < 0 ->
        time_of mover t' = deducted)
  /\ (state t = TIMER_RUNNING ->
        time_of (other mover) t' = time_of (other mover) t
        /\ active_player t' = new_player
        /\ move_count t' = move_count t + 1)
  /\ (state t <> TIMER_RUNNING -> t' = t).
Proof.
  cbn zeta.
  assert (Hnew : forall w b i created,
            fst (switch_player now new_player (new_timer w b i created)) = true
            <-> 0 < i).
  { intros w b i created. unfold switch_player, deduct. cbn.
    destruct (Z.ltb_spec 0 i); cbn; split; try done; lia. }
  split; [| split; [exact Hnew | split; [apply reachable_move_count |]]].
  - unfold switch_player, deduct.
    destruct (state t) eqn:Hstate; cbn [fst snd];
      [| split; [done | intros [? _]; done] ..].
    destruct (Z.ltb_spec 0 (increment t)), (Z.leb_spec 0 (move_count t));
      cbn; split; try done; try lia; intros (_ & ? & ?); lia.
  - unfold switch_player, deduct.
    destruct (state t) eqn:Hstate; cbn [fst snd];
      [| repeat split; try done ..].
    destruct (active_player t) eqn:Ha;
      (destruct (Z.ltb_spec 0 (increment t)) as [Hpos|Hnonpos],
         (Z.leb_spec 0 (move_count t)) as [Hcount|Hcount];
       cbn; rewrite ?Ha; cbn;
       repeat split; try done; try lia; try (intros [?|?]; lia)).
Qed.

Lemma increment_credited_from_first_switch_witness :
  fst (switch_player 1%Q black (new_timer 180 180 2 0)) = true
  /\ white_time (snd (switch_player 1%Q black (new_timer 180 180 2 0)))
     = (Qmax 0 (180 - (1 - 0)) + inject_Z 2)%Q.
Proof.
  destruct (increment_credited_from_first_switch 1%Q black
              (new_timer 180 180 2 0))
    as (Happlied & _ & _ & Hcredit & _).
  split.
  - apply Happlied. split; [reflexivity | cbn; lia].
  - apply Hcredit; [reflexivity | cbn; lia | cbn; lia].
Defined.

Lemma Qmax_0_nonneg x : (0 <= Qmax 0 x)%Q.
Proof. apply Q.le_max_l. Qed.

Lemma read_after_wait (x d : Q) :
  (0 <= d)%Q -> (Qmax 0 (Qmax 0 (x - d)) <= Qmax 0 x)%Q.
Proof.
  intros Hd. apply Q.max_lub; [apply Qmax_0_nonneg |].
  apply Q.max_lub; [apply Qmax_0_nonneg |].
  apply Qle_trans with x; [| apply Q.le_max_r].
  rewrite <- (Qplus_0_r x) at 2. unfold Qminus.
  apply Qplus_le_r. apply (Qopp_le_compat 0 d) in Hd. exact Hd.
Qed.

Lemma state_after_read now t : state (snd (get_current_times now t)) = state t.
Proof.
  unfold get_current_times, deduct. cbn.
  destruct (state t) eqn:Hs; cbn; try done.
  destruct (active_player t); cbn; exact Hs.
Qed.

Lemma active_after_read now t :
  active_player (snd (get_current_times now t)) = active_player t.
Proof.
  unfold get_current_times. cbn.
  destruct (state t); cbn; try done. apply active_deduct.
Qed.

Lemma last_update_after_read now t :
  last_update (snd (get_current_times now t)) = now.
Proof. reflexivity. Qed.

Lemma reading_is_clamped_time now c t :
  remaining c (fst (get_current_times now t))
  = Qmax 0 (time_of c (snd (get_current_times now t))).
Proof. by destruct c. Qed.

Lemma time_after_read_active now t :
  state t = TIMER_RUNNING ->
  time_of (active_player t) (snd (get_current_times now t))
  = Qmax 0 (time_of (active_player t) t - (now - last_update t)).
Proof.
  intros Hs. unfold get_current_times, deduct. rewrite Hs. cbn.
  by destruct (active_player t).
Qed.

Lemma time_after_read_inactive now t :
  time_of (other (active_player t)) (snd (get_current_times now t))
  = time_of (other (active_player t)) t.
Proof.
  unfold get_current_times, deduct. cbn.
  destruct (state t); cbn; try (by destruct (active_player t)).
Qed.

Lemma time_after_read_stopped now c t :
  state t <> TIMER_RUNNING ->
  time_of c (snd (get_current_times now t)) = time_of c t.
Proof.
  intros Hs. unfold get_current_times. cbn.
  destruct (state t); [done | by destruct c | by destruct c].
Qed.

Lemma read_at_same_time (x d : Q) :
  (d == 0)%Q -> (Qmax 0 (Qmax 0 (x - d)) == Qmax 0 x)%Q.
Proof.
  intros Hd. rewrite (Q.max_r 0 (Qmax 0 (x - d))) by apply Qmax_0_nonneg.
  apply Q.max_compat; [reflexivity |]. rewrite Hd. ring.
Qed.

(** C7. Two reads at the wall times [now1 <= now2] with no switch in
    between: the second reading of the active side is not larger than the
    first, and the reading of the inactive side is the same; at the same
    wall time both readings are the same. *)
Theorem read_twice_without_switch (now1 now2 : Q) (t : timer) :
  (now1 <= now2)%Q ->
  let r1 := fst (get_current_times now1 t) in
  let t1 := snd (get_current_times now1 t) in
  let r2 := fst (get_current_times now2 t1) in
  (remaining (active_player t) r2 <= remaining (active_player t) r1)%Q
  /\ remaining (other (active_player t)) r2
     = remaining (other (active_player t)) r1
  /\ active_player t1 = active_player t
  /\ ((now1 == now2)%Q ->
      (remaining (active_player t) r2 == remaining (active_player t) r1)%Q).
Proof.
  intros Hle r1 t1 r2. subst r1 r2.
  assert (Hd : (0 <= now2 - now1)%Q).
  { unfold Qminus. rewrite <- (Qplus_opp_r now1).
    apply Qplus_le_l. exact Hle. }
  pose proof (active_after_read now1 t) as Ha. fold t1 in Ha.
  pose proof (state_after_read now1 t) as Hs. fold t1 in Hs.
  rewrite !reading_is_clamped_time. fold t1.
  split; [| split; [| split; [exact Ha |]]].
  - destruct (decide (state t = TIMER_RUNNING)) as [Hrun|Hstop].
    + rewrite <- Ha at 1. rewrite time_after_read_active by congruence.
      rewrite Ha. change (last_update t1) with now1.
      by apply read_after_wait.
    + rewrite time_after_read_stopped by congruence. apply Qle_refl.
  - rewrite <- Ha at 1. by rewrite time_after_read_inactive, Ha.
  - intros Hsame.
    destruct (decide (state t = TIMER_RUNNING)) as [Hrun|Hstop].
    + rewrite <- Ha at 1. rewrite time_after_read_active by congruence.
      rewrite Ha. change (last_update t1) with now1.
      apply read_at_same_time. rewrite Hsame. apply Qplus_opp_r.
    + rewrite time_after_read_stopped by congruence. reflexivity.
Qed.

Lemma read_twice_without_switch_witness :
  let t := new_timer 180 180 2 0 in
  let r1 := fst (get_current_times 5 t) in
  let r2 := fst (get_current_times (11 # 2) (snd (get_current_times 5 t))) in
  (t_white r2 <= t_white r1)%Q /\ t_black r2 = t_black r1.
Proof.
  destruct (read_twice_without_switch 5 (11 # 2) (new_timer 180 180 2 0))
    as (Hactive & Hinactive & _).
  - vm_compute. discriminate.
  - split; [exact Hactive | exact Hinactive].
Defined.

End ClockFacts.

(** ** Board engine *)

Module BoardFacts.

Import Board.

(** *** Running the method monad *)

Lemma bind_ok {A B : Type} (m : M A) (k : A -> M B) (g g' : game) (a : A) :
  m g = (Ok a, g') -> (m ≫= k) g = k a g'.
Proof. intros H. unfold mbind, M_bind. by rewrite H. Qed.

Lemma bind_raise {A B : Type} (m : M A) (k : A -> M B) (g g' : game) e :
  m g = (Raise e, g') -> (m ≫= k) g = (Raise e, g').
Proof. intros H. unfold mbind, M_bind. by rewrite H. Qed.

(** *** Indexing a 24-point board *)

Lemma py_index_valid {A : Type} (l : list A) (i : Z) :
  length l = 24%nat -> py_valid i ->
  exists k, py_index l i = Ok k /\ (k < 24)%nat
            /\ (0 <= i -> k = Z.to_nat i).
Proof.
  intros Hlen Hi. unfold py_index, py_valid in *. rewrite Hlen.
  destruct (Z.leb_spec 0 i); cbn.
  - destruct (Z.ltb_spec i (Z.of_nat 24)); [|lia].
    exists (Z.to_nat i). repeat split; lia.
  - destruct (Z.leb_spec (- Z.of_nat 24) i); [|lia].
    destruct (Z.ltb_spec i 0); [|lia]. cbn.
    exists (Z.to_nat (Z.of_nat 24 + i)). repeat split; lia.
Qed.

Lemma getitem_valid {A : Type} (l : list A) (i : Z) :
  length l = 24%nat -> py_valid i -> exists a, getitem l i = Ok a.
Proof.
  intros Hlen Hi. destruct (py_index_valid l i Hlen Hi) as (k & Hk & Hlt & _).
  unfold getitem. rewrite Hk. cbn.
  destruct (lookup_lt_is_Some_2 l k) as [a Ha]; [lia |].
  rewrite Ha. by exists a.
Qed.

Lemma getitem_nonneg {A : Type} (l : list A) (i : Z) :
  length l = 24%nat -> 0 <= i < 24 ->
  exists a, l !! Z.to_nat i = Some a /\ getitem l i = Ok a.
Proof.
  intros Hlen Hi.
  destruct (py_index_valid l i Hlen) as (k & Hk & Hlt & Hnat);
    [unfold py_valid; lia |].
  rewrite Hnat in * by lia. unfold getitem. rewrite Hk. cbn.
  destruct (lookup_lt_is_Some_2 l (Z.to_nat i)) as [a Ha]; [lia |].
  rewrite Ha. by exists a.
Qed.

Lemma setitem_nonneg {A : Type} (l : list A) (i : Z) (v : A) :
  length l = 24%nat -> 0 <= i < 24 ->
  setitem l i v = Ok (<[Z.to_nat i := v]> l).
Proof.
  intros Hlen Hi.
  destruct (py_index_valid l i Hlen) as (k & Hk & Hlt & Hnat);
    [unfold py_valid; lia |].
  rewrite Hnat in * by lia. unfold setitem. by rewrite Hk.
Qed.

Lemma setitem_valid {A : Type} (l : list A) (i : Z) (v : A) :
  length l = 24%nat -> py_valid i ->
  exists l', setitem l i v = Ok l' /\ length l' = 24%nat.
Proof.
  intros Hlen Hi. destruct (py_index_valid l i Hlen Hi) as (k & Hk & _).
  unfold setitem. rewrite Hk. cbn. eexists. split; [reflexivity |].
  by rewrite length_insert.
Qed.

(** *** The mill test and the capture test return on every board *)

Lemma mills_in_range : Forall (Forall (λ p, 0 <= p < 24)) mills.
Proof. unfold mills. repeat constructor; lia. Qed.

#[local] Opaque mills.

Lemma all_owned_total (b : list cell) (player : color) (mill : list Z) :
  length b = 24%nat -> Forall (λ p, 0 <= p < 24) mill ->
  exists r, all_owned b player mill = Ok r.
Proof.
  intros Hlen. induction 1 as [|pos rest Hpos _ IH]; cbn.
  - by exists true.
  - destruct (getitem_valid b pos Hlen) as [c Hc]; [unfold py_valid; lia |].
    rewrite Hc. cbn. case_bool_decide; [exact IH | by exists false].
Qed.

Lemma mill_among_total (b : list cell) (player : color) (position : Z)
  (ms : list (list Z)) :
  length b = 24%nat -> Forall (Forall (λ p, 0 <= p < 24)) ms ->
  exists r, mill_among b player position ms = Ok r.
Proof.
  intros Hlen. induction 1 as [|mill rest Hmill _ IH]; cbn.
  - by exists false.
  - case_bool_decide; [| exact IH].
    destruct (all_owned_total b player mill Hlen Hmill) as [[] ->]; cbn;
      [by exists true | exact IH].
Qed.

Lemma is_mill_total (g : game) (position : Z) :
  wf g -> py_valid position -> exists r, is_mill g position = Ok r.
Proof.
  intros Hwf Hpos. unfold is_mill.
  destruct (getitem_valid (board g) position Hwf Hpos) as [c ->].
  cbn [mbind res_bind].
  destruct c as [p|]; [| by exists false].
  apply mill_among_total; [exact Hwf | exact mills_in_range].
Qed.

Lemma can_remove_total (g : game) (position : Z) :
  wf g -> py_valid position -> exists r, can_remove g position = Ok r.
Proof.
  intros Hwf Hpos. unfold can_remove.
  destruct (getitem_valid (board g) position Hwf Hpos) as [c Hc].
  rewrite Hc. cbn. destruct c as [p|]; [| by exists false].
  case_bool_decide; [by exists false |].
  destruct (is_mill_total g position Hwf Hpos) as [m ->]. cbn. by eexists.
Qed.

Lemma positions_of_range (c : color) (b : list cell) (i : Z) :
  Forall (λ p, i <= p < i + Z.of_nat (length b)) (positions_of c b i).
Proof.
  revert i. induction b as [|x rest IH]; intros i; cbn; [constructor |].
  specialize (IH (i + 1)).
  assert (Forall (λ p, i <= p < i + Z.pos (Pos.of_succ_nat (length rest)))
            (positions_of c rest (i + 1))) as Htail.
  { eapply Forall_impl; [exact IH |]. cbn. intros p Hp. lia. }
  case_bool_decide; [constructor; [lia | exact Htail] | exact Htail].
Qed.


Lemma any_removable_total (g : game) (ps : list Z) :
  wf g -> Forall py_valid ps -> exists r, any_removable g ps = Ok r.
Proof.
  intros Hwf. induction 1 as [|pos rest Hpos _ IH]; cbn.
  - by exists false.
  - destruct (can_remove_total g pos Hwf Hpos) as [[] ->]; cbn;
      [by exists true | exact IH].
Qed.


(** *** C10: a mill with an illegal capture request *)

Lemma gets_run {A : Type} (f : game -> A) g : gets f g = (Ok (f g), g).
Proof. reflexivity. Qed.

Lemma modify_run (f : game -> game) g : modify f g = (Ok tt, f g).
Proof. reflexivity. Qed.

Lemma lift_run {A : Type} (f : game -> res A) g : lift f g = (f g, g).
Proof. reflexivity. Qed.

Lemma mret_run {A : Type} (a : A) (g : game) : (mret a : M A) g = (Ok a, g).
Proof. reflexivity. Qed.

Lemma can_remove_any_state mill g r g' :
  can_remove_any mill g = (r, g') -> g' = g.
Proof.
  unfold can_remove_any. destruct mill; [rewrite lift_run | rewrite mret_run];
    by intros [= _ <-].
Qed.

(** What [capture] can do: nothing, or take the piece at a point that
    [can_remove] accepts. *)
Lemma capture_cases mill rm g r g' :
  capture mill rm g = (r, g') ->
  (g' = g /\ r <> Ok true)
  \/ (exists p k, rm = Some p /\ mill = true /\ r = Ok true
                  /\ can_remove g p = Ok true
                  /\ py_index (board g) p = Ok k
                  /\ g' = with_board (<[k := None]> (board g)) g).
Proof.
  unfold capture. destruct mill, rm as [p|]; rewrite ?mret_run;
    try (intros [= <- <-]; left; split; [done | discriminate]).
  unfold mbind, M_bind. rewrite lift_run.
  destruct (can_remove g p) as [[]|e] eqn:Hcan;
    try (rewrite ?mret_run; intros [= <- <-]; left; split; [done | discriminate]).
  unfold board_set, setitem.
  destruct (py_index (board g) p) as [k|e] eqn:Hk; cbn.
  - intros [= <- <-]. right. exists p, k. repeat split; done.
  - intros [= <- <-]. left. split; [done | discriminate].
Qed.

Lemma conclude_move_run from_pos to_pos rm mill g pr g1 removable :
  capture mill rm g = (Ok pr, g1) ->
  can_remove_any mill g1 = (Ok removable, g1) ->
  conclude_move from_pos to_pos rm mill g =
    (Ok (ReturnDict true mill (mill && bool_decide (rm = None) && removable)),
     (if negb mill || (mill && pr) || (mill && negb removable)
      then with_player (other (current_player g1)) else id)
       (log_move
          {| mv_from := from_pos; mv_to := Some to_pos;
             mv_remove := if pr then rm else None;
             mv_player := current_player g1; mv_mill := mill;
             mv_timers := None |} g1)).
Proof.
  intros Hcap Hany. unfold conclude_move.
  rewrite (bind_ok _ _ _ _ _ Hcap), (bind_ok _ _ _ _ _ Hany).
  unfold mbind, M_bind. rewrite gets_run, modify_run.
  by destruct (negb mill || mill && pr || mill && negb removable).
Qed.

Lemma capture_player mill rm g r g' :
  capture mill rm g = (r, g') -> current_player g' = current_player g.
Proof.
  intros H. destruct (capture_cases _ _ _ _ _ H) as [[-> _]|(p & k & _ & _ & _ & _ & _ & ->)];
    reflexivity.
Qed.

(** [move_piece] never changes whose turn it is. *)
Lemma keeps_ret {A : Type} (a : A) : keeps_player (mret a).
Proof. by intros g r g' [= _ <-]. Qed.

Lemma keeps_gets {A : Type} (f : game -> A) : keeps_player (gets f).
Proof. by intros g r g' [= _ <-]. Qed.

Lemma keeps_lift {A : Type} (f : game -> res A) : keeps_player (lift f).
Proof. by intros g r g' [= _ <-]. Qed.

Lemma keeps_modify (f : game -> game) :
  (forall g, current_player (f g) = current_player g) -> keeps_player (modify f).
Proof. intros Hf g r g' [= _ <-]. apply Hf. Qed.

Lemma keeps_board_set i v : keeps_player (board_set i v).
Proof.
  intros g r g'. unfold board_set.
  destruct (setitem (board g) i v); by intros [= _ <-].
Qed.

Lemma keeps_bind {A B : Type} (m : M A) (k : A -> M B) :
  keeps_player m -> (forall a, keeps_player (k a)) -> keeps_player (m ≫= k).
Proof.
  intros Hm Hk g r g'. unfold mbind, M_bind.
  destruct (m g) as [[a|e] g1] eqn:H1.
  - intros H2. rewrite (Hk _ _ _ _ H2). by eapply Hm.
  - intros [= _ <-]. by eapply Hm.
Qed.

Lemma keeps_board_get i : keeps_player (board_get i).
Proof. apply keeps_lift. Qed.

Lemma keeps_board_get_opt i : keeps_player (board_get_opt i).
Proof. destruct i; apply keeps_lift. Qed.

Lemma keeps_adjacents_get i : keeps_player (adjacents_get i).
Proof. apply keeps_lift. Qed.

Ltac keeps_step :=
  first
    [ apply keeps_ret | apply keeps_gets | apply keeps_board_get
    | apply keeps_board_get_opt | apply keeps_adjacents_get
    | apply keeps_lift | apply keeps_board_set
    | apply keeps_modify; intros; reflexivity
    | match goal with
      | |- keeps_player (if ?b then _ else _) => destruct b
      | |- keeps_player (match ?x with _ => _ end) => destruct x
      | |- keeps_player (_ ≫= _) => apply keeps_bind; [| intros ?]
      end ].

Lemma keeps_relocate from_pos to_pos : keeps_player (relocate from_pos to_pos).
Proof. unfold relocate. repeat keeps_step. Qed.

Lemma keeps_move_piece from_pos to_pos : keeps_player (move_piece from_pos to_pos).
Proof.
  unfold move_piece.
  repeat first [apply keeps_relocate | keeps_step].
Qed.

(** *** C1: the capture rule *)





(** *** C8: the placing phase *)

Lemma move_piece_placing_occupied (g : game) from_pos (to_pos : Z) (c : color) :
  wf g -> phase g = placing -> 0 <= to_pos < 24 ->
  board g !! Z.to_nat to_pos = Some (Some c) ->
  move_piece from_pos to_pos g = (Ok None, g).
Proof.
  intros Hwf Hphase Hto Hcell.
  destruct (getitem_nonneg (board g) to_pos Hwf Hto) as (x & Hx & Hget).
  rewrite Hcell in Hx. injection Hx as <-.
  unfold move_piece, mbind, M_bind. rewrite gets_run, Hphase.
  unfold board_get. rewrite lift_run, Hget.
  by rewrite bool_decide_true.
Qed.

Lemma wf_placed_board (g : game) (to_pos : Z) v :
  wf g -> wf (take_from_hand (with_board (<[Z.to_nat to_pos := v]> (board g)) g)).
Proof. intros Hwf. unfold wf. cbn. by rewrite length_insert. Qed.

Lemma move_piece_placing_free (g : game) from_pos (to_pos : Z) :
  wf g -> phase g = placing -> 0 <= to_pos < 24 ->
  board g !! Z.to_nat to_pos = Some None ->
  exists mill_formed,
    move_piece from_pos to_pos g = (Ok (Some mill_formed), placed to_pos g).
Proof.
  intros Hwf Hphase Hto Hcell.
  destruct (getitem_nonneg (board g) to_pos Hwf Hto) as (x & Hx & Hget).
  rewrite Hcell in Hx. injection Hx as <-.
  set (g1 := take_from_hand
               (with_board (<[Z.to_nat to_pos := Some (current_player g)]> (board g)) g)).
  destruct (is_mill_total g1 to_pos) as [mill Hmill];
    [apply wf_placed_board, Hwf | unfold py_valid; lia |].
  exists mill.
  unfold move_piece, mbind, M_bind. rewrite gets_run, Hphase.
  unfold board_get. rewrite lift_run, Hget.
  rewrite bool_decide_false by (intros H; by apply H).
  rewrite gets_run. unfold board_set.
  rewrite (setitem_nonneg _ _ _ Hwf Hto).
  rewrite modify_run, lift_run. fold g1. rewrite Hmill, gets_run.
  unfold placed. fold g1.
  destruct (18 <=? total_pieces_placed g1); reflexivity.
Qed.

Lemma placed_facts (g : game) (to_pos : Z) :
  wf g -> 0 <= to_pos < 24 ->
  wf (placed to_pos g)
  /\ board (placed to_pos g) !! Z.to_nat to_pos = Some (Some (current_player g))
  /\ current_player (placed to_pos g) = current_player g
  /\ total_pieces_placed (placed to_pos g) = total_pieces_placed g + 1
  /\ phase (placed to_pos g)
     = if 18 <=? total_pieces_placed g + 1 then moving else phase g.
Proof.
  intros Hwf Hto. unfold placed. cbn [take_from_hand with_board total_pieces_placed].
  assert (Hlook : <[Z.to_nat to_pos := Some (current_player g)]> (board g)
                  !! Z.to_nat to_pos = Some (Some (current_player g))).
  { apply list_lookup_insert_eq. rewrite Hwf. lia. }
  destruct (18 <=? total_pieces_placed g + 1); cbn;
    (repeat split; [unfold wf; cbn; by rewrite length_insert | exact Hlook]).
Qed.

(** After [conclude_move] the phase and the counters are as before and
    every piece of the mover is where it was. *)
Lemma conclude_move_keeps (from_pos : option Z) (to_pos : Z) rm mill g r g' :
  wf g ->
  conclude_move from_pos to_pos rm mill g = (r, g') ->
  phase g' = phase g
  /\ total_pieces_placed g' = total_pieces_placed g
  /\ (forall k, board g !! k = Some (Some (current_player g)) ->
                board g' !! k = Some (Some (current_player g))).
Proof.
  intros Hwf. unfold conclude_move, mbind, M_bind.
  destruct (capture mill rm g) as [rc g1] eqn:Hcap.
  assert (Hg1 : phase g1 = phase g
                /\ total_pieces_placed g1 = total_pieces_placed g
                /\ (forall k, board g !! k = Some (Some (current_player g)) ->
                              board g1 !! k = Some (Some (current_player g)))).
  { destruct (capture_cases _ _ _ _ _ Hcap)
      as [[-> _]|(p & k & _ & _ & _ & Hcan & Hk & ->)]; [done |].
    repeat split. intros j Hj. cbn.
    destruct (decide (k = j)) as [->|Hne]; [| by rewrite list_lookup_insert_ne].
    exfalso. unfold can_remove, getitem in Hcan. rewrite Hk in Hcan.
    cbn [mbind res_bind] in Hcan. rewrite Hj in Hcan.
    cbn [mbind res_bind] in Hcan.
    rewrite bool_decide_true in Hcan by done. discriminate. }
  destruct Hg1 as (Hph & Htot & Hboard).
  destruct rc as [pr|e]; [| by intros [= _ <-]].
  destruct (can_remove_any mill g1) as [ra g2] eqn:Hany.
  apply can_remove_any_state in Hany as ->.
  destruct ra as [removable|e]; [| by intros [= _ <-]].
  rewrite gets_run, modify_run.
  destruct (negb mill || mill && pr || mill && negb removable);
    rewrite ?modify_run, ?mret_run; intros [= _ <-]; cbn; done.
Qed.

(** In the placing phase the second part of [make_move] returns a dict
    unless the requested capture point is no index of the board. *)
Lemma conclude_move_returns (from_pos : option Z) (to_pos : Z) rm mill g :
  wf g ->
  (rm = None \/ exists r, rm = Some r /\ py_valid r) ->
  exists w g',
    conclude_move from_pos to_pos rm mill g = (Ok (ReturnDict true mill w), g').
Proof.
  intros Hwf Hrm.
  assert (exists pr g1, capture mill rm g = (Ok pr, g1) /\ wf g1)
    as (pr & g1 & Hcap & Hwf1).
  { unfold capture. destruct mill; [| by exists false, g].
    destruct Hrm as [->|(r & -> & Hr)]; [by exists false, g |].
    unfold mbind, M_bind. rewrite lift_run.
    destruct (can_remove_total g r Hwf Hr) as [[] ->]; [| by exists false, g].
    unfold board_set.
    destruct (setitem_valid (board g) r None Hwf Hr) as (b & -> & Hb).
    by exists true, (with_board b g). }
  assert (exists removable, can_remove_any mill g1 = (Ok removable, g1))
    as [removable Hany].
  { unfold can_remove_any. destruct mill; [| by exists false].
    rewrite lift_run.
    destruct (any_removable_total g1
                (positions_of (other (current_player g1)) (board g1) 0) Hwf1)
      as [x ->]; [| by exists x].
    eapply Forall_impl; [apply positions_of_range |].
    cbn. intros q Hq. rewrite Hwf1 in Hq. unfold py_valid. lia. }
  rewrite (conclude_move_run _ _ _ _ _ _ _ _ Hcap Hany). by eexists _, _.
Qed.

(** The [from_pos] of a placement only shows in the move log. *)
Lemma conclude_move_from (f1 f2 : option Z) (to_pos : Z) rm mill g :
  fst (conclude_move f1 to_pos rm mill g) = fst (conclude_move f2 to_pos rm mill g)
  /\ board (snd (conclude_move f1 to_pos rm mill g))
     = board (snd (conclude_move f2 to_pos rm mill g))
  /\ phase (snd (conclude_move f1 to_pos rm mill g))
     = phase (snd (conclude_move f2 to_pos rm mill g))
  /\ current_player (snd (conclude_move f1 to_pos rm mill g))
     = current_player (snd (conclude_move f2 to_pos rm mill g)).
Proof.
  unfold conclude_move, mbind, M_bind.
  destruct (capture mill rm g) as [[pr|e] g1]; [| done].
  destruct (can_remove_any mill g1) as [[removable|e] g2]; [| done].
  rewrite !gets_run, !modify_run.
  destruct (negb mill || mill && pr || mill && negb removable);
    rewrite ?modify_run, ?mret_run; done.
Qed.

Lemma move_piece_placing_from (f1 f2 : option Z) (to_pos : Z) (g : game) :
  phase g = placing -> move_piece f1 to_pos g = move_piece f2 to_pos g.
Proof.
  intros Hphase. unfold move_piece, mbind, M_bind. by rewrite gets_run, Hphase.
Qed.

(** C8. In the placing phase a move to an occupied point is rejected
    and nothing changes.  A move to a free point puts a piece of the
    mover there, whatever [from_pos] is (it only appears in the move
    log), and counts it; once the count reaches 18 the phase is
    [moving].  The call returns its dict unless the requested capture
    point is no index of the board. *)
Theorem placing_phase_moves (g : game) (from_pos : option Z) (to_pos : Z)
  (remove_pos : option Z) :
  wf g -> phase g = placing -> 0 <= to_pos < 24 ->
  let result := fst (make_move from_pos to_pos remove_pos g) in
  let after := snd (make_move from_pos to_pos remove_pos g) in
  (forall c, board g !! Z.to_nat to_pos = Some (Some c) ->
     result = Ok ReturnFalse /\ after = g)
  /\ (board g !! Z.to_nat to_pos = Some None ->
      board after !! Z.to_nat to_pos = Some (Some (current_player g))
      /\ total_pieces_placed after = total_pieces_placed g + 1
      /\ phase after
         = (if 18 <=? total_pieces_placed g + 1 then moving else placing)
      /\ (total_pieces_placed g = 17 -> phase after = moving)
      /\ (forall other_from,
            fst (make_move other_from to_pos remove_pos g) = result
            /\ board (snd (make_move other_from to_pos remove_pos g))
               = board after
            /\ phase (snd (make_move other_from to_pos remove_pos g))
               = phase after
            /\ current_player (snd (make_move other_from to_pos remove_pos g))
               = current_player after)
      /\ ((remove_pos = None \/ exists r, remove_pos = Some r /\ py_valid r) ->
          exists mill_formed waiting,
            result = Ok (ReturnDict true mill_formed waiting))).
Proof.
  intros Hwf Hphase Hto. cbn zeta. split.
  - intros c Hcell. unfold make_move.
    rewrite (bind_ok _ _ _ _ _
               (move_piece_placing_occupied g from_pos to_pos c Hwf Hphase Hto Hcell)).
    done.
  - intros Hcell.
    destruct (move_piece_placing_free g from_pos to_pos Hwf Hphase Hto Hcell)
      as [mill Hmove].
    destruct (placed_facts g to_pos Hwf Hto) as (Hwfp & Hlook & Hturn & Htot & Hph).
    rewrite Hphase in Hph.
    assert (Hrun : forall f, make_move f to_pos remove_pos g
                     = conclude_move f to_pos remove_pos mill (placed to_pos g)).
    { intros f. unfold make_move.
      assert (Hf : move_piece f to_pos g = (Ok (Some mill), placed to_pos g))
        by (by rewrite (move_piece_placing_from f from_pos to_pos g Hphase)).
      by rewrite (bind_ok _ _ _ _ _ Hf). }
    rewrite !Hrun.
    destruct (conclude_move from_pos to_pos remove_pos mill (placed to_pos g))
      as [r g'] eqn:Hconc.
    destruct (conclude_move_keeps _ _ _ _ _ _ _ Hwfp Hconc) as (Hph' & Htot' & Hkeep).
    cbn [fst snd]. rewrite Hturn in Hkeep.
    split; [by apply Hkeep |].
    split; [by rewrite Htot' |].
    split; [by rewrite Hph' |].
    split.
    { intros H17. rewrite Hph', Hph, H17. reflexivity. }
    split.
    { intros f. rewrite Hrun.
      pose proof (conclude_move_from f from_pos to_pos remove_pos mill
                    (placed to_pos g)) as Hfrom.
      by rewrite Hconc in Hfrom. }
    intros Hrm.
    destruct (conclude_move_returns from_pos to_pos remove_pos mill
                (placed to_pos g) Hwfp Hrm) as (w & g'' & Hret).
    rewrite Hconc in Hret. injection Hret as -> _. by exists mill, w.
Qed.

Lemma placing_phase_moves_witness :
  (fst (make_move (Some 5) 16 None last_placement) = Ok ReturnFalse
   /\ snd (make_move (Some 5) 16 None last_placement) = last_placement)
  /\ board (snd (make_move (Some 5) 17 None last_placement)) !! 17%nat
     = Some (Some black)
  /\ phase (snd (make_move (Some 5) 17 None last_placement)) = moving.
Proof.
  split.
  - destruct (placing_phase_moves last_placement (Some 5) 16 None)
      as [Hocc _]; [reflexivity | reflexivity | lia |].
    apply (Hocc white). reflexivity.
  - destruct (placing_phase_moves last_placement (Some 5) 17 None)
      as [_ Hfree]; [reflexivity | reflexivity | lia |].
    destruct Hfree as (Hput & _ & _ & Hlast & _); [reflexivity |].
    split; [exact Hput | apply Hlast; reflexivity].
Defined.

End BoardFacts.

(** ** Board engine: further properties *)

Module BoardMore.

Import Board BoardLogic BoardFacts.

#[local] Opaque mills.

(** *** Stepping through a method *)

Section Steps.

Context {A B : Type}.
Implicit Types (k : A -> M B) (Q : res B -> game -> Prop) (g : game).

Lemma ensures_run (m : M B) g Q r g' : ensures m g Q -> m g = (r, g') -> Q r g'.
Proof. unfold ensures. intros H Heq. by rewrite Heq in H. Qed.

Lemma ensures_ret (b : B) g Q : Q (Ok b) g -> ensures (mret b) g Q.
Proof. done. Qed.

Lemma ensures_bind (m : M A) k g Q :
  ensures m g (and_then k Q) -> ensures (m ≫= k) g Q.
Proof.
  unfold ensures, and_then, mbind, M_bind.
  by destruct (m g) as [[a|e] g1].
Qed.

Lemma ensures_weaken (m : M B) g (Q Q' : res B -> game -> Prop) :
  ensures m g Q -> (forall r g', Q r g' -> Q' r g') -> ensures m g Q'.
Proof. unfold ensures. auto. Qed.

Lemma step_gets {C : Type} (f : game -> C) (k : C -> M B) g Q :
  ensures (k (f g)) g Q -> ensures (gets f ≫= k) g Q.
Proof. done. Qed.

Lemma step_modify (f : game -> game) (k : unit -> M B) g Q :
  ensures (k tt) (f g) Q -> ensures (modify f ≫= k) g Q.
Proof. done. Qed.

Lemma step_ret {C : Type} (c : C) (k : C -> M B) g Q :
  ensures (k c) g Q -> ensures (mret c ≫= k) g Q.
Proof. done. Qed.

Lemma step_lift {C : Type} (f : game -> res C) (k : C -> M B) g Q :
  (forall c, f g = Ok c -> ensures (k c) g Q) ->
  (forall e, f g = Raise e -> Q (Raise e) g) ->
  ensures (lift f ≫= k) g Q.
Proof.
  intros Hok Hraise. unfold ensures, mbind, M_bind, lift.
  destruct (f g) as [c|e] eqn:Hf; [by apply Hok | by apply Hraise].
Qed.

Lemma step_board_get (i : Z) (k : cell -> M B) g Q :
  (forall c, getitem (board g) i = Ok c -> ensures (k c) g Q) ->
  (forall e, getitem (board g) i = Raise e -> Q (Raise e) g) ->
  ensures (board_get i ≫= k) g Q.
Proof. unfold board_get. apply (step_lift (λ g, getitem (board g) i)). Qed.

Lemma step_board_set (i : Z) (v : cell) (k : unit -> M B) g Q :
  (forall b, setitem (board g) i v = Ok b -> ensures (k tt) (with_board b g) Q) ->
  (forall e, setitem (board g) i v = Raise e -> Q (Raise e) g) ->
  ensures (board_set i v ≫= k) g Q.
Proof.
  intros Hok Hraise. unfold ensures, mbind, M_bind, board_set.
  destruct (setitem (board g) i v) as [b|e] eqn:Hs; [by apply Hok | by apply Hraise].
Qed.

Lemma step_assoc {C : Type} (m : M C) (k1 : C -> M A) k g Q :
  ensures (m ≫= (λ c, k1 c ≫= k)) g Q -> ensures ((m ≫= k1) ≫= k) g Q.
Proof.
  unfold ensures, mbind, M_bind. by destruct (m g) as [[c|e] g1].
Qed.

End Steps.

(** *** The board keeps its 24 points *)

Lemma setitem_length {A : Type} (l l' : list A) (i : Z) (v : A) :
  setitem l i v = Ok l' -> length l' = length l.
Proof.
  unfold setitem. destruct (py_index l i) as [k|e]; [| discriminate].
  intros [= <-]. apply length_insert.
Qed.

Ltac step :=
  lazy beta;
  lazymatch goal with
  | |- ensures ((_ ≫= _) ≫= _) _ _ => apply step_assoc
  | |- ensures (gets _ ≫= _) _ _ => apply step_gets
  | |- ensures (modify _ ≫= _) _ _ => apply step_modify
  | |- ensures (mret _ ≫= _) _ _ => apply step_ret
  | |- ensures (board_get _ ≫= _) _ _ =>
      apply step_board_get; [intros ? ? | intros ? ?]
  | |- ensures (board_set _ _ ≫= _) _ _ =>
      apply step_board_set; [intros ? ? | intros ? ?]
  | |- ensures (lift _ ≫= _) _ _ => apply step_lift; [intros ? ? | intros ? ?]
  | |- ensures (mret _) _ _ => apply ensures_ret
  | |- ensures ((if ?b then _ else _) ≫= _) _ _ => destruct b eqn:?
  | |- ensures (if ?b then _ else _) _ _ => destruct b eqn:?
  | |- ensures (match ?x with _ => _ end) _ _ => destruct x eqn:?
  end.

Lemma relocate_wf from_pos to_pos g :
  wf g -> ensures (relocate from_pos to_pos) g (λ _ g', wf g').
Proof.
  intros Hwf. unfold relocate, board_get_opt, adjacents_get.
  apply step_gets. destruct from_pos as [i|]; [| by apply step_lift].
  repeat step; try done;
    unfold wf in *; cbn;
    repeat match goal with
           | H : setitem _ _ _ = Ok _ |- _ => apply setitem_length in H
           end; cbn in *; congruence.
Qed.

Ltac lengths :=
  unfold wf in *; cbn;
  repeat match goal with
         | H : setitem _ _ _ = Ok _ |- _ => apply setitem_length in H
         end; cbn in *; congruence.

Lemma move_piece_wf from_pos to_pos g :
  wf g -> ensures (move_piece from_pos to_pos) g (λ _ g', wf g').
Proof.
  intros Hwf. unfold move_piece. apply step_gets.
  destruct (phase g) eqn:Hphase.
  - repeat step; try done; lengths.
  - apply ensures_bind.
    eapply ensures_weaken; [by apply relocate_wf |].
    intros [[m|]|e] g1 Hwf1; unfold and_then; try done; repeat step; done.
  - by apply relocate_wf.
Qed.

Lemma conclude_move_wf from_pos to_pos rm mill g :
  wf g -> ensures (conclude_move from_pos to_pos rm mill) g (λ _ g', wf g').
Proof.
  intros Hwf. unfold conclude_move, capture, can_remove_any.
  destruct mill, rm as [r|]; repeat step; try done; lengths.
Qed.

(** How [make_move] is put together from its two parts. *)
Lemma make_move_ensures from_pos to_pos rm g (Q : res move_result -> game -> Prop) :
  ensures (move_piece from_pos to_pos) g
    (λ r g1,
       match r with
       | Ok None => Q (Ok ReturnFalse) g1
       | Ok (Some mill) => ensures (conclude_move from_pos to_pos rm mill) g1 Q
       | Raise e => Q (Raise e) g1
       end) ->
  ensures (make_move from_pos to_pos rm) g Q.
Proof.
  intros H. unfold make_move. apply ensures_bind.
  eapply ensures_weaken; [exact H |].
  intros [[m|]|e] g1; unfold and_then; done.
Qed.

(** X1. Whatever the arguments and however the call ends, [make_move]
    leaves a board of 24 points. *)
Theorem make_move_keeps_board_size (g : game) (from_pos : option Z)
  (to_pos : Z) (remove_pos : option Z) :
  wf g -> wf (snd (make_move from_pos to_pos remove_pos g)).
Proof.
  intros Hwf.
  change (ensures (make_move from_pos to_pos remove_pos) g (λ _ g', wf g')).
  apply make_move_ensures.
  eapply ensures_weaken; [by apply move_piece_wf |].
  intros [[m|]|e] g1 Hwf1; try done. by apply conclude_move_wf.
Qed.

Lemma make_move_keeps_board_size_witness :
  wf (snd (make_move (Some 5) 40 (Some (-30)) last_placement)).
Proof. apply make_move_keeps_board_size. reflexivity. Defined.

(** *** A rejected move changes nothing *)

Lemma relocate_rejects_early from_pos to_pos g :
  ensures (relocate from_pos to_pos) g (λ r g', r = Ok None -> g' = g).
Proof.
  unfold relocate, board_get_opt, adjacents_get.
  apply step_gets. destruct from_pos as [i|]; [| by apply step_lift].
  repeat step; done.
Qed.

Lemma move_piece_rejects_early from_pos to_pos g :
  ensures (move_piece from_pos to_pos) g (λ r g', r = Ok None -> g' = g).
Proof.
  unfold move_piece. apply step_gets. destruct (phase g) eqn:Hphase.
  - repeat step; done.
  - apply ensures_bind.
    eapply ensures_weaken; [apply relocate_rejects_early |].
    intros [[m|]|e] g1 Hg1; unfold and_then; try done; repeat step; try done;
      try (intros _; by apply Hg1).
  - apply relocate_rejects_early.
Qed.

Lemma conclude_move_answers from_pos to_pos rm mill g :
  ensures (conclude_move from_pos to_pos rm mill) g
    (λ r _, forall v, r = Ok v ->
       exists waiting, v = ReturnDict true mill waiting).
Proof.
  unfold conclude_move, capture, can_remove_any.
  destruct mill, rm as [r|]; repeat step; try done;
    intros v [= <-]; by eexists.
Qed.

(** X2. In every phase, a call of [make_move] that returns [False] has
    changed nothing: board, phase, counters, turn and move log are the
    ones before the call. *)
Theorem rejected_move_changes_nothing (g g' : game) (from_pos : option Z)
  (to_pos : Z) (remove_pos : option Z) :
  make_move from_pos to_pos remove_pos g = (Ok ReturnFalse, g') -> g' = g.
Proof.
  intros Hrun.
  assert (H : ensures (make_move from_pos to_pos remove_pos) g
                (λ r g1, r = Ok ReturnFalse -> g1 = g)).
  { apply make_move_ensures.
    eapply ensures_weaken; [apply move_piece_rejects_early |].
    intros [[m|]|e] g1 Hg1; try done; [| intros _; by apply Hg1].
    eapply ensures_weaken; [apply conclude_move_answers |].
    cbn. intros r g2 Hr Heq. destruct (Hr _ Heq) as [w [=]]. }
  by apply (ensures_run _ _ _ _ _ H Hrun).
Qed.

Lemma rejected_move_changes_nothing_witness :
  snd (make_move (Some 5) 16 None last_placement) = last_placement.
Proof.
  apply (rejected_move_changes_nothing last_placement _ (Some 5) 16 None).
  vm_compute. reflexivity.
Defined.

(** *** Only legal relocations are carried out *)

Lemma relocate_legal from_pos to_pos g :
  ensures (relocate from_pos to_pos) g
    (λ r _, forall m, r = Ok (Some m) -> legal_relocation g from_pos to_pos).
Proof.
  unfold relocate, board_get_opt, adjacents_get, legal_relocation.
  apply step_gets. destruct from_pos as [i|]; [| by apply step_lift].
  repeat step; try done; intros m _; exists i;
    repeat match goal with
           | H : bool_decide _ = false |- _ =>
               apply bool_decide_eq_false, dec_stable in H; subst
           | H : (_ =? _) = true |- _ => apply Z.eqb_eq in H
           | H : negb _ = false |- _ => apply negb_false_iff in H
           | H : bool_decide _ = true |- _ => apply bool_decide_eq_true in H
           | H : match adjacents ?i with _ => _ end = Ok _ |- _ =>
               destruct (adjacents i) eqn:?; [injection H as <- | discriminate H]
           end; cbn [default] in *; eauto 8.
Qed.

Lemma move_piece_legal from_pos to_pos g :
  phase g <> placing ->
  ensures (move_piece from_pos to_pos) g
    (λ r _, forall m, r = Ok (Some m) -> legal_relocation g from_pos to_pos).
Proof.
  intros Hphase. unfold move_piece. apply step_gets.
  destruct (phase g) eqn:Hp; [done | | apply relocate_legal].
  apply ensures_bind.
  eapply ensures_weaken; [apply relocate_legal |].
  intros [[m|]|e] g1 Hg1; unfold and_then; try done; repeat step; try done;
    intros ? _; by eapply Hg1.
Qed.

(** X3. After the placing phase, a move that [make_move] carries out
    was a legal relocation: it took a piece of the mover, went to a free
    point, and went to a neighbouring point unless the mover had exactly
    three pieces.  A side with another number of pieces never jumps. *)
Theorem carried_out_move_was_legal (g g' : game) (from_pos : option Z)
  (to_pos : Z) (remove_pos : option Z) (success mill waiting : bool) :
  phase g <> placing ->
  make_move from_pos to_pos remove_pos g
    = (Ok (ReturnDict success mill waiting), g') ->
  legal_relocation g from_pos to_pos.
Proof.
  intros Hphase Hrun.
  assert (H : ensures (make_move from_pos to_pos remove_pos) g
                (λ r _, forall v, r = Ok v -> v <> ReturnFalse ->
                   legal_relocation g from_pos to_pos)).
  { apply make_move_ensures.
    eapply ensures_weaken; [by apply move_piece_legal |].
    intros [[m|]|e] g1 Hg1; try done; [| by intros v [= <-]].
    unfold ensures. intros v _ _. by eapply Hg1. }
  by eapply (ensures_run _ _ _ _ _ H Hrun).
Qed.

Lemma carried_out_move_was_legal_witness :
  legal_relocation white_flies (Some 4) 17.
Proof.
  eapply (carried_out_move_was_legal white_flies _ (Some 4) 17 None);
    [discriminate | vm_compute; reflexivity].
Defined.

(** *** Counting the pieces *)

Lemma count_pieces_cons (c : color) (x : cell) (b : list cell) :
  count_pieces c (x :: b)
  = (if bool_decide (x = Some c) then 1 else 0) + count_pieces c b.
Proof.
  unfold count_pieces. rewrite filter_cons.
  case_bool_decide; [rewrite decide_True by done | rewrite decide_False by done];
    cbn [length]; lia.
Qed.

Lemma count_pieces_insert (c : color) (b : list cell) (k : nat) (old v : cell) :
  b !! k = Some old ->
  count_pieces c (<[k := v]> b)
  = count_pieces c b - (if bool_decide (old = Some c) then 1 else 0)
    + (if bool_decide (v = Some c) then 1 else 0).
Proof.
  revert k. induction b as [|x rest IH]; intros k Hk; [done |].
  destruct k as [|k]; cbn in Hk.
  - injection Hk as ->. cbn [insert list_insert].
    rewrite !count_pieces_cons. lia.
  - change (<[S k := v]> (x :: rest)) with (x :: <[k := v]> rest).
    rewrite !count_pieces_cons, (IH k Hk). lia.
Qed.

Lemma getitem_lookup {A : Type} (l : list A) (i : Z) (a : A) :
  getitem l i = Ok a -> exists k, py_index l i = Ok k /\ l !! k = Some a.
Proof.
  unfold getitem. destruct (py_index l i) as [k|e]; [| discriminate].
  cbn. destruct (l !! k) as [x|] eqn:Hx; [| discriminate].
  intros [= <-]. by exists k.
Qed.

Lemma setitem_insert {A : Type} (l l' : list A) (i : Z) (v : A) :
  setitem l i v = Ok l' -> exists k, py_index l i = Ok k /\ l' = <[k := v]> l.
Proof.
  unfold setitem. destruct (py_index l i) as [k|e]; [| discriminate].
  intros [= <-]. by exists k.
Qed.

Lemma py_index_length {A : Type} (l l' : list A) (i : Z) :
  length l' = length l -> py_index l' i = py_index l i.
Proof. unfold py_index. by intros ->. Qed.

Lemma other_not (c p : color) : p <> c -> p = other c.
Proof. by destruct c, p. Qed.

Lemma other_differs (c : color) : other c <> c.
Proof. by destruct c. Qed.

(** Taking a piece of [me] from one point and putting it on a free one. *)
Lemma count_after_relocation (c me : color) (b b1 b2 : list cell) (i j : Z) :
  getitem b i = Ok (Some me) ->
  getitem b j = Ok None ->
  setitem b i None = Ok b1 ->
  setitem b1 j (Some me) = Ok b2 ->
  count_pieces c b2 = count_pieces c b.
Proof.
  intros Hi Hj H1 H2.
  apply getitem_lookup in Hi as (ki & Hki & Hi).
  apply getitem_lookup in Hj as (kj & Hkj & Hj).
  apply setitem_insert in H1 as (k1 & Hk1 & ->).
  apply setitem_insert in H2 as (k2 & Hk2 & ->).
  rewrite (py_index_length b) in Hk2 by apply length_insert.
  assert (k1 = ki) as -> by congruence. assert (k2 = kj) as -> by congruence.
  assert (ki <> kj) by (intros ->; congruence).
  rewrite (count_pieces_insert c _ kj None)
    by (by rewrite list_lookup_insert_ne).
  rewrite (count_pieces_insert c _ ki (Some me)) by done.
  rewrite (bool_decide_false (None = Some c)) by done.
  lia.
Qed.

Lemma count_after_placement (c me : color) (b b1 : list cell) (j : Z) :
  getitem b j = Ok None ->
  setitem b j (Some me) = Ok b1 ->
  count_pieces c b1
  = count_pieces c b + (if bool_decide (c = me) then 1 else 0).
Proof.
  intros Hj H1.
  apply getitem_lookup in Hj as (kj & Hkj & Hj).
  apply setitem_insert in H1 as (k1 & Hk1 & ->).
  assert (k1 = kj) as -> by congruence.
  rewrite (count_pieces_insert c _ kj None) by done.
  rewrite (bool_decide_false (None = Some c)) by done.
  repeat case_bool_decide; try lia; congruence.
Qed.

Lemma relocate_counts from_pos to_pos g (c : color) :
  ensures (relocate from_pos to_pos) g
    (λ r g1, forall m, r = Ok (Some m) ->
       count_pieces c (board g1) = count_pieces c (board g)).
Proof.
  unfold relocate, board_get_opt, adjacents_get.
  apply step_gets. destruct from_pos as [i|]; [| by apply step_lift].
  repeat step; try done; intros m _; cbn [default board with_board] in *;
    repeat match goal with
           | H : bool_decide _ = false |- _ =>
               apply bool_decide_eq_false in H; apply dec_stable in H
           end; simplify_eq;
    by eapply count_after_relocation.
Qed.

Lemma move_piece_counts from_pos to_pos g (c : color) :
  ensures (move_piece from_pos to_pos) g
    (λ r g1, forall m, r = Ok (Some m) ->
       count_pieces c (board g1)
       = count_pieces c (board g)
         + (if bool_decide (phase g = placing /\ c = current_player g)
            then 1 else 0)).
Proof.
  unfold move_piece. apply step_gets. destruct (phase g) eqn:Hp.
  - repeat step; try done; intros m _; cbn [board with_board with_phase take_from_hand] in *;
      repeat match goal with
             | H : bool_decide _ = false |- _ =>
                 apply bool_decide_eq_false in H; apply dec_stable in H
             end; simplify_eq;
      (erewrite count_after_placement by done;
       repeat case_bool_decide; destruct_and?; try lia; try congruence;
       exfalso; auto).
  - apply ensures_bind.
    eapply ensures_weaken; [apply (relocate_counts _ _ _ c) |].
    intros [[m|]|e] g1 Hg1; unfold and_then; try done; repeat step; try done;
      intros ? _; cbn [board with_phase];
      rewrite (Hg1 m) by done;
      rewrite bool_decide_false by (intros [? _]; done); lia.
  - eapply ensures_weaken; [apply (relocate_counts _ _ _ c) |].
    cbn. intros r g1 Hg1 m Hm. rewrite (Hg1 m Hm).
    rewrite bool_decide_false by (intros [? _]; done). lia.
Qed.

Lemma capture_counts mill rm g r g' (c : color) :
  capture mill rm g = (r, g') ->
  (r <> Ok true -> g' = g)
  /\ (r = Ok true ->
      mill = true /\ rm <> None
      /\ count_pieces c (board g')
         = count_pieces c (board g)
           - (if bool_decide (c = other (current_player g)) then 1 else 0)).
Proof.
  intros Hcap.
  destruct (capture_cases _ _ _ _ _ Hcap)
    as [[-> Hr]|(p & k & -> & -> & -> & Hcan & Hk & ->)]; [done |].
  split; [done |]. intros _. repeat split; [done |].
  unfold can_remove, getitem in Hcan. rewrite Hk in Hcan.
  cbn [mbind res_bind] in Hcan.
  destruct (board g !! k) as [[owner|]|] eqn:Hcell;
    cbn [mbind res_bind] in Hcan; try discriminate.
  case_bool_decide as Hown; [discriminate |].
  cbn [board with_board].
  rewrite (count_pieces_insert c _ k (Some owner)) by done.
  rewrite (bool_decide_false (None = Some c)) by done.
  apply other_not in Hown. rewrite Hown.
  repeat case_bool_decide; try lia; congruence.
Qed.

Lemma conclude_move_board from_pos to_pos rm mill g v g' :
  conclude_move from_pos to_pos rm mill g = (Ok v, g') ->
  exists pr g1, capture mill rm g = (Ok pr, g1) /\ board g' = board g1.
Proof.
  unfold conclude_move, mbind, M_bind.
  destruct (capture mill rm g) as [[pr|e] g1] eqn:Hcap; [| discriminate].
  destruct (can_remove_any mill g1) as [[removable|e] g2] eqn:Hany; [| discriminate].
  apply can_remove_any_state in Hany as ->.
  rewrite gets_run, modify_run.
  destruct (negb mill || mill && pr || mill && negb removable);
    rewrite ?modify_run, ?mret_run; intros [= _ <-]; by exists pr, g1.
Qed.

(** X4. A move that [make_move] carries out changes the number of the
    mover's pieces on the board by the placed piece only (plus one in
    the placing phase, none afterwards), and takes at most one piece of
    the opponent, and none unless a mill was formed and a capture point
    was given. *)
Theorem move_changes_piece_counts (g g' : game) (from_pos : option Z)
  (to_pos : Z) (remove_pos : option Z) (success mill waiting : bool) :
  make_move from_pos to_pos remove_pos g
    = (Ok (ReturnDict success mill waiting), g') ->
  let me := current_player g in
  count_pieces me (board g')
  = count_pieces me (board g) + (if bool_decide (phase g = placing) then 1 else 0)
  /\ count_pieces (other me) (board g) - 1
     <= count_pieces (other me) (board g')
     <= count_pieces (other me) (board g)
  /\ (mill = false \/ remove_pos = None ->
      count_pieces (other me) (board g') = count_pieces (other me) (board g)).
Proof.
  intros Hrun me.
  unfold make_move, mbind, M_bind in Hrun.
  destruct (move_piece from_pos to_pos g) as [[[m|]|e] g1] eqn:Hmove;
    try discriminate.
  pose proof (keeps_move_piece _ _ _ _ _ Hmove) as Hturn.
  pose proof (fun c => ensures_run _ _ _ _ _ (move_piece_counts from_pos to_pos g c)
                         Hmove m eq_refl) as Hcount.
  assert (Hm : m = mill).
  { pose proof (ensures_run _ _ _ _ _
                  (conclude_move_answers from_pos to_pos remove_pos m g1) Hrun
                  _ eq_refl) as [w [= _ ->]]. done. }
  subst m.
  destruct (conclude_move_board _ _ _ _ _ _ _ Hrun) as (pr & g2 & Hcap & ->).
  pose proof (fun c => capture_counts _ _ _ _ _ c Hcap) as Hcapture.
  rewrite Hturn in Hcapture. fold me in Hcapture.
  assert (Hme : count_pieces me (board g1)
                = count_pieces me (board g)
                  + (if bool_decide (phase g = placing) then 1 else 0)).
  { rewrite (Hcount me).
    repeat case_bool_decide; destruct_and?; try lia; try congruence;
      exfalso; auto. }
  assert (Hopp : count_pieces (other me) (board g1)
                 = count_pieces (other me) (board g)).
  { rewrite (Hcount (other me)).
    rewrite bool_decide_false; [lia |]. intros [_ Heq].
    by apply other_differs in Heq. }
  destruct pr.
  - destruct (Hcapture me) as [_ Hc]. destruct (Hc eq_refl) as (Hmill & Hrm & Hcm).
    destruct (Hcapture (other me)) as [_ Hc']. destruct (Hc' eq_refl) as (_ & _ & Hco).
    rewrite Hcm, Hco, Hme, Hopp.
    rewrite (bool_decide_false (me = other me))
      by (intros Heq; by apply eq_sym, other_differs in Heq).
    rewrite (bool_decide_true (other me = other me)) by done.
    repeat split; try lia. intros [->| ->]; done.
  - destruct (Hcapture me) as [Hsame _]. rewrite Hsame by discriminate.
    rewrite Hme, Hopp. repeat split; lia.
Qed.

Lemma move_changes_piece_counts_witness :
  let g' := snd (make_move None 2 (Some 6) white_about_to_mill) in
  count_pieces white (board g') = count_pieces white (board white_about_to_mill) + 1
  /\ count_pieces black (board g') = 3.
Proof.
  destruct (move_changes_piece_counts white_about_to_mill
              (snd (make_move None 2 (Some 6) white_about_to_mill))
              None 2 (Some 6) true true false) as (Hme & _ & _);
    [vm_compute; reflexivity |].
  split; [exact Hme | vm_compute; reflexivity].
Defined.

(** *** What [is_mill] recognises *)

Lemma all_owned_true_iff (b : list cell) (c : color) (mill : list Z) :
  length b = 24%nat -> Forall (λ p, 0 <= p < 24) mill ->
  all_owned b c mill = Ok true
  <-> forall q, q ∈ mill -> b !! Z.to_nat q = Some (Some c).
Proof.
  intros Hlen. induction 1 as [|pos rest Hpos _ IH]; cbn [all_owned].
  - split; [intros _ q Hq; inversion Hq | done].
  - destruct (getitem_nonneg b pos Hlen Hpos) as (x & Hx & ->).
    cbn [mbind res_bind]. case_bool_decide as Hc.
    + subst x. rewrite IH. split.
      * intros Hrest q [->|Hq]%elem_of_cons; [done | by apply Hrest].
      * intros Hall q Hq. apply Hall. by right.
    + split; [discriminate |]. intros Hall. exfalso. apply Hc.
      specialize (Hall pos (list_elem_of_here _ _)). congruence.
Qed.

Lemma mill_among_true_iff (b : list cell) (c : color) (p : Z) (ms : list (list Z)) :
  length b = 24%nat -> Forall (Forall (λ p, 0 <= p < 24)) ms ->
  mill_among b c p ms = Ok true
  <-> exists mill, mill ∈ ms /\ p ∈ mill
        /\ forall q, q ∈ mill -> b !! Z.to_nat q = Some (Some c).
Proof.
  intros Hlen. induction 1 as [|mill rest Hmill Hrest IH]; cbn [mill_among].
  - split; [discriminate | intros (m & Hm & _); inversion Hm].
  - assert (Hlater : (exists m, m ∈ rest /\ p ∈ m
                        /\ forall q, q ∈ m -> b !! Z.to_nat q = Some (Some c))
                     -> exists m, m ∈ mill :: rest /\ p ∈ m
                        /\ forall q, q ∈ m -> b !! Z.to_nat q = Some (Some c)).
    { intros (m & Hm & Hrestm). exists m. split; [by right | done]. }
    case_bool_decide as Hp.
    + destruct (all_owned_total b c mill Hlen Hmill) as [owned Howned].
      rewrite Howned. cbn [mbind res_bind]. destruct owned.
      * split; [intros _ | done]. exists mill.
        split; [by left |]. split; [done |].
        by apply all_owned_true_iff.
      * rewrite IH. split; [exact Hlater |].
        intros (m & [->|Hm]%elem_of_cons & Hpm & Hall); [| by exists m].
        apply all_owned_true_iff in Hall; [congruence | done | done].
    + rewrite IH. split; [exact Hlater |].
      intros (m & [->|Hm]%elem_of_cons & Hpm & Hall); [done | by exists m].
Qed.

(** X5. On a board of 24 points, [is_mill] answers [True] for a point
    0..23 exactly when the point is occupied and one of the sixteen lines
    through it is held entirely by the occupant's colour. *)
Theorem is_mill_recognises_lines (g : game) (p : Z) :
  wf g -> 0 <= p < 24 ->
  is_mill g p = Ok true
  <-> exists c mill,
        board g !! Z.to_nat p = Some (Some c)
        /\ mill ∈ mills /\ p ∈ mill
        /\ forall q, q ∈ mill -> board g !! Z.to_nat q = Some (Some c).
Proof.
  intros Hwf Hp. unfold is_mill.
  destruct (getitem_nonneg (board g) p Hwf Hp) as (x & Hx & ->).
  cbn [mbind res_bind]. rewrite Hx. destruct x as [c|].
  - rewrite (mill_among_true_iff _ _ _ _ Hwf mills_in_range). split.
    + intros (mill & Hm & Hpm & Hall). by exists c, mill.
    + intros (c' & mill & [= <-] & Hm & Hpm & Hall). by exists mill.
  - split; [discriminate | intros (c & mill & [=] & _)].
Qed.

Lemma is_mill_recognises_lines_witness :
  is_mill all_black_in_mill 1 = Ok true.
Proof.
  apply (is_mill_recognises_lines all_black_in_mill 1); [reflexivity | lia |].
  exists black, [0; 1; 2]. repeat split; [vm_compute; set_solver | set_solver |].
  intros q Hq. repeat (apply elem_of_cons in Hq as [->|Hq]; [reflexivity |]).
  inversion Hq.
Defined.

(** *** Negative indices *)

Lemma mill_among_negative (b : list cell) (c : color) (p : Z) (ms : list (list Z)) :
  p < 0 -> Forall (Forall (λ q, 0 <= q < 24)) ms ->
  mill_among b c p ms = Ok false.
Proof.
  intros Hp. induction 1 as [|mill rest Hmill _ IH]; cbn [mill_among]; [done |].
  rewrite bool_decide_false; [exact IH |].
  intros Hin. rewrite Forall_forall in Hmill. specialize (Hmill p Hin). lia.
Qed.

(** What [is_mill] and [can_remove] answer for a negative index. *)
Lemma negative_index (g : game) (p : Z) :
  wf g -> -24 <= p < 0 ->
  is_mill g p = Ok false
  /\ (can_remove g p = Ok true
      <-> exists c, board g !! Z.to_nat (24 + p) = Some (Some c)
                    /\ c <> current_player g).
Proof.
  intros Hwf Hp.
  destruct (py_index_valid (board g) p Hwf) as (k & Hk & Hlt & _);
    [unfold py_valid; lia |].
  assert (k = Z.to_nat (24 + p)) as ->.
  { unfold py_index in Hk. rewrite Hwf in Hk.
    destruct (Z.leb_spec 0 p); [lia |]. cbn [andb] in Hk.
    destruct (Z.leb_spec (- Z.of_nat 24) p); [| lia].
    destruct (Z.ltb_spec p 0); [| lia]. cbn in Hk. injection Hk as <-. lia. }
  destruct (lookup_lt_is_Some_2 (board g) (Z.to_nat (24 + p))) as [x Hx];
    [rewrite Hwf; lia |].
  assert (Hmill : is_mill g p = Ok false).
  { unfold is_mill, getitem. rewrite Hk. cbn [mbind res_bind]. rewrite Hx.
    destruct x as [c|]; [| done].
    apply mill_among_negative; [lia | exact mills_in_range]. }
  split; [exact Hmill |].
  unfold can_remove. unfold getitem at 1. rewrite Hk. cbn [mbind res_bind].
  rewrite Hx. destruct x as [c|]; cbn [mbind res_bind].
  - case_bool_decide as Hc.
    + split; [discriminate | intros (c' & [= <-] & Hne); done].
    + rewrite Hmill. cbn. split; [intros _; by exists c | done].
  - split; [discriminate | intros (c' & [=] & _)].
Qed.

(** X6. A negative index addresses a point of the board from its end,
    but no line lists it: for an index -24..-1 [is_mill] answers [False]
    whatever stands there, so [can_remove] accepts every opposing piece
    addressed that way, also one inside a mill. *)
Theorem negative_index_is_never_in_a_mill (g : game) (p : Z) :
  wf g -> -24 <= p < 0 ->
  is_mill g p = Ok false
  /\ (can_remove g p = Ok true
      <-> exists c, board g !! Z.to_nat (24 + p) = Some (Some c)
                    /\ c <> current_player g).
Proof. apply negative_index. Qed.

Lemma negative_index_is_never_in_a_mill_witness :
  is_mill all_black_in_mill (-23) = Ok false
  /\ can_remove all_black_in_mill (-23) = Ok true.
Proof.
  destruct (negative_index_is_never_in_a_mill all_black_in_mill (-23))
    as [Hmill Hcan]; [reflexivity | lia |].
  split; [exact Hmill |]. apply Hcan. exists black.
  split; [reflexivity | discriminate].
Defined.

(** *** The move log and the turn *)

Lemma relocate_log from_pos to_pos g :
  ensures (relocate from_pos to_pos) g (λ _ g1, moves g1 = moves g).
Proof.
  unfold relocate, board_get_opt, adjacents_get.
  apply step_gets. destruct from_pos as [i|]; [| by apply step_lift].
  repeat step; done.
Qed.

Lemma move_piece_log from_pos to_pos g :
  ensures (move_piece from_pos to_pos) g (λ _ g1, moves g1 = moves g).
Proof.
  unfold move_piece. apply step_gets. destruct (phase g) eqn:Hphase.
  - repeat step; done.
  - apply ensures_bind.
    eapply ensures_weaken; [apply relocate_log |].
    intros [[m|]|e] g1 Hg1; unfold and_then; try done; repeat step; done.
  - apply relocate_log.
Qed.

Lemma conclude_move_inv from_pos to_pos rm mill g v g' :
  conclude_move from_pos to_pos rm mill g = (Ok v, g') ->
  exists pr g1 removable,
    capture mill rm g = (Ok pr, g1)
    /\ v = ReturnDict true mill (mill && bool_decide (rm = None) && removable)
    /\ g' = (if negb mill || (mill && pr) || (mill && negb removable)
             then with_player (other (current_player g1)) else id)
              (log_move
                 {| mv_from := from_pos; mv_to := Some to_pos;
                    mv_remove := if pr then rm else None;
                    mv_player := current_player g1; mv_mill := mill;
                    mv_timers := None |} g1).
Proof.
  intros Hrun.
  destruct (capture mill rm g) as [[pr|e] g1] eqn:Hcap.
  2:{ unfold conclude_move in Hrun. by rewrite (bind_raise _ _ _ _ _ Hcap) in Hrun. }
  destruct (can_remove_any mill g1) as [[removable|e] g2] eqn:Hany;
    pose proof (can_remove_any_state _ _ _ _ Hany) as ->.
  2:{ unfold conclude_move in Hrun.
      by rewrite (bind_ok _ _ _ _ _ Hcap), (bind_raise _ _ _ _ _ Hany) in Hrun. }
  rewrite (conclude_move_run _ _ _ _ _ _ _ _ Hcap Hany) in Hrun.
  injection Hrun as <- <-. by exists pr, g1, removable.
Qed.

(** X7. Every move that [make_move] carries out reports success and is
    logged once, at the end of the move log, with the mover, the
    request's [from] and [to], the mill flag of the result and either no
    removal or the requested one.  Without a mill the turn passes to the
    opponent; when the result asks for a removal the mover stays on
    turn. *)
Theorem carried_out_move_is_logged (g g' : game) (from_pos : option Z)
  (to_pos : Z) (remove_pos : option Z) (success mill waiting : bool) :
  make_move from_pos to_pos remove_pos g
    = (Ok (ReturnDict success mill waiting), g') ->
  success = true
  /\ (exists removed,
        (removed = None \/ removed = remove_pos)
        /\ moves g'
           = moves g
             ++ [ {| mv_from := from_pos; mv_to := Some to_pos;
                     mv_remove := removed; mv_player := current_player g;
                     mv_mill := mill; mv_timers := None |} ])
  /\ (mill = false -> current_player g' = other (current_player g))
  /\ (waiting = true ->
      mill = true /\ remove_pos = None
      /\ current_player g' = current_player g).
Proof.
  intros Hrun. unfold make_move, mbind, M_bind in Hrun.
  destruct (move_piece from_pos to_pos g) as [[[m|]|e] g1] eqn:Hmove;
    try discriminate.
  pose proof (keeps_move_piece _ _ _ _ _ Hmove) as Hturn.
  pose proof (ensures_run _ _ _ _ _ (move_piece_log from_pos to_pos g) Hmove)
    as Hlog. cbn beta in Hlog.
  destruct (conclude_move_inv _ _ _ _ _ _ _ Hrun)
    as (pr & g2 & removable & Hcap & [= -> <- ->] & ->).
  pose proof (capture_player _ _ _ _ _ Hcap) as Hturn2.
  assert (Hlog2 : moves g2 = moves g1).
  { destruct (capture_cases _ _ _ _ _ Hcap)
      as [[-> _]|(p & k & _ & _ & _ & _ & _ & ->)]; done. }
  assert (Hpr : pr = true -> mill = true /\ remove_pos <> None).
  { intros ->. destruct (capture_cases _ _ _ _ _ Hcap)
      as [[_ Hne]|(p & k & -> & -> & _)]; done. }
  split; [done |]. split; [| split].
  - exists (if pr then remove_pos else None).
    split; [destruct pr; auto |].
    rewrite Hturn2, Hturn.
    destruct (negb mill || mill && pr || mill && negb removable);
      cbn; by rewrite Hlog2, Hlog.
  - intros ->. cbn. by rewrite Hturn2, Hturn.
  - intros Hw. apply andb_true_iff in Hw as [[-> Hrm]%andb_true_iff ->].
    apply bool_decide_eq_true in Hrm as ->.
    destruct pr; [by destruct Hpr as [_ ?] |].
    cbn. by rewrite Hturn2, Hturn.
Qed.

Lemma carried_out_move_is_logged_witness :
  moves (snd (make_move None 2 None white_about_to_mill))
  = [ {| mv_from := None; mv_to := Some 2; mv_remove := None;
         mv_player := white; mv_mill := true; mv_timers := None |} ]
  /\ current_player (snd (make_move None 2 None white_about_to_mill)) = white.
Proof.
  destruct (carried_out_move_is_logged white_about_to_mill
              (snd (make_move None 2 None white_about_to_mill))
              None 2 None true true true)
    as (_ & (removed & [-> | ->] & Hlog) & _ & Hwait);
    [vm_compute; reflexivity | | ];
    (split; [exact Hlog | by apply Hwait]).
Defined.

(** *** Points off the board *)

Lemma py_index_off {A : Type} (l : list A) (i : Z) :
  length l = 24%nat -> ~ py_valid i -> py_index l i = Raise IndexError.
Proof.
  intros Hlen Hi. unfold py_index, py_valid in *. rewrite Hlen.
  destruct (Z.leb_spec 0 i), (Z.ltb_spec i (Z.of_nat 24)); cbn; try lia;
    destruct (Z.leb_spec (- Z.of_nat 24) i), (Z.ltb_spec i 0); cbn; try lia; done.
Qed.

(** X8. In the placing phase a target that is no index of the board
    (below -24 or above 23) makes [make_move] raise [IndexError] before
    anything is changed. *)
Theorem placing_off_the_board_raises (g : game) (from_pos : option Z)
  (to_pos : Z) (remove_pos : option Z) :
  wf g -> phase g = placing -> ~ py_valid to_pos ->
  make_move from_pos to_pos remove_pos g = (Raise IndexError, g).
Proof.
  intros Hwf Hphase Hto.
  unfold make_move, move_piece, board_get, mbind, M_bind.
  rewrite gets_run, Hphase, lift_run.
  unfold getitem. by rewrite (py_index_off _ _ Hwf Hto).
Qed.

Lemma placing_off_the_board_raises_witness :
  make_move None 24 None white_about_to_mill
  = (Raise IndexError, white_about_to_mill).
Proof.
  apply placing_off_the_board_raises; [reflexivity | reflexivity |].
  unfold py_valid. lia.
Defined.

(** X9. After the placing phase a negative [from_pos] can pass the
    ownership test, since it addresses a point from the end of the
    board, but the table of neighbours has no negative key: with a free
    target and a mover who has not exactly three pieces the call raises
    [KeyError] and changes nothing. *)
Theorem negative_from_raises_key_error (g : game) (from_pos to_pos : Z)
  (remove_pos : option Z) :
  phase g <> placing ->
  from_pos < 0 ->
  getitem (board g) from_pos = Ok (Some (current_player g)) ->
  getitem (board g) to_pos = Ok None ->
  count_pieces (current_player g) (board g) <> 3 ->
  make_move (Some from_pos) to_pos remove_pos g = (Raise KeyError, g).
Proof.
  intros Hphase Hneg Hfrom Hto Hcount.
  assert (Hadj : adjacents from_pos = None) by (by destruct from_pos).
  assert (Hrel : relocate (Some from_pos) to_pos g = (Raise KeyError, g)).
  { unfold relocate, board_get_opt, board_get, adjacents_get, mbind, M_bind.
    rewrite gets_run, lift_run, Hfrom.
    rewrite bool_decide_false by (intros H; by apply H).
    rewrite lift_run, Hto. rewrite bool_decide_false by (intros H; by apply H).
    rewrite gets_run.
    destruct (Z.eqb_spec (count_pieces (current_player g) (board g)) 3); [done |].
    rewrite lift_run. cbn [default from_option id]. by rewrite Hadj. }
  unfold make_move, move_piece, mbind, M_bind. rewrite gets_run.
  destruct (phase g); [done | |]; by rewrite Hrel.
Qed.

Lemma negative_from_raises_key_error_witness :
  make_move (Some (-4)) 19 None four_each = (Raise KeyError, four_each).
Proof.
  apply negative_from_raises_key_error;
    [discriminate | lia | reflexivity | reflexivity | vm_compute; discriminate].
Defined.

(** *** Phases and hands *)

Lemma advances_refl g : advances g g.
Proof. unfold advances. do 4 (split; [lia |]). intros _. lia. Qed.

Lemma advances_trans g1 g2 g3 :
  advances g1 g2 -> advances g2 g3 -> advances g1 g3.
Proof.
  unfold advances. intros (H1 & H2 & H3 & H4 & H5) (K1 & K2 & K3 & K4 & K5).
  do 4 (split; [lia |]).
  intros Hp. destruct (H5 Hp) as (? & ? & ?).
  assert (Hp2 : phase g2 <> placing)
    by (destruct (phase g1), (phase g2); cbn in *; try done; lia).
  destruct (K5 Hp2) as (? & ? & ?). lia.
Qed.

Ltac counters :=
  unfold advances, take_from_hand, with_phase, with_board, with_player,
    log_move in *; cbn;
  repeat match goal with
         | H : phase _ = _ |- _ => rewrite H
         | |- context [current_player ?g] => destruct (current_player g)
         end; cbn;
  repeat split; try lia; try done.

Lemma relocate_advances from_pos to_pos g :
  ensures (relocate from_pos to_pos) g (λ _ g', advances g g').
Proof.
  unfold relocate, board_get_opt, adjacents_get.
  apply step_gets. destruct from_pos as [i|];
    [| apply step_lift; [done | intros; apply advances_refl]].
  repeat step; try apply advances_refl; counters.
Qed.

Lemma move_piece_advances from_pos to_pos g :
  ensures (move_piece from_pos to_pos) g (λ _ g', advances g g').
Proof.
  unfold move_piece. apply step_gets. destruct (phase g) eqn:Hphase.
  - repeat step; try apply advances_refl; counters.
  - apply ensures_bind.
    eapply ensures_weaken; [apply relocate_advances |].
    intros [[m|]|e] g1 Hg1; unfold and_then; try done;
      repeat step; try done;
      (eapply advances_trans; [exact Hg1 |]); counters;
      destruct (phase g1); cbn; lia.
  - apply relocate_advances.
Qed.

Lemma conclude_move_advances from_pos to_pos rm mill g :
  ensures (conclude_move from_pos to_pos rm mill) g (λ _ g', advances g g').
Proof.
  unfold conclude_move, capture, can_remove_any.
  destruct mill, rm as [r|]; repeat step; try apply advances_refl; counters.
Qed.

(** X22. However a call of [make_move] ends, the game is not taken back
    to an earlier phase, no hand grows, every piece that left a hand was
    counted as placed, and outside the placing phase the hands and the
    count of placed pieces are not touched. *)
Theorem make_move_never_goes_back (g : game) (from_pos : option Z)
  (to_pos : Z) (remove_pos : option Z) :
  advances g (snd (make_move from_pos to_pos remove_pos g)).
Proof.
  change (ensures (make_move from_pos to_pos remove_pos) g
            (λ _ g', advances g g')).
  apply make_move_ensures.
  eapply ensures_weaken; [apply move_piece_advances |].
  intros [[m|]|e] g1 Hg1; try done.
  eapply ensures_weaken; [apply conclude_move_advances |].
  intros r g2 Hg2. by eapply advances_trans.
Qed.

End BoardMore.

(** ** Board engine: the capture after a mill *)

Module BoardRules.

Import Board BoardLogic BoardFacts BoardMore.

#[local] Opaque mills.

(** *** Where the piece of a move stands *)

Lemma py_index_lt {A : Type} (l : list A) (i : Z) (k : nat) :
  py_index l i = Ok k -> (k < length l)%nat.
Proof.
  unfold py_index.
  destruct (Z.leb_spec 0 i), (Z.ltb_spec i (Z.of_nat (length l))); cbn;
    try (intros [= <-]; lia);
    destruct (Z.leb_spec (- Z.of_nat (length l)) i), (Z.ltb_spec i 0); cbn;
    try discriminate; intros [= <-]; lia.
Qed.

Lemma getitem_after_set {A : Type} (l l' : list A) (j : Z) (v : A) :
  setitem l j v = Ok l' -> getitem l' j = Ok v.
Proof.
  intros (k & Hk & ->)%setitem_insert. unfold getitem.
  rewrite (py_index_length l) by apply length_insert. rewrite Hk.
  cbn [mbind res_bind].
  by rewrite list_lookup_insert_eq by (by eapply py_index_lt).
Qed.

(** A piece of [me] taken from [i] and put on the free point [j]. *)
Lemma relocated (me : color) (b b1 b2 : list cell) (i j : Z) :
  getitem b i = Ok (Some me) ->
  getitem b j = Ok None ->
  setitem b i None = Ok b1 ->
  setitem b1 j (Some me) = Ok b2 ->
  getitem b2 i = Ok None /\ getitem b2 j = Ok (Some me).
Proof.
  intros Hi Hj H1 H2. split; [| by eapply getitem_after_set].
  apply getitem_lookup in Hi as (ki & Hki & Hi).
  apply getitem_lookup in Hj as (kj & Hkj & Hj).
  apply setitem_insert in H1 as (k1 & Hk1 & ->).
  apply setitem_insert in H2 as (k2 & Hk2 & ->).
  rewrite (py_index_length b) in Hk2 by apply length_insert.
  assert (k1 = ki) as -> by congruence. assert (k2 = kj) as -> by congruence.
  assert (ki <> kj) by (intros ->; congruence).
  unfold getitem. rewrite !(py_index_length b), Hki by (by rewrite !length_insert).
  cbn [mbind res_bind].
  rewrite list_lookup_insert_ne by done.
  by rewrite list_lookup_insert_eq by (by eapply py_index_lt).
Qed.

Lemma relocate_puts from_pos to_pos g :
  ensures (relocate from_pos to_pos) g
    (λ r g1, forall m, r = Ok (Some m) ->
       getitem (board g1) to_pos = Ok (Some (current_player g))
       /\ exists i, from_pos = Some i /\ getitem (board g1) i = Ok None).
Proof.
  unfold relocate, board_get_opt, adjacents_get.
  apply step_gets. destruct from_pos as [i|]; [| by apply step_lift].
  repeat step; try done; intros m _; cbn [default board with_board] in *;
    repeat match goal with
           | H : bool_decide _ = false |- _ =>
               apply bool_decide_eq_false in H; apply dec_stable in H
           end; simplify_eq;
    (edestruct relocated as [Hfrom Hto]; [done .. |]);
    (split; [exact Hto | by exists i]).
Qed.

Lemma move_piece_puts from_pos to_pos g :
  ensures (move_piece from_pos to_pos) g
    (λ r g1, forall m, r = Ok (Some m) -> piece_put g from_pos to_pos g1).
Proof.
  unfold move_piece, piece_put. apply step_gets. destruct (phase g) eqn:Hp.
  - repeat step; try done; intros m _;
      cbn [board with_board with_phase take_from_hand] in *;
      (split; [by eapply getitem_after_set | done]).
  - apply ensures_bind.
    eapply ensures_weaken; [apply relocate_puts |].
    intros [[m|]|e] g1 Hg1; unfold and_then; try done; repeat step; try done;
      intros ? _; cbn [board with_phase];
      destruct (Hg1 m eq_refl) as [Hto Hfrom]; by split.
  - eapply ensures_weaken; [apply relocate_puts |].
    cbn. intros r g1 Hg1 m Hm. destruct (Hg1 m Hm) as [Hto Hfrom]. by split.
Qed.

(** The facts about the object [g1] that the first part of [make_move]
    leaves. *)
Lemma after_move_piece from_pos to_pos g m g1 :
  move_piece from_pos to_pos g = (Ok (Some m), g1) ->
  current_player g1 = current_player g
  /\ moves g1 = moves g
  /\ piece_put g from_pos to_pos g1
  /\ (forall c,
        count_pieces c (board g1)
        = count_pieces c (board g)
          + (if bool_decide (phase g = placing /\ c = current_player g)
             then 1 else 0)).
Proof.
  intros Hmove.
  split; [by eapply keeps_move_piece |].
  split; [exact (ensures_run _ _ _ _ _ (move_piece_log from_pos to_pos g) Hmove) |].
  split; [by eapply (ensures_run _ _ _ _ _ (move_piece_puts from_pos to_pos g) Hmove) |].
  intros c.
  by eapply (ensures_run _ _ _ _ _ (move_piece_counts from_pos to_pos g c) Hmove).
Qed.

(** *** The second part of [make_move] after a mill *)



(** The capture is refused or not asked for: nothing is removed, the
    move is logged without a removal, and the turn passes exactly when
    no piece was removable. *)
Lemma conclude_without_capture from_pos to_pos rm g removable :
  capture true rm g = (Ok false, g) ->
  any_removable g (positions_of (other (current_player g)) (board g) 0)
  = Ok removable ->
  exists g',
    conclude_move from_pos to_pos rm true g
    = (Ok (ReturnDict true true (bool_decide (rm = None) && removable)), g')
    /\ board g' = board g
    /\ phase g' = phase g
    /\ moves g'
       = moves g
         ++ [ {| mv_from := from_pos; mv_to := Some to_pos; mv_remove := None;
                 mv_player := current_player g; mv_mill := true;
                 mv_timers := None |} ]
    /\ current_player g'
       = (if removable then current_player g else other (current_player g)).
Proof.
  intros Hcap Hany.
  rewrite (conclude_move_run from_pos to_pos rm true g false g removable Hcap)
    by (unfold can_remove_any; by rewrite lift_run, Hany).
  eexists. split; [reflexivity |]. by destruct removable.
Qed.


(** C10. A mill is formed, the request names a point that may not be
    captured, and some other opposing piece may be: the call returns
    success with [mill_formed] and without [waiting_for_removal].  The
    piece has been placed or moved: the mover's piece stands on
    [to_pos], after the placing phase its old point is empty, and the
    mover has one piece more on the board in the placing phase and as
    many as before otherwise.  No piece is removed: the board is the
    one after the placement and the opponent has as many pieces as
    before.  The move is appended to the move log, without a removal.
    The mover stays on turn. *)
Theorem illegal_capture_request_keeps_turn (g g1 : game) (from_pos : option Z)
  (to_pos r : Z) :
  move_piece from_pos to_pos g = (Ok (Some true), g1) ->
  can_remove g1 r = Ok false ->
  any_removable g1 (positions_of (other (current_player g1)) (board g1) 0)
    = Ok true ->
  exists g',
    make_move from_pos to_pos (Some r) g = (Ok (ReturnDict true true false), g')
    /\ getitem (board g') to_pos = Ok (Some (current_player g))
    /\ (phase g <> placing ->
        exists i, from_pos = Some i /\ getitem (board g') i = Ok None)
    /\ count_pieces (current_player g) (board g')
       = count_pieces (current_player g) (board g)
         + (if bool_decide (phase g = placing) then 1 else 0)
    /\ board g' = board g1
    /\ count_pieces (other (current_player g)) (board g')
       = count_pieces (other (current_player g)) (board g)
    /\ moves g'
       = moves g
         ++ [ {| mv_from := from_pos; mv_to := Some to_pos; mv_remove := None;
                 mv_player := current_player g; mv_mill := true;
                 mv_timers := None |} ]
    /\ current_player g' = current_player g.
Proof.
  intros Hmove Hcan Hany.
  destruct (after_move_piece _ _ _ _ _ Hmove) as (Hturn & Hlog & [Hto Hfrom] & Hcount).
  assert (Hcap : capture true (Some r) g1 = (Ok false, g1)).
  { unfold capture, mbind, M_bind. by rewrite lift_run, Hcan. }
  destruct (conclude_without_capture from_pos to_pos (Some r) g1 true Hcap Hany)
    as (g' & Hrun & Hboard & _ & Hmoves & Hplayer).
  exists g'. unfold make_move. rewrite (bind_ok _ _ _ _ _ Hmove).
  split; [exact Hrun |]. rewrite Hboard, Hmoves, Hplayer, Hlog, Hturn.
  split; [exact Hto |]. split; [exact Hfrom |].
  split.
  { rewrite Hcount. repeat case_bool_decide; destruct_and?; try done; tauto. }
  split; [done |]. split; [| done].
  rewrite Hcount. rewrite bool_decide_false; [lia |].
  intros [_ Hc]. by destruct (current_player g).
Qed.

Lemma illegal_capture_request_keeps_turn_witness :
  exists g',
    make_move None 2 (Some 3) white_about_to_mill
    = (Ok (ReturnDict true true false), g')
    /\ getitem (board g') 2 = Ok (Some white)
    /\ length (moves g') = 1%nat
    /\ current_player g' = white.
Proof.
  destruct (illegal_capture_request_keeps_turn white_about_to_mill
              (placed 2 white_about_to_mill) None 2 3)
    as (g' & Hrun & Hto & _ & _ & _ & _ & Hmoves & Hplayer);
    [vm_compute; reflexivity ..|].
  exists g'. split; [exact Hrun |]. split; [exact Hto |].
  split; [by rewrite Hmoves | exact Hplayer].
Defined.



End BoardRules.

(** ** Pairing engine *)

Module PairingFacts.

Import Tournament Pairing.

(** *** The walk order *)

Lemma insert_desc_perm (x : entry) (l : list entry) : insert_desc x l ≡ₚ x :: l.
Proof.
  induction l as [|y rest IH]; cbn; [done |].
  destruct (key_lt x y); [| done].
  rewrite IH. apply Permutation_swap.
Qed.

Lemma sort_desc_perm (l : list entry) : sort_desc l ≡ₚ l.
Proof.
  induction l as [|x rest IH]; cbn; [done |].
  by rewrite insert_desc_perm, IH.
Qed.

Lemma key_lt_spec (a b : entry) :
  key_lt a b = true
  <-> e_score a < e_score b \/ (e_score a = e_score b /\ e_rating a < e_rating b).
Proof.
  unfold key_lt.
  rewrite orb_true_iff, andb_true_iff, !Z.ltb_lt, Z.eqb_eq. tauto.
Qed.

Lemma key_ge_spec (a b : entry) :
  key_ge a b
  <-> e_score b < e_score a \/ (e_score a = e_score b /\ e_rating b <= e_rating a).
Proof.
  unfold key_ge. rewrite <- not_true_iff_false, key_lt_spec. lia.
Qed.

Lemma key_ge_trans (a b c : entry) : key_ge a b -> key_ge b c -> key_ge a c.
Proof. rewrite !key_ge_spec. lia. Qed.

Lemma key_ge_total (a b : entry) : key_lt a b = true -> key_ge b a.
Proof. rewrite key_lt_spec, key_ge_spec. lia. Qed.

Lemma insert_desc_sorted (x : entry) (l : list entry) :
  StronglySorted key_ge l -> StronglySorted key_ge (insert_desc x l).
Proof.
  induction 1 as [|y rest Hsorted IH Hall]; cbn.
  - repeat constructor.
  - destruct (key_lt x y) eqn:Hxy.
    + constructor; [exact IH |].
      rewrite insert_desc_perm. constructor; [by apply key_ge_total | exact Hall].
    + constructor; [by constructor |].
      constructor; [exact Hxy |].
      eapply Forall_impl; [exact Hall |]. intros z Hz.
      by apply key_ge_trans with y.
Qed.

Lemma sort_desc_sorted (l : list entry) : StronglySorted key_ge (sort_desc l).
Proof.
  induction l as [|x rest IH]; cbn; [constructor | by apply insert_desc_sorted].
Qed.

(** *** The two loops against the round as the specification words it *)

Lemma find_opponent_first (st : registry) (tid : string) (paired : gset string)
  (player : entry) (candidates : list entry) :
  find_opponent st tid paired player
    (get_last_opponent st tid (username player)) candidates
  = snd <$> list_find
              (λ c, (username c ∉ paired)
                    ∧ may_meet st tid (username player) (username c))
              candidates.
Proof.
  induction candidates as [|c rest IH]; [done |].
  cbn [find_opponent list_find]. unfold may_meet at 1.
  case_bool_decide as Hp.
  { rewrite decide_False by tauto. rewrite IH.
    by destruct (list_find _ rest) as [[? ?]|]. }
  case_bool_decide as Hl.
  { rewrite decide_False by (intros (_ & Hne & _); congruence).
    rewrite IH. by destruct (list_find _ rest) as [[? ?]|]. }
  case_bool_decide as Hc.
  { rewrite decide_False by (intros (_ & _ & Hne); congruence).
    rewrite IH. by destruct (list_find _ rest) as [[? ?]|]. }
  rewrite decide_True; [done |].
  repeat split; [done | congruence | congruence].
Qed.

Lemma pair_players_spec (st : registry) (tid : string) (paired : gset string)
  (walk : list entry) :
  pair_players st tid paired walk = spec_round st tid paired walk.
Proof.
  revert paired. induction walk as [|player later IH]; intros paired; [done |].
  cbn [pair_players spec_round]. rewrite find_opponent_first.
  case_bool_decide; [apply IH |].
  destruct (list_find _ later) as [[i c]|]; cbn; [by rewrite IH | apply IH].
Qed.

Lemma spec_round_may_meet (st : registry) (tid : string) (paired : gset string)
  (walk : list entry) (a b : string) :
  (a, b) ∈ spec_round st tid paired walk -> may_meet st tid a b.
Proof.
  revert paired. induction walk as [|player later IH]; intros paired; cbn.
  - intros H. inversion H.
  - case_bool_decide; [apply IH |].
    destruct (list_find _ later) as [[i c]|] eqn:Hfind; [| apply IH].
    rewrite elem_of_cons. intros [[= -> ->]|Hin]; [| by eapply IH].
    apply list_find_Some in Hfind as (_ & [_ Hmeet] & _). exact Hmeet.
Qed.

Lemma spec_round_names (st : registry) (tid : string) (paired : gset string)
  (walk : list entry) (a b : string) :
  (a, b) ∈ spec_round st tid paired walk ->
  a ∈ username <$> walk /\ b ∈ username <$> walk.
Proof.
  revert paired. induction walk as [|player later IH]; intros paired; cbn.
  - intros H. inversion H.
  - assert (Hlater : forall s, (a, b) ∈ spec_round st tid s later ->
              a ∈ username player :: (username <$> later)
              /\ b ∈ username player :: (username <$> later)).
    { intros s Hin. destruct (IH s Hin). split; by right. }
    case_bool_decide; [apply Hlater |].
    destruct (list_find _ later) as [[i c]|] eqn:Hfind; [| apply Hlater].
    rewrite elem_of_cons. intros [[= -> ->]|Hin]; [| by eapply Hlater].
    apply list_find_Some in Hfind as (Hc & _ & _).
    split; [by left | right]. apply list_elem_of_fmap. exists c.
    split; [done |]. by eapply list_elem_of_lookup_2.
Qed.

(** A player without an eligible later candidate gets no partner. *)
Lemma spec_round_left_unpaired (st : registry) (tid : string)
  (paired : gset string) (player : entry) (later : list entry) (a b : string) :
  NoDup (username <$> player :: later) ->
  username player ∉ paired ->
  (forall c, c ∈ later ->
     username c ∈ paired \/ ~ may_meet st tid (username player) (username c)) ->
  (a, b) ∈ spec_round st tid paired (player :: later) ->
  a <> username player /\ b <> username player.
Proof.
  intros Hnodup Hfree Hnone. cbn [spec_round].
  rewrite bool_decide_false by done.
  destruct (list_find _ later) as [[i c]|] eqn:Hfind.
  - apply list_find_Some in Hfind as (Hc & [Hcfree Hmeet] & _).
    apply list_elem_of_lookup_2 in Hc.
    destruct (Hnone c Hc); done.
  - intros Hin. apply spec_round_names in Hin as [Ha Hb].
    rewrite fmap_cons in Hnodup. apply NoDup_cons in Hnodup as [Hnotin _].
    split; intros ->; done.
Qed.

Lemma last_opponent_recorded (st : registry) (tid a b : string) :
  get_last_opponent (set_last_opponent tid a b st) tid a = Some b
  /\ get_last_opponent (set_last_opponent tid a b st) tid b = Some a.
Proof.
  unfold get_last_opponent, set_last_opponent. cbn.
  rewrite lookup_insert_eq. split.
  - destruct (decide (b = a)) as [->|Hne];
      [by rewrite lookup_insert_eq |].
    by rewrite lookup_insert_ne, lookup_insert_eq.
  - by rewrite lookup_insert_eq.
Qed.

Lemma pairing_as_spec (st : registry) (tid : string) (a b : string) :
  (a, b) ∈ lichess_style_pairing st tid -> may_meet st tid a b.
Proof.
  unfold lichess_style_pairing.
  destruct (tournaments st !! tid) as [t|]; [| intros H; inversion H].
  case_bool_decide; [intros H'; inversion H' |].
  rewrite pair_players_spec. apply spec_round_may_meet.
Qed.

Lemma example_round :
  lichess_style_pairing example_registry "arena"
  = [("player1", "player2"); ("player3", "player4")]%string.
Proof. vm_compute. reflexivity. Qed.

(** C3. One pairing round of an active tournament walks the available
    pool sorted descending by score, then rating; it pairs each player
    not yet paired with the first later candidate that is not yet paired
    and is neither the player's recorded last opponent nor has the
    player as its own; a player without such a candidate stays
    unpaired.  So no pair of the round joins a player with its recorded
    last opponent, two players whose game was just recorded are not
    paired with each other in the next round, and the scores 10, 10, 8,
    8 without recorded opponents give player1-player2 and
    player3-player4. *)
Theorem pairing_round_rules (st : registry) (tid : string) (t : tournament) :
  tournaments st !! tid = Some t ->
  status t = active ->
  let pool := available_players st (players t) in
  let walk := sort_desc pool in
  walk ≡ₚ pool
  /\ StronglySorted key_ge walk
  /\ lichess_style_pairing st tid = spec_round st tid ∅ walk
  /\ (forall a b, (a, b) ∈ lichess_style_pairing st tid ->
        get_last_opponent st tid a <> Some b
        /\ get_last_opponent st tid b <> Some a)
  /\ (forall paired player later a b,
        NoDup (username <$> player :: later) ->
        username player ∉ paired ->
        (forall c, c ∈ later ->
           username c ∈ paired
           \/ ~ may_meet st tid (username player) (username c)) ->
        (a, b) ∈ pair_players st tid paired (player :: later) ->
        a <> username player /\ b <> username player)
  /\ (forall a b,
        ((a, b) ∉ lichess_style_pairing (set_last_opponent tid a b st) tid)
        /\ ((b, a) ∉ lichess_style_pairing (set_last_opponent tid a b st) tid))
  /\ lichess_style_pairing example_registry "arena"
     = [("player1", "player2"); ("player3", "player4")]%string.
Proof.
  intros Ht Hactive pool walk.
  split; [apply sort_desc_perm |].
  split; [apply sort_desc_sorted |].
  split.
  { unfold lichess_style_pairing. rewrite Ht.
    rewrite bool_decide_false by (intros H; by apply H).
    apply pair_players_spec. }
  split; [intros a b; apply pairing_as_spec |].
  split.
  { intros paired player later a b Hnodup Hfree Hnone.
    rewrite pair_players_spec. by apply spec_round_left_unpaired. }
  split; [| exact example_round].
  intros a b.
  destruct (last_opponent_recorded st tid a b) as [Hab Hba].
  split; intros Hin; apply pairing_as_spec in Hin as [H1 H2]; congruence.
Qed.

Lemma pairing_round_rules_witness :
  sort_desc (available_players example_registry (players arena))
  = [mkEntry "player1" 10 100; mkEntry "player2" 10 100;
     mkEntry "player3" 8 100; mkEntry "player4" 8 100]%string
  /\ lichess_style_pairing example_registry "arena"
     = spec_round example_registry "arena" ∅
         (sort_desc (available_players example_registry (players arena))).
Proof.
  split; [vm_compute; reflexivity |].
  destruct (pairing_round_rules example_registry "arena" arena)
    as (_ & _ & Hspec & _); [reflexivity | reflexivity |].
  exact Hspec.
Defined.

End PairingFacts.

(** ** Tournament scoring *)

Module ScoringFacts.

Import Tournament Scoring.

(** *** The ordered dict *)

Lemma dict_get_alter_eq {V : Type} (f : V -> V) (k : string) (d : list (string * V)) :
  dict_get k (dict_alter f k d) = f <$> dict_get k d.
Proof.
  induction d as [|[k' v] rest IH]; [done |]. cbn.
  case_bool_decide as Hk; cbn; rewrite ?bool_decide_true, ?bool_decide_false by done;
    [done | exact IH].
Qed.

Lemma dict_get_alter_ne {V : Type} (f : V -> V) (k n : string) (d : list (string * V)) :
  k <> n -> dict_get n (dict_alter f k d) = dict_get n d.
Proof.
  intros Hne. induction d as [|[k' v] rest IH]; [done |]. cbn.
  case_bool_decide as Hk; cbn.
  - subst k'. by rewrite !bool_decide_false by done.
  - case_bool_decide; [done | exact IH].
Qed.

Lemma dict_has_alter {V : Type} (f : V -> V) (k n : string) (d : list (string * V)) :
  dict_has n (dict_alter f k d) = dict_has n d.
Proof.
  unfold dict_has. destruct (decide (k = n)) as [->|Hne].
  - rewrite dict_get_alter_eq. by destruct (dict_get n d).
  - by rewrite dict_get_alter_ne.
Qed.

Lemma score_alter (f : participant -> participant) (k n : string)
  (d : list (string * participant)) :
  (forall p, score (f p) = score p) ->
  score <$> dict_get n (dict_alter f k d) = score <$> dict_get n d.
Proof.
  intros Hf. destruct (decide (k = n)) as [->|Hne].
  - rewrite dict_get_alter_eq. destruct (dict_get n d); cbn; [by rewrite Hf | done].
  - by rewrite dict_get_alter_ne.
Qed.

Lemma dict_has_true {V : Type} (n : string) (d : list (string * V)) (v : V) :
  dict_get n d = Some v -> dict_has n d = true.
Proof. intros H. unfold dict_has. rewrite H. by apply bool_decide_true. Qed.

(** *** The three branches *)

Lemma record_win_self me opp c s b r ts :
  dict_has me ts.1 = true ->
  ts_score (record_win me opp c s b r ts) me
    = (λ x, x + win_points b (3 <=? s + 1)) <$> ts_score ts me
  /\ ts_streak (record_win me opp c s b r ts) me = s + 1.
Proof.
  destruct ts as [ps st]. cbn [fst]. intros Hin. unfold record_win. rewrite Hin.
  unfold ts_score, ts_streak. cbn [fst snd].
  rewrite dict_get_alter_eq, !lookup_insert_eq. cbn [default].
  split; [| done]. by destruct (dict_get me ps).
Qed.

Lemma record_loss_self me opp c b r ts :
  dict_has me ts.1 = true ->
  ts_score (record_loss me opp c b r ts) me = ts_score ts me
  /\ ts_streak (record_loss me opp c b r ts) me = 0.
Proof.
  destruct ts as [ps st]. cbn [fst]. intros Hin. unfold record_loss. rewrite Hin.
  unfold ts_score, ts_streak. cbn [fst snd].
  rewrite dict_get_alter_eq, !lookup_insert_eq. cbn [default].
  split; [| done]. by destruct (dict_get me ps).
Qed.

Lemma record_draw_self me opp c s b r ts :
  dict_has me ts.1 = true ->
  ts_score (record_draw me opp c s b r ts) me
    = (λ x, x + (if 3 <=? s then 2 else 1)) <$> ts_score ts me
  /\ ts_streak (record_draw me opp c s b r ts) me = 0.
Proof.
  destruct ts as [ps st]. cbn [fst]. intros Hin. unfold record_draw. rewrite Hin.
  unfold ts_score, ts_streak. cbn [fst snd].
  rewrite dict_get_alter_eq, !lookup_insert_eq. cbn [default].
  split; [| done]. by destruct (dict_get me ps).
Qed.

(** Each branch touches the row and the streak of its own player only. *)
Lemma record_win_other me opp c s b r ts n :
  me <> n ->
  ts_score (record_win me opp c s b r ts) n = ts_score ts n
  /\ ts_streak (record_win me opp c s b r ts) n = ts_streak ts n
  /\ dict_has n (record_win me opp c s b r ts).1 = dict_has n ts.1.
Proof.
  destruct ts as [ps st]. intros Hne. unfold record_win.
  destruct (dict_has me ps); [| done].
  unfold ts_score, ts_streak. cbn [fst snd].
  by rewrite dict_get_alter_ne, dict_has_alter, lookup_insert_ne.
Qed.

Lemma record_loss_other me opp c b r ts n :
  me <> n ->
  ts_score (record_loss me opp c b r ts) n = ts_score ts n
  /\ ts_streak (record_loss me opp c b r ts) n = ts_streak ts n
  /\ dict_has n (record_loss me opp c b r ts).1 = dict_has n ts.1.
Proof.
  destruct ts as [ps st]. intros Hne. unfold record_loss.
  destruct (dict_has me ps); [| done].
  unfold ts_score, ts_streak. cbn [fst snd].
  by rewrite dict_get_alter_ne, dict_has_alter, lookup_insert_ne.
Qed.

Lemma record_draw_other me opp c s b r ts n :
  me <> n ->
  ts_score (record_draw me opp c s b r ts) n = ts_score ts n
  /\ ts_streak (record_draw me opp c s b r ts) n = ts_streak ts n
  /\ dict_has n (record_draw me opp c s b r ts).1 = dict_has n ts.1.
Proof.
  destruct ts as [ps st]. intros Hne. unfold record_draw.
  destruct (dict_has me ps); [| done].
  unfold ts_score, ts_streak. cbn [fst snd].
  by rewrite dict_get_alter_ne, dict_has_alter, lookup_insert_ne.
Qed.

(** *** The whole update *)

Lemma ensure_streak_default (k n : string) (st : gmap string Z) :
  default 0 (ensure_streak k st !! n) = default 0 (st !! n).
Proof.
  unfold ensure_streak. destruct (st !! k) eqn:Hk; [done |].
  destruct (decide (k = n)) as [->|Hne].
  - by rewrite lookup_insert_eq, Hk.
  - by rewrite lookup_insert_ne.
Qed.

Lemma prepare_reads (w b : string) (t : tournament) (n : string) :
  ts_score (prepare w b t) n = score <$> dict_get n (players t)
  /\ ts_streak (prepare w b t) n = default 0 (streaks t ≫= (.!! n))
  /\ dict_has n (prepare w b t).1 = dict_has n (players t).
Proof.
  unfold prepare, ts_score, ts_streak. cbn [fst snd].
  rewrite !score_alter by done. rewrite !dict_has_alter, !ensure_streak_default.
  repeat split. by destruct (streaks t).
Qed.

Lemma update_reads (gd : Session.game_data) (winner : outcome) (wr br : Z)
  (tournaments : gmap string tournament) (tid : string) (t : tournament)
  (n : string) :
  Session.tournament_id gd = Some tid ->
  tid <> ""%string ->
  tournaments !! tid = Some t ->
  Session.tournament_points_disabled gd = false ->
  let ts := settle gd winner wr br
              (prepare (Session.gd_white gd) (Session.gd_black gd) t) in
  score_of (update_tournament_scores gd winner wr br tournaments) tid n
    = ts_score ts n
  /\ streak_of (update_tournament_scores gd winner wr br tournaments) tid n
     = ts_streak ts n.
Proof.
  intros Htid Hne Ht Hon. cbn zeta.
  unfold update_tournament_scores. rewrite Htid, bool_decide_false, Ht, Hon by done.
  destruct (settle _ _ _ _ _) as [ps st].
  unfold score_of, streak_of, ts_score, ts_streak.
  rewrite lookup_insert_eq. cbn. split; [| done].
  by destruct (dict_get n ps).
Qed.

(** C4. The score and the streak of a participant [me] who played the
    colour [c] in a scored tournament game: a win gives 2 points, 3
    with berserk, 4 once the streak including this win has reached 3,
    and 5 with both, and lengthens the streak by one; a loss gives
    nothing and a draw gives 1 point, or 2 when the streak before the
    game was at least 3, and both reset the streak to zero.  A player
    with a streak of 3 who wins with berserk gains 5 points and has a
    streak of 4. *)
Theorem tournament_scoring_rules (gd : Session.game_data) (wr br : Z)
  (tournaments : gmap string tournament) (tid : string) (t : tournament)
  (c : color) (p : participant) :
  Session.tournament_id gd = Some tid ->
  tid <> ""%string ->
  tournaments !! tid = Some t ->
  Session.tournament_points_disabled gd = false ->
  Session.gd_white gd <> Session.gd_black gd ->
  dict_get (side_name gd c) (players t) = Some p ->
  let me := side_name gd c in
  let streak := streak_of tournaments tid me in
  let after w := update_tournament_scores gd w wr br tournaments in
  (win_points false false = 2 /\ win_points true false = 3
   /\ win_points false true = 4 /\ win_points true true = 5)
  /\ (score_of (after (won_by c)) tid me
        = Some (score p + win_points (side_berserk gd c) (3 <=? streak + 1))
      /\ streak_of (after (won_by c)) tid me = streak + 1)
  /\ (score_of (after (won_by (other c))) tid me = Some (score p)
      /\ streak_of (after (won_by (other c))) tid me = 0)
  /\ (score_of (after DrawGame) tid me
        = Some (score p + (if 3 <=? streak then 2 else 1))
      /\ streak_of (after DrawGame) tid me = 0)
  /\ (streak = 3 -> side_berserk gd c = true ->
      score_of (after (won_by c)) tid me = Some (score p + 5)
      /\ streak_of (after (won_by c)) tid me = 4).
Proof.
  intros Htid Hne Ht Hon Hdistinct Hp me streak after.
  set (w := Session.gd_white gd) in *. set (b := Session.gd_black gd) in *.
  destruct (prepare_reads w b t me) as (Hscore0 & Hstreak0 & Hin0).
  fold me in Hp. rewrite Hp in Hscore0.
  change (score <$> Some p) with (Some (score p)) in Hscore0.
  rewrite (dict_has_true _ _ _ Hp) in Hin0.
  assert (Hstreak : ts_streak (prepare w b t) me = streak).
  { rewrite Hstreak0. subst streak. unfold streak_of. by rewrite Ht. }
  assert (Hwin : score_of (after (won_by c)) tid me
                   = Some (score p + win_points (side_berserk gd c) (3 <=? streak + 1))
                 /\ streak_of (after (won_by c)) tid me = streak + 1).
  { subst after. cbn beta.
    destruct (update_reads gd (won_by c) wr br tournaments tid t me
                Htid Hne Ht Hon) as [-> ->].
    fold w b. unfold settle. fold w b. subst me.
    destruct c; cbn [won_by side_name side_berserk] in *; fold w b in Hin0, Hscore0, Hstreak |- *.
    - destruct (record_loss_other b w black (Session.berserk gd).2 wr
                  (record_win w b white (default 0 ((prepare w b t).2 !! w))
                     (Session.berserk gd).1 br (prepare w b t)) w)
        as (-> & -> & _); [by apply not_eq_sym |].
      destruct (record_win_self w b white (default 0 ((prepare w b t).2 !! w))
                  (Session.berserk gd).1 br (prepare w b t) Hin0) as [-> ->].
      rewrite Hscore0. unfold ts_streak in Hstreak. rewrite Hstreak. done.
    - destruct (record_loss_other w b white (Session.berserk gd).1 br
                  (record_win b w black (default 0 ((prepare w b t).2 !! b))
                     (Session.berserk gd).2 wr (prepare w b t)) b)
        as (-> & -> & _); [done |].
      destruct (record_win_self b w black (default 0 ((prepare w b t).2 !! b))
                  (Session.berserk gd).2 wr (prepare w b t) Hin0) as [-> ->].
      rewrite Hscore0. unfold ts_streak in Hstreak. rewrite Hstreak. done. }
  split; [done |]. split; [exact Hwin |]. split; [| split].
  - subst after. cbn beta.
    destruct (update_reads gd (won_by (other c)) wr br tournaments tid t me
                Htid Hne Ht Hon) as [-> ->].
    fold w b. unfold settle. fold w b. subst me.
    destruct c; cbn [won_by other side_name side_berserk] in *; fold w b in Hin0, Hscore0, Hstreak |- *.
    + set (ts1 := record_win b w black _ _ _ _).
      destruct (record_win_other b w black (default 0 ((prepare w b t).2 !! b))
                  (Session.berserk gd).2 wr (prepare w b t) w)
        as (Hs & _ & Hin); [by apply not_eq_sym |].
      fold ts1 in Hs, Hin. rewrite Hin0 in Hin.
      destruct (record_loss_self w b white (Session.berserk gd).1 br ts1 Hin)
        as [-> ->].
      by rewrite Hs, Hscore0.
    + set (ts1 := record_win w b white _ _ _ _).
      destruct (record_win_other w b white (default 0 ((prepare w b t).2 !! w))
                  (Session.berserk gd).1 br (prepare w b t) b)
        as (Hs & _ & Hin); [done |].
      fold ts1 in Hs, Hin. rewrite Hin0 in Hin.
      destruct (record_loss_self b w black (Session.berserk gd).2 wr ts1 Hin)
        as [-> ->].
      by rewrite Hs, Hscore0.
  - subst after. cbn beta.
    destruct (update_reads gd DrawGame wr br tournaments tid t me
                Htid Hne Ht Hon) as [-> ->].
    fold w b. unfold settle. fold w b. subst me.
    destruct c; cbn [side_name side_berserk] in *; fold w b in Hin0, Hscore0, Hstreak |- *.
    + set (ts1 := record_draw w b white _ _ _ _).
      destruct (record_draw_other b w black (default 0 ((prepare w b t).2 !! b))
                  (Session.berserk gd).2 wr ts1 w)
        as (-> & -> & _); [by apply not_eq_sym |].
      subst ts1.
      destruct (record_draw_self w b white (default 0 ((prepare w b t).2 !! w))
                  (Session.berserk gd).1 br (prepare w b t) Hin0) as [-> ->].
      rewrite Hscore0. unfold ts_streak in Hstreak. rewrite Hstreak. done.
    + set (ts1 := record_draw w b white _ _ _ _).
      destruct (record_draw_other w b white (default 0 ((prepare w b t).2 !! w))
                  (Session.berserk gd).1 br (prepare w b t) b)
        as (Hs & _ & Hin); [done |].
      fold ts1 in Hs, Hin. rewrite Hin0 in Hin.
      destruct (record_draw_self b w black (default 0 ((prepare w b t).2 !! b))
                  (Session.berserk gd).2 wr ts1 Hin) as [-> ->].
      rewrite Hs, Hscore0. unfold ts_streak in Hstreak. rewrite Hstreak. done.
  - intros H3 Hb. destruct Hwin as [Hw1 Hw2].
    rewrite Hw1, Hw2, H3, Hb. done.
Qed.

Lemma tournament_scoring_rules_witness :
  score_of (update_tournament_scores streak_game WhiteWins 100 100
              streak_tournaments) "hourly" "alice" = Some (8 + 5)
  /\ streak_of (update_tournament_scores streak_game WhiteWins 100 100
                  streak_tournaments) "hourly" "alice" = 4.
Proof.
  destruct (tournament_scoring_rules streak_game 100 100 streak_tournaments
              "hourly"
              {| status := active;
                 players := [("alice", seat 8); ("bob", seat 4)]%string;
                 streaks := Some {["alice"%string := 3; "bob"%string := 1]} |}
              white (seat 8))
    as (_ & _ & _ & _ & Hfive);
    [reflexivity | discriminate | reflexivity | reflexivity | discriminate
    | reflexivity |].
  apply Hfive; reflexivity.
Defined.

End ScoringFacts.

(** ** Match session *)

Module SessionFacts.

Import Session.

(** A request on an open session of the player on turn is carried out:
    ben's piece appears at point 4. *)
Lemma open_session_accepts :
  (games (after (on_make_move sample_view 0 (Some "ben"%string) sample_request
                   (sample_world playing))) !! "room1"%string)
    ≫= (λ gd, Board.board (game gd) !! 4%nat)
  = Some (Some black).
Proof. vm_compute. reflexivity. Qed.

(** C9. A [make_move] message for a session that is finished or
    canceled changes nothing: the registries, and with them the board,
    the move log, the winner and every other field of the session, are
    the ones before the call, nothing is raised, and the only thing a
    player of the session gets is the [game_canceled] notice. *)
Theorem closed_session_is_immutable (view : lobby_view) (now : Q)
  (username : option string) (data : request) (w : world) (gd : game_data) :
  games w !! room_id data = Some gd ->
  status gd = finished \/ status gd = canceled ->
  after (on_make_move view now username data w) = w
  /\ raised (on_make_move view now username data w) = None
  /\ trace (on_make_move view now username data w)
     = (if bool_decide (username = Some (gd_white gd))
           || bool_decide (username = Some (gd_black gd))
        then [Emit "game_canceled"] else [])
  /\ games (after (on_make_move view now username data w)) !! room_id data
     = Some gd.
Proof.
  intros Hgd Hclosed. unfold on_make_move. rewrite Hgd.
  destruct (bool_decide (username = Some (gd_white gd))
            || bool_decide (username = Some (gd_black gd))); cbn [negb].
  - assert (bool_decide (status gd = canceled)
            || bool_decide (status gd = finished) = true) as ->.
    { destruct Hclosed as [-> | ->]; reflexivity. }
    repeat split; assumption.
  - repeat split; assumption.
Qed.

Lemma closed_session_is_immutable_witness :
  after (on_make_move sample_view 0 (Some "ben"%string) sample_request
           (sample_world finished))
  = sample_world finished
  /\ trace (on_make_move sample_view 0 (Some "ben"%string) sample_request
              (sample_world finished))
     = [Emit "game_canceled"].
Proof.
  destruct (closed_session_is_immutable sample_view 0 (Some "ben"%string)
              sample_request (sample_world finished) (sample_game finished))
    as (Hsame & _ & Htrace & _); [reflexivity | by left |].
  split; [exact Hsame | exact Htrace].
Defined.

End SessionFacts.

(** ** Clock: further properties *)

Module ClockMore.

Import Clock ClockLogic ClockFacts.

Lemma state_deduct e t : state (deduct e t) = state t.
Proof. unfold deduct. by destruct (active_player t). Qed.

Lemma time_of_deduct_active e t :
  time_of (active_player t) (deduct e t)
  = Qmax 0 (time_of (active_player t) t - e).
Proof. unfold deduct. by destruct (active_player t). Qed.

Lemma time_of_deduct_inactive e t :
  time_of (other (active_player t)) (deduct e t)
  = time_of (other (active_player t)) t.
Proof. unfold deduct. by destruct (active_player t). Qed.

Lemma time_of_paused c now t :
  time_of c (pause now t) = time_of c (snd (get_current_times now t)).
Proof.
  unfold pause. destruct (state t) eqn:Hs; [by destruct c | |];
    by rewrite time_after_read_stopped by congruence.
Qed.

Lemma state_paused now t : state (pause now t) <> TIMER_RUNNING.
Proof. unfold pause. destruct (state t) eqn:Hs; cbn; congruence. Qed.

(** X10. After [pause] the clock stands still: a reading taken at any
    later moment shows, for both sides, what a reading at the moment of
    the pause showed, and [switch_player] neither credits an increment
    nor changes the clock. *)
Theorem paused_clock_stands_still (now later : Q) (c new_player : color)
  (t : timer) :
  remaining c (fst (get_current_times later (pause now t)))
  = remaining c (fst (get_current_times now t))
  /\ switch_player later new_player (pause now t) = (false, pause now t).
Proof.
  pose proof (state_paused now t) as Hstopped. split.
  - rewrite !reading_is_clamped_time.
    rewrite time_after_read_stopped by done.
    by rewrite time_of_paused.
  - unfold switch_player. by destruct (state (pause now t)).
Qed.

(** X11. The time a clock spent paused is not charged: after [resume]
    at [now] a reading at [later] charges the active side with
    [later - now] only, whatever the moment of the pause was, and leaves
    the other side's time as it was. *)
Theorem resume_charges_from_resumption (now later : Q) (t : timer) :
  state t = TIMER_PAUSED ->
  let r := fst (get_current_times later (resume now t)) in
  remaining (active_player t) r
  = Qmax 0 (Qmax 0 (time_of (active_player t) t - (later - now)))
  /\ remaining (other (active_player t)) r
     = Qmax 0 (time_of (other (active_player t)) t)
  /\ state (resume now t) = TIMER_RUNNING.
Proof.
  intros Hs. cbn zeta. unfold resume. rewrite Hs.
  set (t' := set_last_update now (set_state TIMER_RUNNING t)).
  assert (Ha : active_player t' = active_player t) by reflexivity.
  rewrite !reading_is_clamped_time. rewrite <- !Ha.
  rewrite time_after_read_active by reflexivity.
  rewrite time_after_read_inactive.
  repeat split; by destruct (active_player t).
Qed.

Lemma resume_charges_from_resumption_witness :
  let t := pause 40 (new_timer 180 180 0 0) in
  t_white (fst (get_current_times 100 (resume 95 t)))
  = Qmax 0 (Qmax 0 (Qmax 0 (180 - (40 - 0)) - (100 - 95))).
Proof.
  destruct (resume_charges_from_resumption 95 100
              (pause 40 (new_timer 180 180 0 0))) as (H & _); [reflexivity |].
  exact H.
Defined.

(** *** No side ever owes time *)

Lemma sound_deduct e t : sound t -> sound (deduct e t).
Proof.
  intros (Hw & Hb & Hi). unfold sound, deduct.
  destruct (active_player t); cbn; repeat split; try done; apply Q.le_max_l.
Qed.

Lemma sound_read now t : sound t -> sound (snd (get_current_times now t)).
Proof.
  intros Hs. unfold get_current_times. cbn [snd].
  destruct (state t); [apply (sound_deduct _ _ Hs) | exact Hs | exact Hs].
Qed.

(** X12. Every method keeps a clock sound: if no side's time is
    negative and the increment is not negative, the same holds after
    [get_current_times], [switch_player], [pause] and [resume], at any
    wall time, also one that lies before the last update. *)
Theorem methods_keep_clock_sound (now : Q) (c : color) (t : timer) :
  sound t ->
  sound (snd (get_current_times now t))
  /\ sound (snd (switch_player now c t))
  /\ sound (pause now t)
  /\ sound (resume now t).
Proof.
  intros Hs. split; [by apply sound_read |]. split; [| split].
  - unfold switch_player. destruct (state t); [| exact Hs | exact Hs].
    cbn [snd].
    pose proof (sound_deduct (now - last_update t) t Hs) as (Hw & Hb & Hi).
    assert (Hadd : forall x, (0 <= x)%Q ->
              (0 <= x + inject_Z (increment (deduct (now - last_update t) t)))%Q).
    { intros x Hx. rewrite <- (Qplus_0_r 0). apply Qplus_le_compat; [done |].
      change 0%Q with (inject_Z 0). by rewrite <- Zle_Qle. }
    destruct (_ && _); [| by repeat split].
    destruct (active_player (deduct (now - last_update t) t));
      cbn; repeat split; try done; by apply Hadd.
  - unfold pause. destruct (state t); [| exact Hs | exact Hs].
    by apply sound_read.
  - unfold resume. destruct (state t); [exact Hs | | exact Hs]. exact Hs.
Qed.

Lemma methods_keep_clock_sound_witness :
  sound (snd (switch_player 1000 black (new_timer 180 180 2 0))).
Proof.
  destruct (methods_keep_clock_sound 1000 black (new_timer 180 180 2 0))
    as (_ & H & _); [| exact H].
  repeat split; [vm_compute; discriminate | vm_compute; discriminate | cbn; lia].
Defined.

(** X13. A running clock is expired exactly when the time since the
    last update has used up the active side's time; a clock that is not
    running is expired only if the active side had no time left. *)
Theorem expiry_is_elapsed_budget (now : Q) (t : timer) :
  (state t = TIMER_RUNNING ->
   fst (is_expired now t) = true
   <-> (time_of (active_player t) t <= now - last_update t)%Q)
  /\ (state t <> TIMER_RUNNING ->
      fst (is_expired now t) = true <-> (time_of (active_player t) t <= 0)%Q).
Proof.
  assert (Hclamp : forall x, Qle_bool (Qmax 0 (Qmax 0 x)) 0 = true <-> (x <= 0)%Q).
  { intros x. rewrite Qle_bool_iff. split.
    - intros H. eapply Qle_trans; [| exact H].
      eapply Qle_trans; [| apply Q.le_max_r]. apply Q.le_max_r.
    - intros H. rewrite (Q.max_l 0 x) by done. rewrite Q.max_l by apply Qle_refl.
      apply Qle_refl. }
  assert (Hclamp1 : forall x, Qle_bool (Qmax 0 x) 0 = true <-> (x <= 0)%Q).
  { intros x. rewrite Qle_bool_iff. split.
    - intros H. eapply Qle_trans; [| exact H]. apply Q.le_max_r.
    - intros H. rewrite (Q.max_l 0 x) by done. apply Qle_refl. }
  unfold is_expired.
  destruct (get_current_times now t) as [r t'] eqn:Hread. cbn [fst].
  assert (Hr : r = fst (get_current_times now t)) by (by rewrite Hread).
  assert (Ht' : t' = snd (get_current_times now t)) by (by rewrite Hread).
  rewrite Ht', active_after_read, Hr, reading_is_clamped_time.
  split; intros Hs.
  - rewrite time_after_read_active by done. rewrite Hclamp.
    split; intros H.
    + apply (Qplus_le_l _ _ (- (now - last_update t))).
      rewrite Qplus_opp_r. exact H.
    + apply (Qplus_le_l _ _ (- (now - last_update t))) in H.
      rewrite Qplus_opp_r in H. exact H.
  - rewrite time_after_read_stopped by done. apply Hclamp1.
Qed.

Lemma expiry_is_elapsed_budget_witness :
  fst (is_expired 180 (new_timer 180 180 2 0)) = true
  /\ fst (is_expired 179 (new_timer 180 180 2 0)) = false.
Proof.
  split.
  - destruct (expiry_is_elapsed_budget 180 (new_timer 180 180 2 0)) as [H _].
    apply H; [reflexivity | vm_compute; discriminate].
  - destruct (expiry_is_elapsed_budget 179 (new_timer 180 180 2 0)) as [H _].
    apply not_true_is_false. intros Hexp.
    apply H in Hexp; [| reflexivity]. by vm_compute in Hexp.
Defined.

End ClockMore.

(** ** Rating engine: further properties *)

Module RatingMore.

Import Rating RatingLogic RatingFacts.

Lemma update_ratings_inv float_pow gt wp bp winner r :
  update_ratings float_pow gt wp bp winner = Ok r ->
  let won_w := match winner with WhiteWins => true | _ => false end in
  let won_b := match winner with BlackWins => true | _ => false end in
  exists wr br,
    white_player r = count_game (set_rating wp wr) won_w won_b
    /\ black_player r = count_game (set_rating bp br) won_b won_w
    /\ match gt with
       | friendly =>
           wr = rating wp /\ br = rating bp
           /\ white_rating_change r = 0 /\ black_rating_change r = 0
       | ranked =>
           exists base,
             base_changes float_pow (rating wp) (rating bp)
               (games_played wp) (games_played bp) winner = Ok base
             /\ (white_rating_change r, black_rating_change r)
                = gap_protection (rating wp) (rating bp) winner base
             /\ wr = Z.max 50 (rating wp + white_rating_change r)
             /\ br = Z.max 50 (rating bp + black_rating_change r)
       end.
Proof.
  unfold update_ratings. destruct gt.
  - destruct (base_changes _ _ _ _ _ _) as [base|e] eqn:Hbase; [| discriminate].
    cbn [mbind res_bind].
    destruct (gap_protection _ _ _ _) as [wc bc] eqn:Hgap.
    intros [= <-]. cbn. eexists _, _. repeat split. by exists base.
  - intros [= <-]. cbn. exists (rating wp), (rating bp).
    repeat split; by destruct wp, bp.
Qed.

(** X14. Every rating update that completes, rated or friendly, counts
    the game once for both players: [games_played] grows by one, and of
    wins, losses and draws exactly the one that matches the result grows
    by one, a win for the winner and a loss for the loser. *)
Theorem update_counts_the_game float_pow (gt : game_type) (wp bp : player)
  (winner : outcome) (r : rated) :
  update_ratings float_pow gt wp bp winner = Ok r ->
  games_played (white_player r) = games_played wp + 1
  /\ games_played (black_player r) = games_played bp + 1
  /\ tally (white_player r) = add3 (tally wp) (tally_of winner white)
  /\ tally (black_player r) = add3 (tally bp) (tally_of winner black).
Proof.
  intros Hrun.
  destruct (update_ratings_inv _ _ _ _ _ _ Hrun) as (wr & br & -> & -> & _).
  destruct winner; cbn; repeat split; unfold tally, add3; cbn; f_equal; try f_equal; lia.
Qed.

Lemma update_counts_the_game_witness :
  exists r,
    update_ratings sample_pow ranked (mkPlayer 1000 40 20 15 5)
      (mkPlayer 100 3 0 3 0) BlackWins = Ok r
    /\ tally (white_player r) = (20, 16, 5)
    /\ tally (black_player r) = (1, 3, 0).
Proof.
  eexists. split; [vm_compute; reflexivity |].
  edestruct (update_counts_the_game sample_pow ranked (mkPlayer 1000 40 20 15 5)
               (mkPlayer 100 3 0 3 0) BlackWins) as (_ & _ & Hw & Hb);
    [vm_compute; reflexivity |].
  split; [exact Hw | exact Hb].
Defined.

(** X15. A friendly game never fails and never moves a rating: whatever
    [pow] does, the update completes with both ratings as they were and
    both changes zero.  A rated update that completes leaves no rating
    below the floor of 50. *)
Theorem friendly_keeps_ratings_rated_keeps_floor float_pow (wp bp : player)
  (winner : outcome) :
  (exists r,
     update_ratings float_pow friendly wp bp winner = Ok r
     /\ rating (white_player r) = rating wp
     /\ rating (black_player r) = rating bp
     /\ white_rating_change r = 0 /\ black_rating_change r = 0)
  /\ (forall r,
        update_ratings float_pow ranked wp bp winner = Ok r ->
        50 <= rating (white_player r) /\ 50 <= rating (black_player r)).
Proof.
  split.
  - eexists. split; [reflexivity |]. by repeat split.
  - intros r Hrun.
    destruct (update_ratings_inv _ _ _ _ _ _ Hrun)
      as (wr & br & -> & -> & base & _ & _ & -> & ->).
    cbn. split; apply Z.le_max_l.
Qed.

Lemma friendly_keeps_ratings_rated_keeps_floor_witness :
  (exists r,
     update_ratings failing_pow friendly (mkPlayer 1000 40 20 15 5)
       (mkPlayer 100 3 0 3 0) WhiteWins = Ok r
     /\ rating (white_player r) = 1000)
  /\ (forall r,
        update_ratings sample_pow ranked (mkPlayer 1000 40 20 15 5)
          (mkPlayer 50 3 0 3 0) WhiteWins = Ok r ->
        50 <= rating (black_player r)).
Proof.
  split.
  - destruct (friendly_keeps_ratings_rated_keeps_floor failing_pow
                (mkPlayer 1000 40 20 15 5) (mkPlayer 100 3 0 3 0) WhiteWins)
      as [(r & Hr & Hw & _) _].
    exists r. by split.
  - intros r Hr.
    destruct (friendly_keeps_ratings_rated_keeps_floor sample_pow
                (mkPlayer 1000 40 20 15 5) (mkPlayer 50 3 0 3 0) WhiteWins)
      as [_ Hfloor].
    by destruct (Hfloor r Hr).
Defined.

Lemma gap_protection_off (wr br : Z) (winner : outcome) (base : Z * Z) :
  ~ farming wr br winner -> gap_protection wr br winner base = base.
Proof.
  unfold farming, gap_protection. intros Hno.
  destruct (Z.leb_spec 400 (Z.abs (wr - br))); [| done].
  destruct winner; [| | done].
  - destruct (Z.ltb_spec br wr); [exfalso; auto | done].
  - destruct (Z.ltb_spec wr br); [exfalso; auto | done].
Qed.

(** X16. The 400-gap rule touches nothing else: in a rated game that
    is a draw, or is won by the side that was not rated higher, or has a
    gap below 400, both changes are the ones computed from the expected
    scores, and in a decisive such game neither change is zero. *)
Theorem gap_rule_spares_other_games float_pow (wp bp : player)
  (winner : outcome) (r : rated) :
  ~ farming (rating wp) (rating bp) winner ->
  update_ratings float_pow ranked wp bp winner = Ok r ->
  base_changes float_pow (rating wp) (rating bp)
    (games_played wp) (games_played bp) winner
  = Ok (white_rating_change r, black_rating_change r)
  /\ (winner <> DrawGame ->
      white_rating_change r <> 0 /\ black_rating_change r <> 0).
Proof.
  intros Hno Hrun.
  destruct (update_ratings_inv _ _ _ _ _ _ Hrun)
    as (wr & br & _ & _ & base & Hbase & Hgap & _).
  rewrite gap_protection_off in Hgap by done. subst base.
  split; [exact Hbase |]. intros Hdecisive.
  assert (exists c, winner = won_by c) as [c ->].
  { destruct winner; [by exists white | by exists black | done]. }
  destruct (base_changes_decisive _ _ _ _ _ _ _ Hbase) as [H1 H2].
  cbn in H1, H2. lia.
Qed.

Lemma gap_rule_spares_other_games_witness :
  exists r,
    update_ratings sample_pow ranked (mkPlayer 1000 40 20 15 5)
      (mkPlayer 100 3 0 3 0) BlackWins = Ok r
    /\ white_rating_change r <> 0 /\ black_rating_change r <> 0.
Proof.
  eexists. split; [vm_compute; reflexivity |].
  edestruct (gap_rule_spares_other_games sample_pow (mkPlayer 1000 40 20 15 5)
               (mkPlayer 100 3 0 3 0) BlackWins) as [_ H];
    [| vm_compute; reflexivity | apply H; discriminate].
  intros [_ Hhigh]. cbn in Hhigh. lia.
Defined.

(** *** Rounding *)

(** X17. The integer [round] picks for the float [m * 2^e]: for
    [e >= 0] the value itself; for [e < 0] an integer at most one half
    away from the value, and the even one of the two when the value
    lies exactly between them. *)
Theorem round_half_even_is_nearest (m e : Z) :
  (0 <= e -> round_half_even m e = m * 2 ^ e)
  /\ (e < 0 ->
      let d := 2 ^ (- e) in
      let r := round_half_even m e in
      2 * Z.abs (r * d - m) <= d
      /\ (2 * Z.abs (r * d - m) = d -> Z.even r = true)).
Proof.
  unfold round_half_even. split; intros He.
  - destruct (Z.leb_spec 0 e); [done | lia].
  - destruct (Z.leb_spec 0 e); [lia |]. cbn zeta.
    assert (Hd : 0 < 2 ^ (- e)) by (apply Z.pow_pos_nonneg; lia).
    set (d := 2 ^ (- e)) in *.
    pose proof (Z.div_mod m d ltac:(lia)) as Hdm.
    pose proof (Z.mod_pos_bound m d Hd) as Hmod.
    set (q := m / d) in *. set (x := m mod d) in *.
    assert (Hq : q * d - m = - x) by lia.
    assert (Hq1 : (q + 1) * d - m = d - x) by lia.
    destruct (Z.ltb_spec (2 * x) d).
    + rewrite Hq. split; [lia |]. intros Heq. lia.
    + destruct (Z.ltb_spec d (2 * x)).
      * rewrite Hq1. split; [lia |]. intros Heq. lia.
      * destruct (Z.even q) eqn:Heven.
        -- rewrite Hq. split; [lia | done].
        -- rewrite Hq1. split; [lia |]. intros _.
           rewrite Z.even_add, Heven. reflexivity.
Qed.

Lemma round_half_even_is_nearest_witness :
  round_half_even 5 (-1) = 2 /\ round_half_even 7 (-1) = 4
  /\ 2 * Z.abs (round_half_even 5 (-1) * 2 ^ 1 - 5) <= 2 ^ 1.
Proof.
  destruct (round_half_even_is_nearest 5 (-1)) as [_ H].
  destruct H as [Hnear _]; [lia |].
  repeat split; [exact Hnear].
Defined.

End RatingMore.

(** ** Pairing engine: further properties *)

Module PairingMore.

Import Tournament Pairing PairingLogic PairingFacts.

(** *** The register of last opponents *)

Lemma last_opponent_other (st : registry) (tid tid' a b n : string) :
  tid' <> tid \/ (n <> a /\ n <> b) ->
  get_last_opponent (set_last_opponent tid a b st) tid' n
  = get_last_opponent st tid' n.
Proof.
  unfold get_last_opponent, set_last_opponent. cbn.
  intros [Hne|[Ha Hb]].
  - by rewrite lookup_insert_ne.
  - destruct (decide (tid = tid')) as [->|Hne];
      [| by rewrite lookup_insert_ne].
    rewrite lookup_insert_eq, !lookup_insert_ne by done.
    by destruct (tournament_recent_opponents st !! tid').
Qed.

(** X18. [set_last_opponent] records the two players as each other's
    last opponent and nothing else: every other player, and every other
    tournament, reads as before.  One slot per player is kept, so when
    [a] goes on to play [c] the slot of [b] still names [a], and the
    pair [a], [b] stays barred until [b] has played someone else too. *)
Theorem last_opponent_register (st : registry) (tid a b : string) :
  let st1 := set_last_opponent tid a b st in
  (get_last_opponent st1 tid a = Some b /\ get_last_opponent st1 tid b = Some a)
  /\ (forall tid' n, tid' <> tid \/ (n <> a /\ n <> b) ->
        get_last_opponent st1 tid' n = get_last_opponent st tid' n)
  /\ (forall c, a <> b -> c <> b ->
        let st2 := set_last_opponent tid a c st1 in
        get_last_opponent st2 tid a = Some c
        /\ get_last_opponent st2 tid b = Some a
        /\ ~ may_meet st2 tid a b)
  /\ (forall c d, a <> b -> c <> b -> d <> a -> c <> a -> d <> b ->
        may_meet
          (set_last_opponent tid b d (set_last_opponent tid a c st1)) tid a b).
Proof.
  cbn zeta. split; [apply last_opponent_recorded |].
  split; [intros tid' n; apply last_opponent_other |].
  split.
  - intros c Hab Hc.
    destruct (last_opponent_recorded (set_last_opponent tid a b st) tid a c)
      as [Hac Hca].
    assert (Hb : get_last_opponent
                   (set_last_opponent tid a c (set_last_opponent tid a b st)) tid b
                 = Some a).
    { rewrite last_opponent_other
        by (right; split; [by apply not_eq_sym | by apply not_eq_sym]).
      apply last_opponent_recorded. }
    split; [exact Hac |]. split; [exact Hb |].
    intros [_ H]. by apply H.
  - intros c d Hab Hcb Hda Hca Hdb.
    set (st1 := set_last_opponent tid a b st).
    set (st2 := set_last_opponent tid a c st1).
    destruct (last_opponent_recorded st2 tid b d) as [Hbd _].
    assert (Ha : get_last_opponent (set_last_opponent tid b d st2) tid a = Some c).
    { rewrite last_opponent_other
        by (right; split; [done | by apply not_eq_sym]).
      apply last_opponent_recorded. }
    split; [rewrite Ha | rewrite Hbd]; congruence.
Qed.

Lemma last_opponent_register_witness :
  get_last_opponent club_registry "club" "ann" = Some "ben"%string
  /\ ~ may_meet (set_last_opponent "club" "ann" "cat" club_registry)
         "club" "ann" "ben".
Proof.
  destruct (last_opponent_register
              {| tournaments := {["club"%string := club]};
                 paused_users := {["eve"%string]};
                 players_in_game_menu := ∅; games := ∅;
                 tournament_recent_opponents := ∅ |}
              "club" "ann" "ben") as ([Hab _] & _ & Hstill & _).
  split; [exact Hab |].
  destruct (Hstill "cat"%string) as (_ & _ & Hbar);
    [discriminate | discriminate | exact Hbar].
Defined.

(** *** Who is paired in a round *)

Lemma elem_of_paired_names (x : string) (out : list (string * string)) :
  x ∈ paired_names out <-> exists a b, (a, b) ∈ out /\ (x = a \/ x = b).
Proof.
  unfold paired_names. rewrite list_elem_of_bind. split.
  - intros ([a b] & Hx & Hab). exists a, b. split; [done |].
    cbn in Hx. apply elem_of_cons in Hx as [->|Hx]; [by left |].
    apply elem_of_cons in Hx as [->|Hx]; [by right | inversion Hx].
  - intros (a & b & Hab & Hx). exists (a, b). split; [| done].
    cbn. destruct Hx as [-> | ->]; [by left | right; by left].
Qed.

Lemma available_players_elem (st : registry) (ps : list (string * participant))
  (e : entry) :
  e ∈ available_players st ps
  <-> is_available st (username e) = true
      /\ exists d, (username e, d) ∈ ps
                   /\ e = mkEntry (username e) (score d) (rating d).
Proof.
  induction ps as [|[n d] rest IH]; cbn [available_players].
  - split; [intros H; inversion H | intros (_ & d & H & _); inversion H].
  - destruct (is_available st n) eqn:Hn.
    + rewrite elem_of_cons, IH. split.
      * intros [->|(Ha & d' & Hd' & He)]; cbn.
        -- split; [done |]. exists d. split; [by left | done].
        -- split; [done |]. exists d'. split; [by right | done].
      * intros (Ha & d' & [[= Hn' ->]|Hd']%elem_of_cons & He).
        -- left. by rewrite He, Hn'.
        -- right. split; [done |]. by exists d'.
    + rewrite IH. split.
      * intros (Ha & d' & Hd' & He). split; [done |]. exists d'.
        split; [by right | done].
      * intros (Ha & d' & [[= Hn' ->]|Hd']%elem_of_cons & He).
        -- congruence.
        -- split; [done |]. by exists d'.
Qed.

Lemma available_names_sublist (st : registry) (ps : list (string * participant)) :
  sublist (username <$> available_players st ps) ps.*1.
Proof.
  induction ps as [|[n d] rest IH]; cbn; [constructor |].
  destruct (is_available st n); cbn; by constructor.
Qed.

Lemma walk_names_nodup (st : registry) (ps : list (string * participant)) :
  NoDup ps.*1 -> NoDup (username <$> sort_desc (available_players st ps)).
Proof.
  intros Hnodup. rewrite sort_desc_perm.
  eapply sublist_NoDup; [exact Hnodup | apply available_names_sublist].
Qed.

Lemma spec_round_fresh (st : registry) (tid : string) (paired : gset string)
  (walk : list entry) (x : string) :
  x ∈ paired_names (spec_round st tid paired walk) ->
(x ∉ paired) /\ x ∈ username <$> walk.
Proof.
  revert paired. induction walk as [|player later IH]; intros paired;
    cbn [spec_round]; rewrite ?fmap_cons.
  - intros H. inversion H.
  - assert (Hlater : forall s, paired ⊆ s ->
              x ∈ paired_names (spec_round st tid s later) ->
              (x ∉ paired) /\ x ∈ username player :: (username <$> later)).
    { intros s Hs Hx. destruct (IH s Hx) as [Hfresh Hin].
      split; [intros Hxp; apply Hfresh, Hs, Hxp | by right]. }
    case_bool_decide as Hp; [by apply Hlater |].
    destruct (list_find _ later) as [[i c]|] eqn:Hfind; [| by apply Hlater].
    apply list_find_Some in Hfind as (Hc & [Hcfree _] & _).
    apply list_elem_of_lookup_2 in Hc.
    unfold paired_names. rewrite bind_cons. fold (paired_names).
    cbn [fst snd app]. rewrite !elem_of_cons.
    intros [->|[->|Hx]].
    + split; [done | by left].
    + split; [done | right]. apply list_elem_of_fmap. by exists c.
    + destruct (Hlater ({[username c]} ∪ ({[username player]} ∪ paired)))
        as [Hfresh Hin]; [set_solver | exact Hx |].
      split; [done | by apply elem_of_cons].
Qed.

Lemma spec_round_nodup (st : registry) (tid : string) (paired : gset string)
  (walk : list entry) :
  NoDup (username <$> walk) ->
  NoDup (paired_names (spec_round st tid paired walk)).
Proof.
  revert paired. induction walk as [|player later IH]; intros paired Hnodup;
    cbn [spec_round].
  - constructor.
  - rewrite fmap_cons in Hnodup. apply NoDup_cons in Hnodup as [Hhead Hrest].
    case_bool_decide as Hp; [by apply IH |].
    destruct (list_find _ later) as [[i c]|] eqn:Hfind; [| by apply IH].
    apply list_find_Some in Hfind as (Hc & [Hcfree _] & _).
    apply list_elem_of_lookup_2 in Hc.
    assert (Hcin : username c ∈ username <$> later)
      by (apply list_elem_of_fmap; by exists c).
    unfold paired_names. rewrite bind_cons. fold (paired_names).
    cbn [fst snd app].
    apply NoDup_cons. split.
    { rewrite elem_of_cons. intros [Heq|Hin].
      - by rewrite Heq in Hhead.
      - apply spec_round_fresh in Hin as [Hfresh _]. set_solver. }
    apply NoDup_cons. split; [| by apply IH].
    intros Hin. apply spec_round_fresh in Hin as [Hfresh _]. set_solver.
Qed.

(** X19. In one pairing round nobody is paired twice and nobody is
    paired with themselves: the names of all pairs of the round are
    pairwise different. *)
Theorem round_pairs_each_player_once (st : registry) (tid : string)
  (t : tournament) :
  tournaments st !! tid = Some t ->
  NoDup (players t).*1 ->
  NoDup (paired_names (lichess_style_pairing st tid)).
Proof.
  intros Ht Hnodup. unfold lichess_style_pairing. rewrite Ht.
  case_bool_decide; [constructor |].
  rewrite pair_players_spec. apply spec_round_nodup.
  by apply walk_names_nodup.
Qed.

Lemma round_pairs_each_player_once_witness :
  NoDup (paired_names (lichess_style_pairing club_registry "club")).
Proof.
  apply (round_pairs_each_player_once club_registry "club" club);
    [reflexivity |].
  cbn. repeat (apply NoDup_cons; split; [set_solver |]). constructor.
Defined.

(** X20. Only available participants are paired: every player of a
    pair of the round is in the roster of the tournament, is not paused,
    is not in the after-game menu and is not in a game that has not
    finished. *)
Theorem round_pairs_available_participants (st : registry) (tid : string)
  (t : tournament) (x : string) :
  tournaments st !! tid = Some t ->
  x ∈ paired_names (lichess_style_pairing st tid) ->
  x ∈ (players t).*1
  /\ (x ∉ paused_users st)
  /\ (x ∉ players_in_game_menu st)
  /\ is_player_in_game st x = false
  /\ status t = active.
Proof.
  intros Ht. unfold lichess_style_pairing. rewrite Ht.
  case_bool_decide as Hactive; [intros H; inversion H |].
  rewrite pair_players_spec. intros Hx.
  apply spec_round_fresh in Hx as [_ Hx].
  apply list_elem_of_fmap in Hx as (e & -> & He).
  rewrite sort_desc_perm in He.
  apply available_players_elem in He as (Hav & d & Hd & _).
  unfold is_available in Hav.
  apply andb_true_iff in Hav as [[Hp Hm]%andb_true_iff Hg].
  apply bool_decide_eq_true in Hp, Hm. apply negb_true_iff in Hg.
  repeat split; try done; try (by apply dec_stable).
  apply list_elem_of_fmap. by exists (username e, d).
Qed.

Lemma round_pairs_available_participants_witness :
("cat"%string ∉ paused_users club_registry)
  /\ lichess_style_pairing club_registry "club"
     = [("ann", "cat"); ("ben", "dan")]%string.
Proof.
  assert (Hround : lichess_style_pairing club_registry "club"
                   = [("ann", "cat"); ("ben", "dan")]%string)
    by (vm_compute; reflexivity).
  destruct (round_pairs_available_participants club_registry "club" club "cat")
    as (_ & Hfree & _); [reflexivity | rewrite Hround; cbn; set_solver |].
  split; [exact Hfree | exact Hround].
Defined.

Lemma spec_round_leaves_no_pair (st : registry) (tid : string)
  (paired : gset string) (walk : list entry) (a b : entry) :
  a ∈ walk -> b ∈ walk -> username a <> username b ->
  username a ∉ paired -> username b ∉ paired ->
  username a ∉ paired_names (spec_round st tid paired walk) ->
  username b ∉ paired_names (spec_round st tid paired walk) ->
  ~ may_meet st tid (username a) (username b).
Proof.
  revert paired. induction walk as [|player later IH];
    intros paired Ha Hb Hab Hfa Hfb; [inversion Ha |].
  cbn [spec_round].
  assert (Hsym : may_meet st tid (username b) (username a)
                 -> may_meet st tid (username a) (username b))
    by (unfold may_meet; tauto).
  case_bool_decide as Hp.
  { apply elem_of_cons in Ha as [->|Ha]; [done |].
    apply elem_of_cons in Hb as [->|Hb]; [done |]. by apply IH. }
  destruct (list_find _ later) as [[i c]|] eqn:Hfind.
  - unfold paired_names. rewrite bind_cons. fold (paired_names).
    cbn [fst snd app]. rewrite !not_elem_of_cons.
    intros (Hap & Hac & Hra) (Hbp & Hbc & Hrb).
    apply elem_of_cons in Ha as [->|Ha]; [done |].
    apply elem_of_cons in Hb as [->|Hb]; [done |].
    apply (IH ({[username c]} ∪ ({[username player]} ∪ paired)));
      try done; set_solver.
  - intros Hra Hrb.
    pose proof (proj1 (list_find_None _ _) Hfind) as Hnone.
    rewrite Forall_forall in Hnone.
    apply elem_of_cons in Ha as [->|Ha];
      apply elem_of_cons in Hb as [->|Hb]; try done.
    + intros Hmeet. by apply (Hnone b Hb).
    + intros Hmeet. apply (Hnone a Ha). split; [done |].
      unfold may_meet in *. tauto.
    + by apply (IH paired).
Qed.

(** X21. A round leaves no pair that it could have made: two different
    available participants who both end the round unpaired are barred
    from meeting, one being the recorded last opponent of the other. *)
Theorem round_leaves_no_possible_pair (st : registry) (tid : string)
  (t : tournament) (a b : entry) :
  tournaments st !! tid = Some t ->
  status t = active ->
  a ∈ available_players st (players t) ->
  b ∈ available_players st (players t) ->
  username a <> username b ->
  username a ∉ paired_names (lichess_style_pairing st tid) ->
  username b ∉ paired_names (lichess_style_pairing st tid) ->
  ~ may_meet st tid (username a) (username b).
Proof.
  intros Ht Hactive Ha Hb Hab. unfold lichess_style_pairing. rewrite Ht.
  rewrite bool_decide_false by (intros H; by apply H).
  rewrite pair_players_spec.
  apply spec_round_leaves_no_pair; try done;
    rewrite sort_desc_perm; done.
Qed.

Lemma round_leaves_no_possible_pair_witness :
  lichess_style_pairing duo_registry "duo" = []
  /\ ~ may_meet duo_registry "duo" "ann" "ben".
Proof.
  assert (Hround : lichess_style_pairing duo_registry "duo" = [])
    by (vm_compute; reflexivity).
  split; [exact Hround |].
  apply (round_leaves_no_possible_pair duo_registry "duo"
           {| status := active;
              players := [("ann", fresh 10); ("ben", fresh 9)]%string;
              streaks := None |}
           (mkEntry "ann" 10 100) (mkEntry "ben" 9 100));
    [reflexivity | reflexivity | by left | right; by left | discriminate
    | rewrite Hround; apply not_elem_of_nil
    | rewrite Hround; apply not_elem_of_nil].
Defined.

End PairingMore.

(** ** Tournament scoring: further properties *)

Module ScoringMore.

Import Tournament Scoring ScoringLogic ScoringFacts.

(** *** What the update leaves alone *)

Lemma dict_alter_keys {V : Type} (f : V -> V) (k : string) (d : list (string * V)) :
  (dict_alter f k d).*1 = d.*1.
Proof.
  induction d as [|[k' v] rest IH]; [done |]. cbn.
  case_bool_decide; cbn; [done | by rewrite IH].
Qed.

Lemma same_for_trans n ts1 ts2 ts3 :
  same_for n ts1 ts2 -> same_for n ts2 ts3 -> same_for n ts1 ts3.
Proof. unfold same_for. intros (-> & -> & ->) (-> & -> & ->). done. Qed.

Lemma record_win_frame me opp c s b r ts n :
  me <> n -> same_for n ts (record_win me opp c s b r ts).
Proof.
  destruct ts as [ps st]. intros Hne. unfold record_win, same_for.
  destruct (dict_has me ps); [| done]. unfold ts_streak. cbn [fst snd].
  by rewrite dict_get_alter_ne, dict_alter_keys, lookup_insert_ne.
Qed.

Lemma record_loss_frame me opp c b r ts n :
  me <> n -> same_for n ts (record_loss me opp c b r ts).
Proof.
  destruct ts as [ps st]. intros Hne. unfold record_loss, same_for.
  destruct (dict_has me ps); [| done]. unfold ts_streak. cbn [fst snd].
  by rewrite dict_get_alter_ne, dict_alter_keys, lookup_insert_ne.
Qed.

Lemma record_draw_frame me opp c s b r ts n :
  me <> n -> same_for n ts (record_draw me opp c s b r ts).
Proof.
  destruct ts as [ps st]. intros Hne. unfold record_draw, same_for.
  destruct (dict_has me ps); [| done]. unfold ts_streak. cbn [fst snd].
  by rewrite dict_get_alter_ne, dict_alter_keys, lookup_insert_ne.
Qed.

Lemma settle_frame gd winner wr br ts n :
  Session.gd_white gd <> n -> Session.gd_black gd <> n ->
  same_for n ts (settle gd winner wr br ts).
Proof.
  intros Hw Hb. unfold settle. destruct winner.
  - eapply same_for_trans; [| apply record_loss_frame; done].
    apply record_win_frame; done.
  - eapply same_for_trans; [| apply record_loss_frame; done].
    apply record_win_frame; done.
  - eapply same_for_trans; [| apply record_draw_frame; done].
    apply record_draw_frame; done.
Qed.

Lemma record_win_keys me opp c s b r ts :
  (record_win me opp c s b r ts).1.*1 = ts.1.*1.
Proof.
  destruct ts as [ps st]. unfold record_win.
  destruct (dict_has me ps); cbn [fst]; by rewrite ?dict_alter_keys.
Qed.

Lemma record_loss_keys me opp c b r ts :
  (record_loss me opp c b r ts).1.*1 = ts.1.*1.
Proof.
  destruct ts as [ps st]. unfold record_loss.
  destruct (dict_has me ps); cbn [fst]; by rewrite ?dict_alter_keys.
Qed.

Lemma record_draw_keys me opp c s b r ts :
  (record_draw me opp c s b r ts).1.*1 = ts.1.*1.
Proof.
  destruct ts as [ps st]. unfold record_draw.
  destruct (dict_has me ps); cbn [fst]; by rewrite ?dict_alter_keys.
Qed.

Lemma settle_keys gd winner wr br ts :
  (settle gd winner wr br ts).1.*1 = ts.1.*1.
Proof.
  unfold settle. destruct winner.
  - by rewrite record_loss_keys, record_win_keys.
  - by rewrite record_loss_keys, record_win_keys.
  - by rewrite !record_draw_keys.
Qed.

Lemma prepare_keys w b t : (prepare w b t).1.*1 = (players t).*1.
Proof. unfold prepare. cbn [fst]. by rewrite !dict_alter_keys. Qed.

Lemma prepare_frame w b t n :
  w <> n -> b <> n ->
  dict_get n (prepare w b t).1 = dict_get n (players t)
  /\ ts_streak (prepare w b t) n = default 0 (streaks t ≫= (.!! n)).
Proof.
  intros Hw Hb. split; [| apply prepare_reads].
  unfold prepare. cbn [fst]. by rewrite !dict_get_alter_ne.
Qed.

(** X23. The update of the tournament table after a game keeps every
    tournament, its status and the names of its roster, and for a name
    that is neither the white nor the black player of the game it keeps
    the row and the win streak in every tournament. *)
Theorem scores_of_bystanders_are_kept (gd : Session.game_data)
  (winner : outcome) (wr br : Z) (tournaments : gmap string tournament)
  (tid n : string) :
  n <> Session.gd_white gd ->
  n <> Session.gd_black gd ->
  let after := update_tournament_scores gd winner wr br tournaments in
  row_of after tid n = row_of tournaments tid n
  /\ streak_of after tid n = streak_of tournaments tid n
  /\ roster after tid = roster tournaments tid
  /\ status <$> after !! tid = status <$> tournaments !! tid.
Proof.
  intros Hw Hb after. subst after. unfold update_tournament_scores.
  destruct (Session.tournament_id gd) as [tid'|]; [| done].
  case_bool_decide; [done |].
  destruct (tournaments !! tid') as [t|] eqn:Ht; [| done].
  destruct (Session.tournament_points_disabled gd); [done |].
  pose proof (settle_frame gd winner wr br
                (prepare (Session.gd_white gd) (Session.gd_black gd) t) n
                (not_eq_sym Hw) (not_eq_sym Hb)) as (Hrow & Hstreak & _).
  pose proof (settle_keys gd winner wr br
                (prepare (Session.gd_white gd) (Session.gd_black gd) t)) as Hkeys.
  destruct (prepare_frame (Session.gd_white gd) (Session.gd_black gd) t n
              (not_eq_sym Hw) (not_eq_sym Hb)) as [Hrow0 Hstreak0].
  rewrite prepare_keys in Hkeys. rewrite Hrow0 in Hrow. rewrite Hstreak0 in Hstreak.
  destruct (settle _ _ _ _ _) as [ps st]. cbn [fst snd] in *.
  unfold row_of, streak_of, roster.
  destruct (decide (tid' = tid)) as [->|Hne].
  - rewrite lookup_insert_eq, Ht. cbn. unfold ts_streak in Hstreak. cbn in Hstreak.
    by rewrite Hrow, Hkeys, Hstreak.
  - by rewrite lookup_insert_ne.
Qed.

Lemma scores_of_bystanders_are_kept_witness :
  row_of (update_tournament_scores streak_game WhiteWins 100 100
            crowded_tournaments) "hourly" "carol" = Some (seat 6)
  /\ streak_of (update_tournament_scores streak_game WhiteWins 100 100
                  crowded_tournaments) "hourly" "carol" = 2.
Proof.
  destruct (scores_of_bystanders_are_kept streak_game WhiteWins 100 100
              crowded_tournaments "hourly" "carol")
    as (Hrow & Hstreak & _); [discriminate | discriminate |].
  split; [exact Hrow | exact Hstreak].
Defined.

(** *** What the update records *)

Lemma update_row (gd : Session.game_data) (winner : outcome) (wr br : Z)
  (tournaments : gmap string tournament) (tid : string) (t : tournament)
  (n : string) :
  Session.tournament_id gd = Some tid ->
  tid <> ""%string ->
  tournaments !! tid = Some t ->
  Session.tournament_points_disabled gd = false ->
  row_of (update_tournament_scores gd winner wr br tournaments) tid n
    = dict_get n
        (settle gd winner wr br
           (prepare (Session.gd_white gd) (Session.gd_black gd) t)).1.
Proof.
  intros Htid Hne Ht Hon.
  unfold update_tournament_scores. rewrite Htid, bool_decide_false, Ht, Hon by done.
  destruct (settle _ _ _ _ _) as [ps st].
  unfold row_of. by rewrite lookup_insert_eq.
Qed.

(** X24. A scored tournament game is entered once in the row of each of
    its two players who is on the roster: [games_played] grows by one,
    one entry naming the opponent and the colour is appended to the list
    of the result (wins, losses or draws), one entry of that type is
    appended to [series], and the two other lists and the rating stay. *)
Theorem game_is_recorded_once (gd : Session.game_data) (winner : outcome)
  (wr br : Z) (tournaments : gmap string tournament) (tid : string)
  (t : tournament) (c : color) (p : participant) :
  Session.tournament_id gd = Some tid ->
  tid <> ""%string ->
  tournaments !! tid = Some t ->
  Session.tournament_points_disabled gd = false ->
  Session.gd_white gd <> Session.gd_black gd ->
  dict_get (side_name gd c) (players t) = Some p ->
  exists (p' : participant) (e : result_entry) (s : series_entry),
    row_of (update_tournament_scores gd winner wr br tournaments) tid
      (side_name gd c) = Some p'
    /\ games_played p' = games_played p + 1
    /\ rating p' = rating p
    /\ results_of (result_for c winner) p'
       = results_of (result_for c winner) p ++ [e]
    /\ (forall ty, ty <> result_for c winner -> results_of ty p' = results_of ty p)
    /\ series p' = Some (default [] (series p) ++ [s])
    /\ se_type s = result_for c winner
    /\ re_opponent e = side_name gd (other c)
    /\ re_color e = c.
Proof.
  intros Htid Hne Ht Hon Hdistinct Hp.
  rewrite (update_row gd winner wr br tournaments tid t _ Htid Hne Ht Hon).
  set (w := Session.gd_white gd) in *. set (b := Session.gd_black gd) in *.
  assert (Hbw : b <> w) by (by apply not_eq_sym).
  unfold settle, prepare. fold w b. cbn [fst snd].
  unfold record_win, record_loss, record_draw.
  destruct c; cbn [side_name other] in *; fold w b in Hp |- *.
  - assert (Hin : dict_has w (players t) = true) by (by eapply dict_has_true).
    destruct winner; cbn [result_for results_of];
      repeat (first [rewrite dict_has_alter | rewrite Hin]; lazy beta iota zeta);
      destruct (dict_has b (players t)); cbn [fst snd];
      repeat (first [rewrite dict_has_alter | rewrite Hin]; lazy beta iota zeta);
      cbn [fst snd];
      repeat first [ rewrite dict_get_alter_eq
                   | rewrite dict_get_alter_ne by done ];
      rewrite Hp; cbn;
      (eexists _, _, _; split; [reflexivity |]);
      cbn; repeat split; try done; by intros [].
  - assert (Hin : dict_has b (players t) = true) by (by eapply dict_has_true).
    destruct winner; cbn [result_for results_of];
      repeat (first [rewrite dict_has_alter | rewrite Hin]; lazy beta iota zeta);
      destruct (dict_has w (players t)); cbn [fst snd];
      repeat (first [rewrite dict_has_alter | rewrite Hin]; lazy beta iota zeta);
      cbn [fst snd];
      repeat first [ rewrite dict_get_alter_eq
                   | rewrite dict_get_alter_ne by done ];
      rewrite Hp; cbn;
      (eexists _, _, _; split; [reflexivity |]);
      cbn; repeat split; try done; by intros [].
Qed.

Lemma game_is_recorded_once_witness :
  exists (p' : participant) (e : result_entry) (s : series_entry),
    row_of (update_tournament_scores streak_game BlackWins 100 100
              crowded_tournaments) "hourly" "alice" = Some p'
    /\ games_played p' = 3 + 1
    /\ losses p' = [e]
    /\ series p' = Some [s]
    /\ se_type s = series_loss
    /\ re_opponent e = "bob"%string.
Proof.
  destruct (game_is_recorded_once streak_game BlackWins 100 100
              crowded_tournaments "hourly"
              {| status := active;
                 players := [("carol", seat 6); ("alice", seat 8);
                             ("bob", seat 4); ("dave", seat 2)]%string;
                 streaks := Some {["alice"%string := 3; "carol"%string := 2]} |}
              white (seat 8))
    as (p' & e & s & Hrow & Hgames & _ & Hlist & _ & Hseries & Htype & Hopp & _);
    [reflexivity | discriminate | reflexivity | reflexivity | discriminate
    | reflexivity |].
  exists p', e, s. repeat split; assumption.
Defined.

End ScoringMore.

(** ** Match session: further properties *)

Module SessionMore.

Import Session SessionLogic SessionFacts.

(** *** The parts of the move handler *)

Lemma resume_timer_elsewhere now room ts r :
  r <> room -> resume_timer now room ts !! r = ts !! r.
Proof.
  intros Hr. unfold resume_timer, timer_map in *. destruct (ts !! room); [| done].
  by rewrite lookup_insert_ne.
Qed.

Lemma first_move_step_keeps now room c gd ts :
  keeps room gd ts (first_move_step now room c gd ts).
Proof.
  unfold first_move_step, keeps.
  destruct (status gd), c, (white_first_move_made gd),
    (black_first_move_made gd), (timer_started gd);
    cbn [negb fst snd]; (split; [reflexivity |]); intros r Hr;
    first [reflexivity | by apply resume_timer_elsewhere].
Qed.

Lemma switch_player_timer_keeps now room c gd ts :
  keeps room gd ts (switch_player_timer now room c gd ts)
  /\ status (switch_player_timer now room c gd ts).1.1 = status gd
  /\ game (switch_player_timer now room c gd ts).1.1 = game gd.
Proof.
  unfold switch_player_timer, keeps, timer_map in *. destruct (ts !! room) as [t|]; [| done].
  destruct (Clock.get_current_times now t) as [x t1].
  destruct (Clock.switch_player now c t1) as [y t2].
  destruct (Clock.get_current_times now t2) as [cur t3]. cbn.
  repeat split. intros r Hr. by rewrite lookup_insert_ne.
Qed.

Lemma check_game_over_keeps now room gd ts :
  keeps room gd ts (check_game_over now room gd ts).
Proof.
  unfold check_game_over, finish_game, stop_game_timer, keeps, timer_map in *.
  destruct (Board.get_winner (game gd)); cbn; [| done].
  split; [done |]. intros r Hr. by rewrite lookup_delete_ne.
Qed.

(** The world a handler leaves when it has worked on [gd'] and [ts']. *)
(** The scan for the featured game reads clocks and changes nothing
    else. *)
Lemma at_most_read_refl now (ts : timer_map) r : at_most_read now ts ts r.
Proof. by left. Qed.

Lemma featured_step_reads now view gs acc game_id :
  (forall r, r <> game_id ->
     (featured_step now view gs acc game_id).2 !! r = acc.2 !! r)
  /\ at_most_read now acc.2 (featured_step now view gs acc game_id).2 game_id.
Proof.
  destruct acc as [[best elo] ts]. unfold featured_step, at_most_read, timer_map in *.
  cbn [snd].
  destruct (gs !! game_id) as [game|]; [| by split; [| left]].
  case_bool_decide; [by split; [| left] |].
  destruct (ts !! game_id) as [timer|] eqn:Htimer; [| by split; [| left]].
  destruct (_ || _); [by split; [| left] |].
  destruct (elo <? combined_elo view game_id); [| by split; [| left]].
  destruct (Clock.get_current_times now timer) as [x timer1] eqn:Hread.
  cbn [snd]. split.
  - intros r Hr. by rewrite lookup_insert_ne.
  - right. exists timer. rewrite lookup_insert_eq, Hread. done.
Qed.

Lemma scan_reads now view gs (rooms : list string) :
  NoDup rooms ->
  forall acc,
    (forall r, r ∉ rooms ->
       (foldl (featured_step now view gs) acc rooms).2 !! r = acc.2 !! r)
    /\ (forall r,
          at_most_read now acc.2 (foldl (featured_step now view gs) acc rooms).2 r).
Proof.
  induction 1 as [|a l Ha Hl IH]; intros acc; cbn [foldl].
  - split; [done | intros r; apply at_most_read_refl].
  - destruct (IH (featured_step now view gs acc a)) as [Hout Hread].
    destruct (featured_step_reads now view gs acc a) as [Hother Hthis].
    split.
    + intros r Hr. apply not_elem_of_cons in Hr as [Hra Hrl].
      by rewrite Hout, Hother.
    + intros r. destruct (decide (r = a)) as [->|Hra].
      * unfold at_most_read in *. rewrite (Hout a Ha). exact Hthis.
      * specialize (Hread r). unfold at_most_read in *.
        by rewrite (Hother r Hra) in Hread.
Qed.

Lemma get_featured_game_reads now view gs ts r :
  NoDup (room_order view) ->
  at_most_read now ts (get_featured_game now view gs ts).2 r.
Proof.
  intros Hnodup. unfold get_featured_game.
  destruct (scan_reads now view gs (room_order view) Hnodup (None, 0, ts))
    as [_ Hread].
  specialize (Hread r).
  by destruct (foldl _ _ _) as [[best elo] ts1].
Qed.

(** The world a handler leaves when it has worked on [gd'] and [ts']. *)
Lemma write_back_elsewhere now room gd gd' ts' w r :
  games w !! room = Some gd ->
  seats gd' = seats gd ->
  (forall r, r <> room -> at_most_read now (game_timers w) ts' r) ->
  r <> room ->
  games (write_back room gd' ts' w) !! r = games w !! r
  /\ at_most_read now (game_timers w) (game_timers (write_back room gd' ts' w)) r
  /\ seats <$> games (write_back room gd' ts' w) !! room = Some (seats gd).
Proof.
  intros Hgd Hseats Hts Hr. unfold write_back. cbn [games game_timers].
  rewrite lookup_insert_eq, lookup_insert_ne by done. cbn. rewrite Hseats.
  split; [done |]. split; [by apply Hts | done].
Qed.

Lemma unread now (ts ts' : timer_map) room :
  (forall r, r <> room -> ts' !! r = ts !! r) ->
  forall r, r <> room -> at_most_read now ts ts' r.
Proof. intros H r Hr. left. by apply H. Qed.

Lemma remove_after_mill_elsewhere now room c r0 gd0 gd ts tr w r :
  games w !! room = Some gd0 ->
  seats gd = seats gd0 ->
  (forall r, r <> room -> ts !! r = game_timers w !! r) ->
  r <> room ->
  let w' := after (remove_after_mill now room c r0 gd ts tr w) in
  games w' !! r = games w !! r
  /\ at_most_read now (game_timers w) (game_timers w') r
  /\ seats <$> games w' !! room = Some (seats gd0).
Proof.
  intros Hgd Hseats Hts Hr. cbv zeta. unfold remove_after_mill, timer_map in *.
  destruct (Board.can_remove (game gd) r0) as [[|]|e]; cbn [after];
    try (by apply (write_back_elsewhere now room gd0); [| | apply unread |]).
  destruct (Board.setitem _ r0 None) as [b|e]; cbn [after];
    [| by apply (write_back_elsewhere now room gd0); [| | apply unread |]].
  match goal with
  | |- context [switch_player_timer now room ?c1 ?gd1 ts] =>
      destruct (switch_player_timer_keeps now room c1 gd1 ts)
        as ([Hs1 Ht1] & _ & _);
      destruct (switch_player_timer now room c1 gd1 ts) as [[gd2 ts2] tr2]
  end.
  cbn [fst snd] in Hs1, Ht1.
  match goal with
  | |- context [check_game_over now room ?gd3 ts2] =>
      destruct (check_game_over_keeps now room gd3 ts2) as [Hs4 Ht4];
      destruct (check_game_over now room gd3 ts2) as [[gd4 ts4] tr4]
  end.
  cbn [fst snd after] in *.
  apply (write_back_elsewhere now room gd0); [done | | | done].
  - rewrite Hs4. unfold seats in *. cbn in *. congruence.
  - apply unread. intros r' Hr'. by rewrite Ht4, Ht1, Hts.
Qed.

Lemma normal_move_elsewhere view now room c data gd0 gd ts tr w r :
  NoDup (room_order view) ->
  games w !! room = Some gd0 ->
  seats gd = seats gd0 ->
  (forall r, r <> room -> ts !! r = game_timers w !! r) ->
  r <> room ->
  let w' := after (normal_move view now room c data gd ts tr w) in
  games w' !! r = games w !! r
  /\ at_most_read now (game_timers w) (game_timers w') r
  /\ seats <$> games w' !! room = Some (seats gd0).
Proof.
  intros Hnodup Hgd Hseats Hts Hr. cbv zeta. unfold normal_move, timer_map in *.
  destruct (to_pos data) as [dst|]; cbn [after];
    [| by apply (write_back_elsewhere now room gd0); [| | apply unread |]].
  destruct (Board.make_move _ dst _ (game gd)) as [[[|[|] mill wt]|e] g1];
    cbn [after];
    try (by apply (write_back_elsewhere now room gd0); [| | apply unread |]).
  set (gd1 := push_position _ _).
  assert (Hs1 : seats gd1 = seats gd0) by (by rewrite <- Hseats).
  match goal with
  | |- context [match ?stamp with (_, _) => _ end] =>
      assert (Hstamp : seats stamp.1 = seats gd0
                       /\ forall r, r <> room -> stamp.2 !! r = game_timers w !! r);
      [| destruct stamp as [gd2 ts2]]
  end.
  { destruct (ts !! room) as [t|]; [| done].
    destruct (Clock.get_current_times now t) as [cur t1]. cbn [fst snd].
    split; [done |]. intros r' Hr'. by rewrite lookup_insert_ne, Hts. }
  destruct Hstamp as [Hs2 Ht2]. cbn [fst snd] in Hs2, Ht2.
  match goal with
  | |- context [match ?turn with (_, _) => _ end] =>
      assert (Hturn : seats turn.1.1 = seats gd0
                      /\ forall r, r <> room -> turn.1.2 !! r = game_timers w !! r);
      [| destruct turn as [[gd3 ts3] tr3]]
  end.
  { destruct (mill && wt); lazy beta iota; cbn [fst snd];
      [split; [by rewrite <- Hs2 | exact Ht2] |].
    match goal with
    | |- context [switch_player_timer now room ?c1 ?gd' ts2] =>
        destruct (switch_player_timer_keeps now room c1 gd' ts2)
          as ([Hs Ht] & _ & _)
    end.
    split; [etrans; [exact Hs | by rewrite <- Hs2] |].
    intros r' Hr'. etrans; [by apply Ht | by apply Ht2]. }
  destruct Hturn as [Hs3 Ht3]. cbn [fst snd] in Hs3, Ht3.
  pose proof (λ r', get_featured_game_reads now view
                      (<[room := gd3]> (games w)) ts3 r' Hnodup) as Hscan.
  unfold timer_map in Hscan.
  destruct (get_featured_game now view _ ts3) as [featured ts_f].
  cbn [snd] in Hscan.
  destruct (check_game_over_keeps now room gd3 ts_f) as [Hs4 Ht4].
  destruct (check_game_over now room gd3 ts_f) as [[gd4 ts4] tr4].
  cbn [fst snd after] in *.
  apply (write_back_elsewhere now room gd0); [done | congruence | | done].
  intros r' Hr'. pose proof (Ht3 r' Hr') as E3. pose proof (Ht4 r' Hr') as E4.
  destruct (Hscan r') as [H|(t & H1 & H2)].
  - left. etrans; [exact E4 |]. etrans; [exact H | exact E3].
  - right. exists t. split.
    + etrans; [symmetry; exact E3 | exact H1].
    + etrans; [exact E4 | exact H2].
Qed.

(** X25. A [make_move] message works on its own room only: every other
    session is as before, no session appears or disappears, and in the
    room of the message the two players, the tournament and the berserk
    flags of the session are kept, however the handler ends.  A clock of
    another room is as before or, when the scan for the featured game
    has read it, is the clock [get_current_times] leaves. *)
Theorem move_message_stays_in_its_room (view : lobby_view) (now : Q)
  (username : option string) (data : request) (w : world) (gd : game_data)
  (r : string) :
  games w !! room_id data = Some gd ->
  NoDup (room_order view) ->
  r <> room_id data ->
  let w' := after (on_make_move view now username data w) in
  games w' !! r = games w !! r
  /\ at_most_read now (game_timers w) (game_timers w') r
  /\ seats <$> games w' !! room_id data = Some (seats gd).
Proof.
  intros Hgd Hnodup Hr. cbv zeta. unfold on_make_move. rewrite Hgd.
  destruct (negb _); cbn [after];
    [rewrite Hgd; repeat split; apply at_most_read_refl |].
  destruct (_ || _); cbn [after];
    [rewrite Hgd; repeat split; apply at_most_read_refl |].
  destruct (_ && _); cbn [after];
    [rewrite Hgd; repeat split; apply at_most_read_refl |].
  match goal with
  | |- context [first_move_step now ?room ?c gd ?ts] =>
      destruct (first_move_step_keeps now room c gd ts) as [Hs1 Ht1];
      destruct (first_move_step now room c gd ts) as [[gd1 ts1] tr1]
  end.
  cbn [fst snd] in Hs1, Ht1.
  destruct (bool_decide _), (remove_pos data) as [r0|];
    first [ by apply (remove_after_mill_elsewhere now _ _ _ gd)
          | by apply (normal_move_elsewhere view now _ _ _ gd) ].
Qed.

Lemma move_message_stays_in_its_room_witness :
  let w' := after (on_make_move sample_view 30 (Some "ann"%string)
                     closing_request closing_world) in
  games w' !! "room2"%string = Some (sample_game playing)
  /\ at_most_read 30 (game_timers closing_world) (game_timers w') "room2"
  /\ game_timers w' !! "room2"%string
     = Some (Clock.get_current_times 30 (Clock.new_timer 180 180 0 0)).2.
Proof.
  destruct (move_message_stays_in_its_room sample_view 30 (Some "ann"%string)
              closing_request closing_world closing_game "room2")
    as (Hgames & Htimers & _);
    [reflexivity
    | cbn; repeat (apply NoDup_cons; split; [set_solver |]); constructor
    | discriminate |].
  split; [exact Hgames |]. split; [exact Htimers |].
  vm_compute. reflexivity.
Defined.

(** *** The end of a game on the board *)

Lemma first_move_step_open now room c gd ts :
  status gd <> finished ->
  status (first_move_step now room c gd ts).1.1 <> finished.
Proof.
  intros Hopen. unfold first_move_step.
  destruct (status gd) eqn:Hs, c, (white_first_move_made gd),
    (black_first_move_made gd), (timer_started gd);
    cbn [negb fst snd status white_moved_first black_moved_first start_playing];
    rewrite ?Hs; done.
Qed.

Lemma check_game_over_closes now room gd ts tr :
  status gd <> finished ->
  status (check_game_over now room gd ts).1.1 = finished ->
  closed_by now room (check_game_over now room gd ts).1.1
    (check_game_over now room gd ts).1.2
    (tr ++ (check_game_over now room gd ts).2).
Proof.
  intros Hopen. unfold check_game_over, finish_game, stop_game_timer, timer_map.
  destruct (Board.get_winner (game gd)) as [wnr|] eqn:Hw; cbn [fst snd]; [| done].
  intros _. exists wnr. cbn [winner game end_reason end_time set_finished].
  repeat split; try done.
  - apply lookup_delete_eq.
  - by apply suffix_app_r.
Qed.

(** A reply that wrote [gd'] and [ts'] back to the room. *)
Lemma write_back_closed now room gd' ts' w tr gd'' :
  (status gd' = finished -> closed_by now room gd' ts' tr) ->
  games (write_back room gd' ts' w) !! room = Some gd'' ->
  status gd'' = finished ->
  closed_by now room gd'' (game_timers (write_back room gd' ts' w)) tr.
Proof.
  unfold write_back. cbn [games game_timers]. rewrite lookup_insert_eq.
  intros H [= <-]. exact H.
Qed.

Lemma remove_after_mill_closes now room c r0 gd ts tr w gd' :
  status gd <> finished ->
  games (after (remove_after_mill now room c r0 gd ts tr w)) !! room = Some gd' ->
  status gd' = finished ->
  closed_by now room gd'
    (game_timers (after (remove_after_mill now room c r0 gd ts tr w)))
    (trace (remove_after_mill now room c r0 gd ts tr w)).
Proof.
  intros Hopen. unfold remove_after_mill.
  destruct (Board.can_remove (game gd) r0) as [[|]|e]; cbn [after trace];
    try (by apply write_back_closed).
  destruct (Board.setitem _ r0 None) as [b|e]; cbn [after trace];
    [| by apply write_back_closed].
  cbv zeta.
  match goal with
  | |- context [switch_player_timer now room ?c1 ?gd1 ts] =>
      destruct (switch_player_timer_keeps now room c1 gd1 ts)
        as (_ & Hst2 & _);
      destruct (switch_player_timer now room c1 gd1 ts) as [[gd2 ts2] tr2]
  end.
  cbn [fst snd] in Hst2.
  match goal with
  | |- context [check_game_over now room ?gd3 ts2] =>
      pose proof (check_game_over_closes now room gd3 ts2
                    (tr ++ tr2 ++ [Emit "move_made"] ++ tournament_broadcast gd3))
        as Hclose;
      destruct (check_game_over now room gd3 ts2) as [[gd4 ts4] tr4]
  end.
  cbn [fst snd after trace] in *.
  apply write_back_closed. intros Hfin.
  rewrite <- !(assoc_L (++)) in Hclose. apply Hclose; [| done].
  cbn [status set_game]. by rewrite Hst2.
Qed.

Lemma normal_move_closes view now room c data gd ts tr w gd' :
  status gd <> finished ->
  games (after (normal_move view now room c data gd ts tr w)) !! room = Some gd' ->
  status gd' = finished ->
  closed_by now room gd'
    (game_timers (after (normal_move view now room c data gd ts tr w)))
    (trace (normal_move view now room c data gd ts tr w)).
Proof.
  intros Hopen. unfold normal_move.
  destruct (to_pos data) as [dst|]; cbn [after trace];
    [| by apply write_back_closed].
  destruct (Board.make_move _ dst _ (game gd)) as [[[|[|] mill wt]|e] g1];
    cbn [after trace]; try (by apply write_back_closed).
  cbv zeta.
  set (gd1 := push_position _ _).
  assert (Hs1 : status gd1 = status gd) by done.
  match goal with
  | |- context [match ?stamp with (_, _) => _ end] =>
      assert (Hstamp : status stamp.1 = status gd);
      [| destruct stamp as [gd2 ts2]]
  end.
  { destruct (ts !! room) as [t|]; [| done].
    by destruct (Clock.get_current_times now t) as [cur t1]. }
  cbn [fst] in Hstamp.
  match goal with
  | |- context [match ?turn with (_, _) => _ end] =>
      assert (Hturn : status turn.1.1 = status gd);
      [| destruct turn as [[gd3 ts3] tr3]]
  end.
  { destruct (mill && wt); lazy beta iota; cbn [fst snd]; [done |].
    match goal with
    | |- context [switch_player_timer now room ?c1 ?gd0 ts2] =>
        destruct (switch_player_timer_keeps now room c1 gd0 ts2)
          as (_ & Hst & _)
    end.
    etrans; [exact Hst | done]. }
  cbn [fst snd] in Hturn.
  destruct (get_featured_game now view _ ts3) as [featured ts_f].
  set (tr_f := if bool_decide (featured = Some room)
               then [Emit "featured_game_update"] else []).
  pose proof (check_game_over_closes now room gd3 ts_f
                (tr ++ tr3 ++ [Emit "move_made"] ++ tr_f
                 ++ tournament_broadcast gd3))
    as Hclose.
  destruct (check_game_over now room gd3 ts_f) as [[gd4 ts4] tr4].
  cbn [fst snd after trace] in *.
  apply write_back_closed. intros Hfin.
  rewrite <- !(assoc_L (++)) in Hclose. apply Hclose; [| done].
  by rewrite Hturn.
Qed.

(** X26. When a [make_move] message leaves a session finished that was
    not finished before, the board shows a winner, the session names
    that winner with the reason "normal" and the time of the call, the
    clock of the room is deleted, and the last things the handler did
    were the rating update, the [game_over] notice, the tournament
    scoring and the requeueing, in this order. *)
Theorem move_that_ends_the_game (view : lobby_view) (now : Q)
  (username : option string) (data : request) (w : world)
  (gd gd' : game_data) :
  games w !! room_id data = Some gd ->
  status gd <> finished ->
  games (after (on_make_move view now username data w)) !! room_id data = Some gd' ->
  status gd' = finished ->
  exists wnr : outcome,
    winner gd' = Some wnr
    /\ Board.get_winner (game gd') = Some wnr
    /\ end_reason gd' = Some "normal"%string
    /\ end_time gd' = Some now
    /\ game_timers (after (on_make_move view now username data w)) !! room_id data
       = None
    /\ closing_calls (room_id data) wnr
       `suffix_of` trace (on_make_move view now username data w).
Proof.
  intros Hgd Hopen.
  change (games (after (on_make_move view now username data w)) !! room_id data
            = Some gd' ->
          status gd' = finished ->
          closed_by now (room_id data) gd'
            (game_timers (after (on_make_move view now username data w)))
            (trace (on_make_move view now username data w))).
  unfold on_make_move. rewrite Hgd.
  destruct (negb _); cbn [after trace];
    [rewrite Hgd; by intros [= <-] |].
  destruct (_ || _); cbn [after trace];
    [rewrite Hgd; by intros [= <-] |].
  destruct (_ && _); cbn [after trace];
    [rewrite Hgd; by intros [= <-] |].
  match goal with
  | |- context [first_move_step now ?room ?c gd ?ts] =>
      pose proof (first_move_step_open now room c gd ts Hopen) as Hopen1;
      destruct (first_move_step now room c gd ts) as [[gd1 ts1] tr1]
  end.
  cbn [fst snd] in Hopen1.
  destruct (bool_decide _), (remove_pos data) as [r0|];
    first [ by apply remove_after_mill_closes
          | by apply normal_move_closes ].
Qed.

Lemma move_that_ends_the_game_witness :
  let rep := on_make_move sample_view 30 (Some "ann"%string) closing_request
               closing_world in
  game_timers (after rep) !! "room1"%string = None
  /\ closing_calls "room1" WhiteWins `suffix_of` trace rep.
Proof.
  intros rep.
  assert (Hafter : exists gd', games (after rep) !! "room1"%string = Some gd'
                               /\ status gd' = finished
                               /\ winner gd' = Some WhiteWins).
  { vm_compute. eexists. repeat split. }
  destruct Hafter as (gd' & Hroom & Hstatus & Hwinner).
  destruct (move_that_ends_the_game sample_view 30 (Some "ann"%string) closing_request
              closing_world closing_game gd')
    as (wnr & Hw & _ & _ & _ & Hclock & Hcalls);
    [reflexivity | discriminate | exact Hroom | exact Hstatus |].
  rewrite Hwinner in Hw. injection Hw as <-.
  split; [exact Hclock | exact Hcalls].
Defined.

End SessionMore.

(** ** Matching one player and the after-game menu *)

Module MatchingFacts.

Import Tournament Pairing Matching Lobby PairingLogic PairingFacts PairingMore.

(** *** The sort by score distance *)

Lemma insert_near_perm (cs : Z) (x : entry) (l : list entry) :
  insert_near cs x l ≡ₚ x :: l.
Proof.
  induction l as [|y rest IH]; cbn; [done |].
  destruct (_ <? _); [| done]. rewrite IH. apply Permutation_swap.
Qed.

Lemma sort_near_perm (cs : Z) (l : list entry) : sort_near cs l ≡ₚ l.
Proof.
  induction l as [|x rest IH]; cbn; [done |].
  by rewrite insert_near_perm, IH.
Qed.

Lemma insert_near_sorted (cs : Z) (x : entry) (l : list entry) :
  StronglySorted (nearer cs) l -> StronglySorted (nearer cs) (insert_near cs x l).
Proof.
  induction l as [|y rest IH]; intros Hs; cbn.
  - repeat constructor.
  - apply StronglySorted_inv in Hs as [Hrest Hy].
    destruct (distance cs y <? distance cs x) eqn:Hlt.
    + apply Z.ltb_lt in Hlt. constructor; [by apply IH |].
      rewrite insert_near_perm. constructor; [unfold nearer; lia | exact Hy].
    + apply Z.ltb_ge in Hlt. constructor; [by constructor |].
      constructor; [exact Hlt |].
      eapply Forall_impl; [exact Hy |]. unfold nearer. intros z Hz. lia.
Qed.

Lemma sort_near_sorted (cs : Z) (l : list entry) :
  StronglySorted (nearer cs) (sort_near cs l).
Proof.
  induction l as [|x rest IH]; cbn; [constructor | by apply insert_near_sorted].
Qed.

Lemma sorted_after (cs : Z) (l1 l2 : list entry) (e : entry) :
  StronglySorted (nearer cs) (l1 ++ e :: l2) -> Forall (nearer cs e) l2.
Proof.
  induction l1 as [|x l1 IH]; cbn; intros Hs;
    apply StronglySorted_inv in Hs as [Hrest Hall]; [exact Hall | by apply IH].
Qed.

(** *** The choice *)

Lemma best_opponent_first (st : registry) (tid name b : string)
  (l : list entry) :
  best_opponent st tid name (get_last_opponent st tid name) l = Some b ->
  exists l1 e l2,
    l = l1 ++ e :: l2
    /\ username e = b
    /\ may_meet st tid name b
    /\ Forall (λ x, ~ may_meet st tid name (username x)) l1.
Proof.
  induction l as [|x rest IH]; [done |]. cbn [best_opponent].
  case_bool_decide as Hl.
  { intros (l1 & e & l2 & -> & He & Hm & Hall)%IH.
    exists (x :: l1), e, l2. do 3 (split; [done |]).
    constructor; [| done]. intros [Hne _]. congruence. }
  case_bool_decide as Hc.
  { intros (l1 & e & l2 & -> & He & Hm & Hall)%IH.
    exists (x :: l1), e, l2. do 3 (split; [done |]).
    constructor; [| done]. intros [_ Hne]. congruence. }
  intros [= <-]. exists [], x, rest. do 2 (split; [done |]).
  split; [| constructor]. split; congruence.
Qed.

Lemma available_opponents_elem (st : registry) (name : string)
  (ps : list (string * participant)) (e : entry) :
  e ∈ available_opponents st name ps
  <-> username e <> name
      /\ is_available st (username e) = true
      /\ exists d, (username e, d) ∈ ps
                   /\ e = mkEntry (username e) (score d) (rating d).
Proof.
  induction ps as [|[n d] rest IH]; cbn [available_opponents].
  - split; [intros H; inversion H | intros (_ & _ & d & H & _); inversion H].
  - destruct (bool_decide (n ≠ name) && is_available st n) eqn:Hn.
    + apply andb_true_iff in Hn as [Hn1%bool_decide_eq_true Hn2].
      rewrite elem_of_cons, IH. split.
      * intros [->|(Hne & Ha & d' & Hd' & He)]; cbn.
        -- repeat split; try done. exists d. split; [by left | done].
        -- repeat split; try done. exists d'. split; [by right | done].
      * intros (Hne & Ha & d' & [[= Hn' ->]|Hd']%elem_of_cons & He).
        -- left. by rewrite He, Hn'.
        -- right. repeat split; try done. by exists d'.
    + rewrite IH. split.
      * intros (Hne & Ha & d' & Hd' & He). repeat split; try done.
        exists d'. split; [by right | done].
      * intros (Hne & Ha & d' & [[= Hn' ->]|Hd']%elem_of_cons & He).
        -- rewrite <- Hn' in Hn. rewrite Ha, bool_decide_true in Hn by done.
           discriminate.
        -- repeat split; try done. by exists d'.
Qed.

(** X27. The opponent [match_tournament_players] creates a game with is
    another participant of the active tournament, both players are
    available, neither is recorded as the last opponent of the other,
    and among the available participants the player may meet none has a
    score nearer to the player's own. *)
Theorem matched_opponent_is_nearest (st : registry) (tid name : string)
  (t : tournament) (a b : string) :
  tournaments st !! tid = Some t ->
  match_tournament_players st tid name = Some (a, b) ->
  let current_score := default 0 (score <$> dict_get name (players t)) in
  a = name /\ b <> name /\ status t = active
  /\ is_available st name = true /\ is_available st b = true
  /\ may_meet st tid name b
  /\ exists pb,
       (b, pb) ∈ players t
       /\ forall c pc,
            (c, pc) ∈ players t -> c <> name -> is_available st c = true ->
            may_meet st tid name c ->
            Z.abs (score pb - current_score) <= Z.abs (score pc - current_score).
Proof.
  intros Ht. unfold match_tournament_players. rewrite Ht.
  case_bool_decide as Hactive; [done |].
  destruct (is_available st name) eqn:Hme; [| done]. cbn [negb].
  set (cs := default 0 (score <$> dict_get name (players t))).
  set (opps := available_opponents st name (players t)).
  destruct opps as [|o opps'] eqn:Hopps; [done |]. rewrite <- Hopps. clear Hopps.
  destruct (best_opponent _ _ _ _ _) as [best|] eqn:Hbest; [| done].
  case_bool_decide; [done |]. intros [= <- <-]. cbn zeta.
  apply best_opponent_first in Hbest as (l1 & e & l2 & Hsplit & He & Hmeet & Hbar).
  assert (Hin : e ∈ opps).
  { rewrite <- (sort_near_perm cs), Hsplit. set_solver. }
  apply available_opponents_elem in Hin as (Hne & Hav & pb & Hpb & Hentry).
  rewrite He in Hne, Hav, Hpb.
  split; [done |]. split; [done |]. split; [by destruct (status t) |].
  do 3 (split; [done |]).
  exists pb. split; [done |]. intros c pc Hc Hcne Hcav Hcmeet.
  assert (Hcin : mkEntry c (score pc) (rating pc) ∈ l1 ++ e :: l2).
  { rewrite <- Hsplit, sort_near_perm. apply available_opponents_elem.
    cbn. repeat split; try done. by exists pc. }
  pose proof (sort_near_sorted cs opps) as Hsorted. rewrite Hsplit in Hsorted.
  change (Z.abs (score pc - cs)) with (distance cs (mkEntry c (score pc) (rating pc))).
  assert (Hd : distance cs e = Z.abs (score pb - cs)) by (by rewrite Hentry).
  rewrite <- Hd.
  apply elem_of_app in Hcin as [Hc1|Hc2].
  - rewrite Forall_forall in Hbar. by destruct (Hbar _ Hc1).
  - apply elem_of_cons in Hc2 as [<-|Hc2]; [done |].
    apply sorted_after in Hsorted as Hall.
    rewrite Forall_forall in Hall. by apply Hall.
Qed.

Lemma matched_opponent_is_nearest_witness :
  match_tournament_players club_registry "club" "ann" = Some ("ann", "cat")%string
  /\ may_meet club_registry "club" "ann" "cat".
Proof.
  assert (Hmatch : match_tournament_players club_registry "club" "ann"
                   = Some ("ann", "cat")%string) by (vm_compute; reflexivity).
  split; [exact Hmatch |].
  destruct (matched_opponent_is_nearest club_registry "club" "ann" club
              "ann" "cat") as (_ & _ & _ & _ & _ & Hmeet & _);
    [reflexivity | exact Hmatch | exact Hmeet].
Defined.

(** *** The after-game menu *)

Lemma in_menu_not_available (st : registry) (x : string) :
  x ∈ players_in_game_menu st -> is_available st x = false.
Proof.
  intros Hx. unfold is_available.
  rewrite (bool_decide_false (x ∉ players_in_game_menu st)) by (intros Hn; by apply Hn).
  by rewrite andb_false_r.
Qed.

Lemma paired_is_available (st : registry) (tid x : string) :
  x ∈ paired_names (lichess_style_pairing st tid) -> is_available st x = true.
Proof.
  unfold lichess_style_pairing.
  destruct (tournaments st !! tid) as [t|]; [| intros H; inversion H].
  case_bool_decide; [intros Hnil; inversion Hnil |].
  rewrite pair_players_spec. intros [_ Hx]%spec_round_fresh.
  apply list_elem_of_fmap in Hx as (e & -> & He).
  rewrite sort_desc_perm in He.
  by apply available_players_elem in He as (Hav & _).
Qed.

Lemma matched_are_available (st : registry) (tid name : string) (a b : string) :
  match_tournament_players st tid name = Some (a, b) ->
  is_available st a = true /\ is_available st b = true.
Proof.
  unfold match_tournament_players.
  destruct (tournaments st !! tid) as [t|]; [| done].
  case_bool_decide; [done |].
  destruct (is_available st name) eqn:Hme; [| done]. cbn [negb].
  set (opps := available_opponents st name (players t)).
  destruct opps as [|o opps'] eqn:Hopps; [done |]. rewrite <- Hopps. clear Hopps.
  destruct (best_opponent _ _ _ _ _) as [best|] eqn:Hbest; [| done].
  case_bool_decide; [done |]. intros [= <- <-]. split; [done |].
  apply best_opponent_first in Hbest as (l1 & e & l2 & Hsplit & <- & _ & _).
  assert (Hin : e ∈ opps).
  { rewrite <- (sort_near_perm
                 (default 0 (score <$> dict_get name (players t)))), Hsplit.
    set_solver. }
  by apply available_opponents_elem in Hin as (_ & Hav & _).
Qed.

Lemma auto_pause_keeps (player : string) (lb : lobby) (tr : list Session.event) :
  let lb' := (auto_pause player (lb, tr)).1 in
  players_in_game_menu (reg lb') = players_in_game_menu (reg lb)
  /\ tournaments (reg lb') = tournaments (reg lb)
  /\ games (reg lb') = games (reg lb)
  /\ tournament_recent_opponents (reg lb') = tournament_recent_opponents (reg lb)
  /\ paused_users (reg lb) ⊆ paused_users (reg lb')
  /\ pending_auto_pause lb' ⊆ pending_auto_pause lb
  /\ (forall y, y <> player -> y ∈ pending_auto_pause lb ->
                y ∈ pending_auto_pause lb')
  /\ (player <> ""%string ->
      (player ∉ pending_auto_pause lb')
      /\ (player ∈ pending_auto_pause lb -> player ∈ paused_users (reg lb'))).
Proof.
  unfold auto_pause. repeat case_bool_decide; cbn; repeat split; set_solver.
Qed.

Lemma to_game_menu_keeps (now : Q) (player : string) (t : tournament) (lb : lobby) :
  let lb' := to_game_menu now player t lb in
  players_in_game_menu (reg lb) ⊆ players_in_game_menu (reg lb')
  /\ tournaments (reg lb') = tournaments (reg lb)
  /\ games (reg lb') = games (reg lb)
  /\ tournament_recent_opponents (reg lb') = tournament_recent_opponents (reg lb)
  /\ paused_users (reg lb') = paused_users (reg lb)
  /\ pending_auto_pause lb' = pending_auto_pause lb
  /\ (player <> ""%string -> dict_has player (players t) = true ->
      player ∈ players_in_game_menu (reg lb')).
Proof.
  unfold to_game_menu. case_bool_decide; destruct (dict_has player (players t));
    cbn; repeat split; set_solver.
Qed.

(** X28. When a game of an active tournament has ended, each of its two
    players who is on the roster is put in the after-game menu and has
    no automatic pause pending any more (a pending one has paused the
    player).  From then on no pairing round of any tournament pairs
    that player, and [match_tournament_players] neither matches the
    player nor chooses the player as an opponent.  The tournaments, the
    games and the register of last opponents are as before. *)
Theorem requeued_player_waits_in_menu (now_white now_black : Q)
  (gd : Session.game_data) (lb : lobby) (tid : string) (t : tournament)
  (x : string) :
  Session.tournament_id gd = Some tid ->
  tid <> ""%string ->
  tournaments (reg lb) !! tid = Some t ->
  status t = active ->
  x = Session.gd_white gd \/ x = Session.gd_black gd ->
  x <> ""%string ->
  dict_has x (players t) = true ->
  let st' := reg (requeue_tournament_players now_white now_black gd lb).1 in
  x ∈ players_in_game_menu st'
  /\ (x ∉ pending_auto_pause
            (requeue_tournament_players now_white now_black gd lb).1)
  /\ (x ∈ pending_auto_pause lb -> x ∈ paused_users st')
  /\ (forall tid', x ∉ paired_names (lichess_style_pairing st' tid'))
  /\ (forall tid' y a b,
        match_tournament_players st' tid' y = Some (a, b) -> a <> x /\ b <> x)
  /\ tournaments st' = tournaments (reg lb)
  /\ games st' = games (reg lb)
  /\ tournament_recent_opponents st' = tournament_recent_opponents (reg lb).
Proof.
  intros Htid Hne Ht Hactive Hx Hname Hin.
  unfold requeue_tournament_players.
  rewrite Htid, bool_decide_false, Ht, bool_decide_false
    by (first [done | rewrite Hactive; intros Hn; by apply Hn]).
  set (w := Session.gd_white gd) in *. set (b := Session.gd_black gd) in *.
  pose proof (auto_pause_keeps w lb []) as Hw.
  destruct (auto_pause w (lb, [])) as [lba tra]. cbn [fst] in Hw.
  destruct Hw as (Hwm & Hwt & Hwg & Hwr & Hwp & Hwq & Hwo & Hwx).
  pose proof (auto_pause_keeps b lba tra) as Hb.
  destruct (auto_pause b (lba, tra)) as [lb1 tr1]. cbn [fst] in Hb.
  destruct Hb as (Hbm & Hbt & Hbg & Hbr & Hbp & Hbq & Hbo & Hbx).
  destruct (to_game_menu_keeps now_white w t lb1)
    as (H2m & H2t & H2g & H2r & H2p & H2q & H2x).
  set (lb2 := to_game_menu now_white w t lb1) in *.
  destruct (to_game_menu_keeps now_black b t lb2)
    as (H3m & H3t & H3g & H3r & H3p & H3q & H3x).
  set (lb3 := to_game_menu now_black b t lb2) in *.
  cbn [fst]. cbv zeta.
  assert (Hmenu : x ∈ players_in_game_menu (reg lb3)).
  { destruct Hx as [-> | ->];
      [pose proof (H2x Hname Hin) | pose proof (H3x Hname Hin)]; set_solver. }
  split; [exact Hmenu |].
  split.
  { rewrite H3q, H2q. destruct Hx as [-> | ->].
    - intros Hp. apply Hbq in Hp. by apply (proj1 (Hwx Hname)).
    - by apply (proj1 (Hbx Hname)). }
  split.
  { rewrite H3p, H2p. destruct Hx as [-> | ->].
    - intros Hp. by apply Hbp, (proj2 (Hwx Hname)).
    - intros Hp. destruct (decide (b = w)) as [Heq|Hbw].
      + rewrite Heq in *. by apply Hbp, (proj2 (Hwx Hname)).
      + by apply (proj2 (Hbx Hname)), Hwo. }
  split.
  { intros tid' Hp. apply paired_is_available in Hp.
    by rewrite (in_menu_not_available _ _ Hmenu) in Hp. }
  split.
  { intros tid' y a0 b0 Hm. apply matched_are_available in Hm as [Ha Hb0].
    split; intros ->; by rewrite (in_menu_not_available _ _ Hmenu) in *. }
  repeat split; congruence.
Qed.

Lemma requeued_player_waits_in_menu_witness :
  let st' := reg (requeue_tournament_players 5 5 Scoring.streak_game
                    after_game_lobby).1 in
  "alice"%string ∈ players_in_game_menu st'
  /\ "alice"%string ∈ paused_users st'
  /\ ("alice"%string ∉ paired_names (lichess_style_pairing st' "hourly")).
Proof.
  intros st'.
  destruct (requeued_player_waits_in_menu 5 5 Scoring.streak_game
              after_game_lobby "hourly"
              {| status := active;
                 players := [("carol", Scoring.seat 6); ("alice", Scoring.seat 8);
                             ("bob", Scoring.seat 4); ("dave", Scoring.seat 2)]%string;
                 streaks := Some {["alice"%string := 3; "carol"%string := 2]} |}
              "alice")
    as (Hmenu & _ & Hpaused & Hround & _);
    [reflexivity | discriminate | reflexivity | reflexivity | left; reflexivity
    | discriminate | reflexivity |].
  split; [exact Hmenu |]. split; [| apply Hround].
  apply Hpaused. cbn. set_solver.
Defined.

End MatchingFacts.

(** ** Resignation and draw by agreement *)

Module EndingsFacts.

Import Session SessionLogic Endings.

Lemma end_game_room room w reason gd wd :
  games (after (end_game room w reason gd wd)) !! room
  = Some (set_ended w reason gd)
  /\ game_timers (after (end_game room w reason gd wd)) !! room = None.
Proof.
  unfold end_game, stop_game_timer, timer_map. cbn [after games game_timers].
  by rewrite lookup_insert_eq, lookup_delete_eq.
Qed.

(** X29. A resignation by a player of a game that is not over ends it:
    the session is finished with the other colour as the winner and the
    reason "resignation", the board is kept, the clock of the room is
    deleted, and the ratings, the tournament table and the queue are
    updated once.  After it, a further resignation by anyone is ignored
    and a [make_move] message changes nothing. *)
Theorem resignation_is_final (username : option string) (room : string)
  (wd : world) (gd : game_data) :
  games wd !! room = Some gd ->
  is_player username gd = true ->
  status gd <> finished ->
  winner gd = None ->
  let rep := on_resign username (Some room) wd in
  let w := if bool_decide (username = Some (gd_white gd))
           then BlackWins else WhiteWins in
  games (after rep) !! room = Some (set_ended w "resignation" gd)
  /\ game (set_ended w "resignation" gd) = game gd
  /\ game_timers (after rep) !! room = None
  /\ trace rep = closing_calls room w
  /\ (forall u2, after (on_resign u2 (Some room) (after rep)) = after rep
                 /\ trace (on_resign u2 (Some room) (after rep)) = [])
  /\ (forall view now u2 data, room_id data = room ->
        after (on_make_move view now u2 data (after rep)) = after rep).
Proof.
  intros Hgd Hplayer Hopen Hwinner rep w.
  assert (Hrep : rep = end_game room w "resignation" gd wd).
  { subst rep. unfold on_resign. rewrite Hgd, Hplayer. cbn [negb].
    rewrite bool_decide_false by done. rewrite Hwinner.
    rewrite (bool_decide_false (is_Some None)) by (by intros [? ?]). done. }
  destruct (end_game_room room w "resignation" gd wd) as [Hroom Hclock].
  rewrite <- Hrep in Hroom, Hclock.
  split; [exact Hroom |]. split; [done |]. split; [exact Hclock |].
  split; [by rewrite Hrep |]. split.
  - intros u2. unfold on_resign. rewrite Hroom.
    destruct (negb _); [done |].
    by rewrite (bool_decide_true (status _ = finished)) by done.
  - intros view now u2 data <-. unfold on_make_move. rewrite Hroom.
    destruct (negb _); [done |].
    by rewrite (bool_decide_true (status _ = finished)), orb_true_r by done.
Qed.

Lemma resignation_is_final_witness :
  winner <$> games (after (on_resign (Some "ben"%string) (Some "room1"%string)
                             closing_world)) !! "room1"%string
  = Some (Some WhiteWins)
  /\ trace (on_resign (Some "ben"%string) (Some "room1"%string) closing_world)
     = closing_calls "room1" WhiteWins.
Proof.
  destruct (resignation_is_final (Some "ben"%string) "room1" closing_world
              closing_game) as (Hroom & _ & _ & Htrace & _);
    [reflexivity | reflexivity | discriminate | reflexivity |].
  split; [by rewrite Hroom | exact Htrace].
Defined.

(** X30. On a session that is already finished a resignation is ignored,
    but an accepted draw is carried out: [on_accept_draw] does not look
    at the status, so the recorded winner is replaced by a draw with the
    reason "agreement", and the rating update, the tournament scoring
    and the requeueing are called for the game again.  The other
    sessions are not touched. *)
Theorem accepted_draw_overrides_result (username : option string)
  (room : string) (wd : world) (gd : game_data) :
  games wd !! room = Some gd ->
  is_player username gd = true ->
  status gd = finished ->
  let draw := on_accept_draw username (Some room) wd in
  after (on_resign username (Some room) wd) = wd
  /\ trace (on_resign username (Some room) wd) = []
  /\ games (after draw) !! room = Some (set_ended DrawGame "agreement" gd)
  /\ winner (set_ended DrawGame "agreement" gd) = Some DrawGame
  /\ trace draw = closing_calls room DrawGame
  /\ (forall r, r <> room -> games (after draw) !! r = games wd !! r).
Proof.
  intros Hgd Hplayer Hfinished draw.
  split; [| split].
  - unfold on_resign. rewrite Hgd, Hplayer. cbn [negb].
    by rewrite (bool_decide_true (status gd = finished)) by done.
  - unfold on_resign. rewrite Hgd, Hplayer. cbn [negb].
    by rewrite (bool_decide_true (status gd = finished)) by done.
  - assert (Hdraw : draw = end_game room DrawGame "agreement" gd wd).
    { subst draw. unfold on_accept_draw. by rewrite Hgd, Hplayer. }
    destruct (end_game_room room DrawGame "agreement" gd wd) as [Hroom _].
    rewrite <- Hdraw in Hroom.
    split; [exact Hroom |]. split; [done |]. split; [by rewrite Hdraw |].
    intros r Hr. rewrite Hdraw. unfold end_game. cbn [after games].
    by rewrite lookup_insert_ne.
Qed.

Lemma accepted_draw_overrides_result_witness :
  winner <$> games (sample_world finished) !! "room1"%string
  = Some (Some WhiteWins)
  /\ winner <$> games (after (on_accept_draw (Some "ben"%string)
                                (Some "room1"%string) (sample_world finished)))
                  !! "room1"%string
     = Some (Some DrawGame).
Proof.
  destruct (accepted_draw_overrides_result (Some "ben"%string) "room1"
              (sample_world finished) (sample_game finished))
    as (_ & _ & Hroom & _); [reflexivity | reflexivity | reflexivity |].
  split; [reflexivity | by rewrite Hroom].
Defined.

End EndingsFacts.
